(** * nvc-ragbot: practice-mode detection, scenario filtering and the
      progress tracker, embedded from [lib/practice-mode.ts] and
      [lib/progress-tracking.ts], and what the chat route
      ([app/api/chat/route.ts]) does with the detection and with the sources
      of an answer.

    Conventions of the embedding.
    - A JavaScript string is a [string]: a sequence of code units, here
      restricted to the units below 256.
    - The integer-valued numbers of the Progress Record ([streakDays],
      [timestamp], [rating], ...) are [Z]; the source keeps them in IEEE
      doubles, which are exact on integers of magnitude below 2^53.  The two
      quotients of [getStats] are computed with binary64 arithmetic
      ([PrimFloat]), as the source does.
    - An optional field ([x?: T], or a property holding [undefined]) is an
      [option]; [null] in [lastPracticeDate] is [None].
    - The clock, the random source and [localStorage] belong to the host; they
      are passed in explicitly.  How a JavaScript host derives the two dates
      the tracker reads from its clock and time zone is embedded in
      [JSDate] and [JSHost]. *)

From Stdlib Require Import ZArith Ascii String Floats Uint63.
From Stdlib Require DecimalFacts DecimalN.
From stdpp Require Import base option list strings gmap.

Local Open Scope Z_scope.
Local Open Scope string_scope.

(** ** JavaScript string primitives *)
Module JSString.

(** [String.prototype.toLowerCase] on one code unit below 256: the ASCII
    capitals and the Latin-1 capitals (all of 0xC0..0xDE but the
    multiplication sign 0xD7) move up by 0x20. *)
Definition lowerChar (c : ascii) : ascii :=
  let n := N_of_ascii c in
  if ((65 <=? n) && (n <=? 90))%N then ascii_of_N (n + 32)
  else if ((192 <=? n) && (n <=? 222) && negb (n =? 215))%N then ascii_of_N (n + 32)
  else c.

Fixpoint toLowerCase (s : string) : string :=
  match s with
  | EmptyString => EmptyString
  | String c t => String (lowerChar c) (toLowerCase t)
  end.

(** [s.startsWith(k)] *)
Fixpoint startsWith (s k : string) : bool :=
  match k, s with
  | EmptyString, _ => true
  | String a k', String b s' => if decide (a = b) then startsWith s' k' else false
  | String _ _, EmptyString => false
  end.

(** [s.includes(k)]: [k] occurs in [s] at some position. *)
Fixpoint includes (s k : string) : bool :=
  startsWith s k ||
  match s with
  | EmptyString => false
  | String _ t => includes t k
  end.

(** [keywords.some(keyword => s.includes(keyword))] *)
Definition someIncluded (keywords : list string) (s : string) : bool :=
  existsb (includes s) keywords.

(** The declarative reading of "contains the literal substring". *)
Definition contains (s k : string) : Prop :=
  exists pre post : string, s = pre ++ k ++ post.

End JSString.

(** ** The regular expressions of the detector

    Only the constructs the four patterns use: a literal character, an
    optional literal character ([s?]) and the assertion [\b].  All four
    patterns carry the [i] flag and none carries [g], so [test] searches from
    index 0 and compares letters case-insensitively. *)
Module RegExp.

Inductive atom : Type :=
| Lit (c : ascii)
| Opt (c : ascii)
| WordBoundary.

(** [\w] without the [u] flag: [A-Za-z0-9_]. *)
Definition isWordChar (c : ascii) : bool :=
  let n := N_of_ascii c in
  (((65 <=? n) && (n <=? 90)) || ((97 <=? n) && (n <=? 122)) ||
   ((48 <=? n) && (n <=? 57)) || (n =? 95))%N.

Definition isWordAt (o : option ascii) : bool :=
  match o with
  | Some c => isWordChar c
  | None => false
  end.

Definition peek (s : string) : option ascii :=
  match s with
  | EmptyString => None
  | String c _ => Some c
  end.

Definition sameLetter (p c : ascii) : bool :=
  bool_decide (JSString.lowerChar p = JSString.lowerChar c).

(** Backtracking match of the pattern at the current position; [prev] is the
    character just before it, if any. *)
Fixpoint matchHere (p : list atom) (prev : option ascii) (s : string) : bool :=
  match p with
  | [] => true
  | WordBoundary :: p' =>
      xorb (isWordAt prev) (isWordAt (peek s)) && matchHere p' prev s
  | Lit c :: p' =>
      match s with
      | String a t => sameLetter c a && matchHere p' (Some a) t
      | EmptyString => false
      end
  | Opt c :: p' =>
      match s with
      | String a t => sameLetter c a && matchHere p' (Some a) t
      | EmptyString => false
      end
      || matchHere p' prev s
  end.

Fixpoint searchFrom (p : list atom) (prev : option ascii) (s : string) : bool :=
  matchHere p prev s ||
  match s with
  | EmptyString => false
  | String a t => searchFrom p (Some a) t
  end.

(** [pattern.test(s)] *)
Definition test (p : list atom) (s : string) : bool := searchFrom p None s.

Fixpoint lits (s : string) : list atom :=
  match s with
  | EmptyString => []
  | String c t => Lit c :: lits t
  end.

End RegExp.

(** ** lib/practice-mode.ts *)
Module PracticeMode.
Import JSString.

Inductive NVCComponent : Type := observations | feelings | needs | requests.
Inductive Difficulty : Type := beginner | intermediate | advanced.
Inductive ConversationMode : Type := single | multi.
Inductive PracticeModeType : Type := practice | translate.

#[global] Instance NVCComponent_eq_dec : EqDecision NVCComponent.
Proof. solve_decision. Defined.
#[global] Instance Difficulty_eq_dec : EqDecision Difficulty.
Proof. solve_decision. Defined.
#[global] Instance ConversationMode_eq_dec : EqDecision ConversationMode.
Proof. solve_decision. Defined.
#[global] Instance PracticeModeType_eq_dec : EqDecision PracticeModeType.
Proof. solve_decision. Defined.

(** The string each member of a union type is at run time. *)
Definition componentName (c : NVCComponent) : string :=
  match c with
  | observations => "observations"
  | feelings => "feelings"
  | needs => "needs"
  | requests => "requests"
  end.

Definition difficultyName (d : Difficulty) : string :=
  match d with
  | beginner => "beginner"
  | intermediate => "intermediate"
  | advanced => "advanced"
  end.

Definition conversationModeName (m : ConversationMode) : string :=
  match m with
  | single => "single"
  | multi => "multi"
  end.

Definition modeName (m : PracticeModeType) : string :=
  match m with
  | practice => "practice"
  | translate => "translate"
  end.

Record PracticeMode : Type := mkPracticeMode {
  isPracticeMode : bool;
  mode : option PracticeModeType;
  focusComponent : option NVCComponent;
  difficulty : option Difficulty;
  conversationMode : option ConversationMode
}.

Record ScenarioFilter : Type := mkScenarioFilter {
  filterDifficulty : option Difficulty;
  filterFocusComponent : option string;
  filterConversationMode : option ConversationMode
}.

(** The declared fields of a scenario; the index signature lets a scenario
    carry further keys, which neither function reads. *)
Record Scenario : Type := mkScenario {
  title : string;
  scenarioDifficulty : string;
  focus_component : string;
  scenarioMode : string
}.

Definition practiceKeywords : list string := ["practice"; "scenario"].
Definition translateKeywords : list string := ["translate"; "transform"].

(** [componentPatterns], in the order [Object.entries] lists its keys. *)
Definition componentPatterns : list (NVCComponent * list RegExp.atom) :=
  [ (observations, RegExp.WordBoundary :: RegExp.lits "observation");
    (feelings, RegExp.WordBoundary :: RegExp.lits "feeling"
                 ++ [RegExp.Opt "s"; RegExp.WordBoundary]);
    (needs, RegExp.WordBoundary :: RegExp.lits "need"
                 ++ [RegExp.Opt "s"; RegExp.WordBoundary]);
    (requests, RegExp.WordBoundary :: RegExp.lits "request"
                 ++ [RegExp.Opt "s"; RegExp.WordBoundary]) ].

(** The [for ... of] loop with its [break]: the first entry whose pattern
    tests true. *)
Fixpoint firstMatching (entries : list (NVCComponent * list RegExp.atom))
    (s : string) : option NVCComponent :=
  match entries with
  | [] => None
  | (component, pattern) :: rest =>
      if RegExp.test pattern s then Some component else firstMatching rest s
  end.

Definition detectDifficulty (lowerMessage : string) : option Difficulty :=
  if includes lowerMessage "beginner" then Some beginner
  else if includes lowerMessage "intermediate" then Some intermediate
  else if includes lowerMessage "advanced" then Some advanced
  else None.

Definition detectConversationMode (lowerMessage : string) : option ConversationMode :=
  if includes lowerMessage "multi-turn" || includes lowerMessage "multi turn"
  then Some multi
  else if includes lowerMessage "single" || includes lowerMessage "quick"
  then Some single
  else None.

Definition detectPracticeMode (message : string) : PracticeMode :=
  let lowerMessage := toLowerCase message in
  let isPractice := someIncluded practiceKeywords lowerMessage in
  let isTranslate := someIncluded translateKeywords lowerMessage in
  if negb (isPractice || isTranslate) then
    {| isPracticeMode := false; mode := None; focusComponent := None;
       difficulty := None; conversationMode := None |}
  else
    {| isPracticeMode := true;
       mode := Some (if isTranslate then translate else practice);
       focusComponent := firstMatching componentPatterns lowerMessage;
       difficulty := detectDifficulty lowerMessage;
       conversationMode := detectConversationMode lowerMessage |}.

(** Truthiness of an optional string-valued criterion: [undefined] and the
    empty string are falsy. *)
Definition truthy (o : option string) : bool :=
  match o with
  | Some s => negb (bool_decide (s = ""))
  | None => false
  end.

(** [crit && field !== crit] *)
Definition rejects (crit : option string) (field : string) : bool :=
  match crit with
  | Some s => truthy crit && negb (bool_decide (field = s))
  | None => false
  end.

Definition keeps (f : ScenarioFilter) (scenario : Scenario) : bool :=
  if rejects (difficultyName <$> filterDifficulty f) (scenarioDifficulty scenario)
  then false
  else if rejects (filterFocusComponent f) (focus_component scenario)
  then false
  else if rejects (conversationModeName <$> filterConversationMode f) (scenarioMode scenario)
  then false
  else true.

Definition filterScenarios (scenarios : list Scenario) (f : ScenarioFilter)
    : list Scenario :=
  List.filter (keeps f) scenarios.

End PracticeMode.

(** ** JSON.parse and JSON.stringify

    The two host functions the tracker serialises with, over the values the
    embedding represents: integers, strings of code units below 256, and
    objects whose property order is their insertion order.  [parse] has three
    outcomes: a value, the [SyntaxError] the source catches, and
    [OutsideModel] for a text whose value the embedding does not represent
    (a number literal with a fraction or an exponent, an escape [\uXXXX] of a
    code unit from 256 up, an integer-like property name, which an object
    lists before its other names).  The recursion on nested values is
    bounded by a fuel that [parse] sets above the length of the text; running
    out of it counts as [OutsideModel], never as a [SyntaxError]. *)
Module JSON.
Local Open Scope list_scope.

#[local] Unset Elimination Schemes.
Inductive value : Type :=
| Null
| Bool (b : bool)
| Num (n : Z)
| Str (s : string)
| Arr (items : list value)
| Obj (members : list (string * value)).
#[local] Set Elimination Schemes.

Inductive result (A : Type) : Type :=
| Ok (a : A)
| SyntaxError
| OutsideModel.
Arguments Ok {A} a.
Arguments SyntaxError {A}.
Arguments OutsideModel {A}.

Definition bind {A B : Type} (r : result A) (k : A -> result B) : result B :=
  match r with
  | Ok a => k a
  | SyntaxError => SyntaxError
  | OutsideModel => OutsideModel
  end.

#[global] Instance result_bind : MBind result := fun A B k r => bind r k.

Definition chr (n : N) : ascii := ascii_of_N n.
Definition quoteChar : ascii := chr 34.
Definition backslash : ascii := chr 92.

(** *** Numbers *)

Definition digitOf (c : ascii) : option (Decimal.uint -> Decimal.uint) :=
  match N_of_ascii c with
  | 48%N => Some Decimal.D0
  | 49%N => Some Decimal.D1
  | 50%N => Some Decimal.D2
  | 51%N => Some Decimal.D3
  | 52%N => Some Decimal.D4
  | 53%N => Some Decimal.D5
  | 54%N => Some Decimal.D6
  | 55%N => Some Decimal.D7
  | 56%N => Some Decimal.D8
  | 57%N => Some Decimal.D9
  | _ => None
  end.

Fixpoint scanDigits (s : list ascii) : Decimal.uint * list ascii :=
  match s with
  | c :: t =>
      match digitOf c with
      | Some d => let '(u, r) := scanDigits t in (d u, r)
      | None => (Decimal.Nil, s)
      end
  | [] => (Decimal.Nil, [])
  end.

Fixpoint digitChars (u : Decimal.uint) : list ascii :=
  match u with
  | Decimal.Nil => []
  | Decimal.D0 u' => chr 48 :: digitChars u'
  | Decimal.D1 u' => chr 49 :: digitChars u'
  | Decimal.D2 u' => chr 50 :: digitChars u'
  | Decimal.D3 u' => chr 51 :: digitChars u'
  | Decimal.D4 u' => chr 52 :: digitChars u'
  | Decimal.D5 u' => chr 53 :: digitChars u'
  | Decimal.D6 u' => chr 54 :: digitChars u'
  | Decimal.D7 u' => chr 55 :: digitChars u'
  | Decimal.D8 u' => chr 56 :: digitChars u'
  | Decimal.D9 u' => chr 57 :: digitChars u'
  end.

(** The integer part of a number is [0] or starts with a digit from 1 to 9. *)
Definition intPartOk (u : Decimal.uint) : bool :=
  match u with
  | Decimal.Nil => false
  | Decimal.D0 Decimal.Nil => true
  | Decimal.D0 _ => false
  | _ => true
  end.

(** What may not follow an integer literal for it to be the whole number. *)
Definition continuesNumber (s : list ascii) : bool :=
  match s with
  | c :: _ => bool_decide (c = chr 46) || bool_decide (c = chr 101)
              || bool_decide (c = chr 69)
  | [] => false
  end.

Definition scanFracDigits (s : list ascii) : result (list ascii) :=
  match scanDigits s with
  | (Decimal.Nil, _) => SyntaxError
  | (_, r) => Ok r
  end.

(** The rest of a number after its integer part: the grammar is checked, the
    value is not represented. *)
Definition scanFraction (s : list ascii) : result (list ascii) :=
  match s with
  | c :: t => if bool_decide (c = chr 46) then scanFracDigits t else Ok s
  | [] => Ok s
  end.

Definition scanExponent (s : list ascii) : result (list ascii) :=
  match s with
  | c :: t =>
      if bool_decide (c = chr 101) || bool_decide (c = chr 69) then
        match t with
        | sg :: t' =>
            if bool_decide (sg = chr 43) || bool_decide (sg = chr 45)
            then scanFracDigits t' else scanFracDigits t
        | [] => SyntaxError
        end
      else Ok s
  | [] => Ok s
  end.

Definition scanUnsigned (s : list ascii) : result (N * list ascii) :=
  let '(u, r) := scanDigits s in
  if intPartOk u then
    if continuesNumber r then
      r1 ← scanFraction r; _ ← scanExponent r1; OutsideModel
    else Ok (N.of_uint u, r)
  else SyntaxError.

Definition scanNumber (s : list ascii) : result (Z * list ascii) :=
  match s with
  | c :: t =>
      if bool_decide (c = chr 45)
      then '(n, r) ← scanUnsigned t; Ok (- Z.of_N n, r)
      else '(n, r) ← scanUnsigned s; Ok (Z.of_N n, r)
  | [] => SyntaxError
  end.

Definition printNumber (n : Z) : list ascii :=
  (if (n <? 0)%Z then [chr 45] else []) ++ digitChars (N.to_uint (Z.abs_N n)).

(** *** Strings *)

Definition hexDigit (c : ascii) : option N :=
  let n := N_of_ascii c in
  if ((48 <=? n) && (n <=? 57))%N then Some (n - 48)%N
  else if ((97 <=? n) && (n <=? 102))%N then Some (n - 87)%N
  else if ((65 <=? n) && (n <=? 70))%N then Some (n - 55)%N
  else None.

Definition hex4 (a b c d : ascii) : option N :=
  match hexDigit a, hexDigit b, hexDigit c, hexDigit d with
  | Some x, Some y, Some z, Some w => Some (((x * 16 + y) * 16 + z) * 16 + w)%N
  | _, _, _, _ => None
  end.

(** The character a two-character escape stands for. *)
Definition shortEscape (e : ascii) : option ascii :=
  match N_of_ascii e with
  | 34%N => Some (chr 34)
  | 92%N => Some (chr 92)
  | 47%N => Some (chr 47)
  | 98%N => Some (chr 8)
  | 102%N => Some (chr 12)
  | 110%N => Some (chr 10)
  | 114%N => Some (chr 13)
  | 116%N => Some (chr 9)
  | _ => None
  end.

Definition cons_result (c : ascii) (r : result (list ascii * list ascii))
    : result (list ascii * list ascii) :=
  '(cs, rest) ← r; Ok (c :: cs, rest).

(** The body of a string literal, after its opening quote. *)
Fixpoint scanString (s : list ascii) : result (list ascii * list ascii) :=
  match s with
  | [] => SyntaxError
  | c :: t =>
      if bool_decide (c = quoteChar) then Ok ([], t)
      else if bool_decide (c = backslash) then
        match t with
        | [] => SyntaxError
        | e :: t1 =>
            if bool_decide (e = chr 117) then
              match t1 with
              | h1 :: h2 :: h3 :: h4 :: t2 =>
                  match hex4 h1 h2 h3 h4 with
                  | Some code =>
                      if (code <? 256)%N then cons_result (chr code) (scanString t2)
                      else OutsideModel
                  | None => SyntaxError
                  end
              | _ => SyntaxError
              end
            else
              match shortEscape e with
              | Some c' => cons_result c' (scanString t1)
              | None => SyntaxError
              end
        end
      else if (N_of_ascii c <? 32)%N then SyntaxError
      else cons_result c (scanString t)
  end.

Definition hexChar (n : N) : ascii :=
  if (n <? 10)%N then chr (48 + n) else chr (87 + n).

(** [QuoteJSONString] on one code unit. *)
Definition escapeChar (c : ascii) : list ascii :=
  let n := N_of_ascii c in
  match n with
  | 34%N => [backslash; chr 34]
  | 92%N => [backslash; chr 92]
  | 8%N => [backslash; chr 98]
  | 12%N => [backslash; chr 102]
  | 10%N => [backslash; chr 110]
  | 13%N => [backslash; chr 114]
  | 9%N => [backslash; chr 116]
  | _ =>
      if (n <? 32)%N
      then [backslash; chr 117; chr 48; chr 48; hexChar (n / 16); hexChar (n mod 16)]
      else [c]
  end.

Fixpoint escapeChars (s : list ascii) : list ascii :=
  match s with
  | [] => []
  | c :: t => escapeChar c ++ escapeChars t
  end.

Definition printString (s : string) : list ascii :=
  quoteChar :: escapeChars (list_ascii_of_string s) ++ [quoteChar].

(** *** Values *)

Definition isWs (c : ascii) : bool :=
  let n := N_of_ascii c in
  ((n =? 32) || (n =? 9) || (n =? 10) || (n =? 13))%N.

Fixpoint skipWs (s : list ascii) : list ascii :=
  match s with
  | c :: t => if isWs c then skipWs t else s
  | [] => []
  end.

(** [obj[k] = v]: an existing property keeps its place. *)
Fixpoint setProp (k : string) (v : value) (members : list (string * value))
    : list (string * value) :=
  match members with
  | [] => [(k, v)]
  | (k', v') :: rest =>
      if decide (k' = k) then (k, v) :: rest else (k', v') :: setProp k v rest
  end.

Definition defineAll (members : list (string * value)) : list (string * value) :=
  fold_left (fun acc kv => setProp (fst kv) (snd kv) acc) members [].

(** A property name an object would list ahead of insertion order. *)
Definition integerLike (k : string) : bool :=
  match scanDigits (list_ascii_of_string k) with
  | (u, []) => intPartOk u
  | _ => false
  end.

Definition literal (word : string) (v : value) (s : list ascii)
    : result (value * list ascii) :=
  let w := list_ascii_of_string word in
  if bool_decide (take (length w) s = w) then Ok (v, drop (length w) s)
  else SyntaxError.

Fixpoint parseValue (fuel : nat) (s : list ascii) {struct fuel}
    : result (value * list ascii) :=
  match fuel with
  | O => OutsideModel
  | S fuel' =>
      match skipWs s with
      | [] => SyntaxError
      | c :: t =>
          match N_of_ascii c with
          | 110%N => literal "null" Null (c :: t)
          | 116%N => literal "true" (Bool true) (c :: t)
          | 102%N => literal "false" (Bool false) (c :: t)
          | 34%N => '(cs, r) ← scanString t;
                    Ok (Str (string_of_list_ascii cs), r)
          | 91%N =>
              match skipWs t with
              | c' :: t' =>
                  if bool_decide (c' = chr 93) then Ok (Arr [], t')
                  else '(items, r) ← parseElements fuel' t; Ok (Arr items, r)
              | [] => SyntaxError
              end
          | 123%N =>
              match skipWs t with
              | c' :: t' =>
                  if bool_decide (c' = chr 125) then Ok (Obj [], t')
                  else '(members, r) ← parseMembers fuel' t;
                       if existsb (fun kv => integerLike (fst kv)) members
                       then OutsideModel
                       else Ok (Obj (defineAll members), r)
              | [] => SyntaxError
              end
          | _ => '(n, r) ← scanNumber (c :: t); Ok (Num n, r)
          end
      end
  end

with parseElements (fuel : nat) (s : list ascii) {struct fuel}
    : result (list value * list ascii) :=
  match fuel with
  | O => OutsideModel
  | S fuel' =>
      '(v, r) ← parseValue fuel' s;
      match skipWs r with
      | c :: t =>
          if bool_decide (c = chr 44) then
            '(items, r') ← parseElements fuel' t; Ok (v :: items, r')
          else if bool_decide (c = chr 93) then Ok ([v], t)
          else SyntaxError
      | [] => SyntaxError
      end
  end

with parseMembers (fuel : nat) (s : list ascii) {struct fuel}
    : result (list (string * value) * list ascii) :=
  match fuel with
  | O => OutsideModel
  | S fuel' =>
      match skipWs s with
      | q :: t =>
          if bool_decide (q = quoteChar) then
            '(cs, r) ← scanString t;
            match skipWs r with
            | colon :: r1 =>
                if bool_decide (colon = chr 58) then
                  '(v, r2) ← parseValue fuel' r1;
                  match skipWs r2 with
                  | c :: r3 =>
                      if bool_decide (c = chr 44) then
                        '(members, r4) ← parseMembers fuel' r3;
                        Ok ((string_of_list_ascii cs, v) :: members, r4)
                      else if bool_decide (c = chr 125)
                      then Ok ([(string_of_list_ascii cs, v)], r3)
                      else SyntaxError
                  | [] => SyntaxError
                  end
                else SyntaxError
            | [] => SyntaxError
            end
          else SyntaxError
      | [] => SyntaxError
      end
  end.

(** [JSON.parse(text)] *)
Definition parse (text : string) : result value :=
  let s := list_ascii_of_string text in
  '(v, r) ← parseValue (S (length s)) s;
  match skipWs r with
  | [] => Ok v
  | _ :: _ => SyntaxError
  end.

Fixpoint joinComma (parts : list (list ascii)) : list ascii :=
  match parts with
  | [] => []
  | [p] => p
  | p :: rest => p ++ chr 44 :: joinComma rest
  end.

Fixpoint print (v : value) : list ascii :=
  match v with
  | Null => list_ascii_of_string "null"
  | Bool true => list_ascii_of_string "true"
  | Bool false => list_ascii_of_string "false"
  | Num n => printNumber n
  | Str s => printString s
  | Arr items => chr 91 :: joinComma (List.map print items) ++ [chr 93]
  | Obj members =>
      chr 123 ::
      joinComma (List.map (fun kv => printString (fst kv) ++ chr 58 :: print (snd kv))
                          members)
      ++ [chr 125]
  end.

(** [JSON.stringify(v)] *)
Definition stringify (v : value) : string := string_of_list_ascii (print v).

End JSON.

(** ** Math.round on binary64 *)
Module JSMath.

(** The double of an integer: the integer itself below 2^53 in magnitude,
    the nearest double (a tie going to the even one) beyond, an infinity
    past the largest double. *)
Definition ofZ (z : Z) : float :=
  SF2Prim (SpecFloat.binary_normalize prec emax z 0 false).

(** The integer nearest to [(-1)^neg * m * 2^e] for [e < 0], a tie going up. *)
Definition nearestInteger (neg : bool) (m : positive) (e : Z) : Z :=
  let scale := (2 ^ (- e))%Z in
  let twice := (2 * Z.pos m)%Z in
  if neg then (- ((twice + scale - 1) / (2 * scale)))%Z
  else ((twice + scale) / (2 * scale))%Z.

(** [Math.round(x)]: the integer nearest to [x], a tie going up; an [x] that
    is already integral, infinite or NaN is returned as it is, and a result
    of zero keeps the sign of [x]. *)
Definition round (x : float) : float :=
  match Prim2SF x with
  | S754_finite neg m e =>
      if (0 <=? e)%Z then x
      else
        let n := nearestInteger neg m e in
        if (n =? 0)%Z then (if neg then (-0)%float else 0%float) else ofZ n
  | _ => x
  end.

(** The integer a double is, when it is one. *)
Definition integerOf (x : float) : option Z :=
  match Prim2SF x with
  | S754_zero _ => Some 0%Z
  | S754_finite neg m e =>
      let v := if neg then Z.neg m else Z.pos m in
      if (0 <=? e)%Z then Some (v * 2 ^ e)%Z
      else if (v mod 2 ^ (- e) =? 0)%Z then Some (v / 2 ^ (- e))%Z
      else None
  | _ => None
  end.

(** The value of a finite double as a fraction: a numerator and a
    denominator that is a positive power of 2. *)
Definition fractionOf (x : float) : option (Z * Z) :=
  match Prim2SF x with
  | S754_zero _ => Some (0, 1)%Z
  | S754_finite neg m e =>
      let v := if neg then Z.neg m else Z.pos m in
      if (0 <=? e)%Z then Some (v * 2 ^ e, 1)%Z else Some (v, 2 ^ (- e))%Z
  | _ => None
  end.

End JSMath.

(** ** Dates: the part of [Date] the tracker uses

    A time value is a number of milliseconds since 1970-01-01T00:00:00Z, as
    [Date.now()] returns it.  The functions are those of the language
    specification ([Day], [TimeWithinDay], [DayFromYear], [YearFromTime],
    [MonthFromTime], [DateFromTime], [MakeDay], [MakeDate], [LocalTime],
    [UTC]); the offset of local time from UTC belongs to the host
    ([LocalTZA]).  Time values stay far inside the range [TimeClip]
    accepts. *)
Module JSDate.
Local Open Scope Z_scope.

Definition msPerDay : Z := 86400000.

Definition Day (t : Z) : Z := t / msPerDay.

Definition TimeWithinDay (t : Z) : Z := t mod msPerDay.

Definition DaysInYear (y : Z) : Z :=
  if negb (y mod 4 =? 0) then 365
  else if negb (y mod 100 =? 0) then 366
  else if negb (y mod 400 =? 0) then 365
  else 366.

(** The day number of the first day of year [y]. *)
Definition DayFromYear (y : Z) : Z :=
  365 * (y - 1970) + (y - 1969) / 4 - (y - 1901) / 100 + (y - 1601) / 400.

(** The year a day falls in: the largest [y] with [DayFromYear y <= day],
    found from the mean length of a year and corrected by one where that
    misses. *)
Definition yearOfDay (day : Z) : Z :=
  let y := 1970 + day * 400 / 146097 in
  if day <? DayFromYear y then y - 1
  else if DayFromYear (y + 1) <=? day then y + 1
  else y.

Definition YearFromTime (t : Z) : Z := yearOfDay (Day t).

Definition InLeapYear (t : Z) : Z :=
  if DaysInYear (YearFromTime t) =? 366 then 1 else 0.

Definition DayWithinYear (t : Z) : Z := Day t - DayFromYear (YearFromTime t).

(** The day within the year on which month [m] (0 to 11) begins. *)
Definition monthStart (m leap : Z) : Z :=
  if m =? 0 then 0
  else if m =? 1 then 31
  else if m =? 2 then 59 + leap
  else if m =? 3 then 90 + leap
  else if m =? 4 then 120 + leap
  else if m =? 5 then 151 + leap
  else if m =? 6 then 181 + leap
  else if m =? 7 then 212 + leap
  else if m =? 8 then 243 + leap
  else if m =? 9 then 273 + leap
  else if m =? 10 then 304 + leap
  else 334 + leap.

Definition MonthFromTime (t : Z) : Z :=
  let d := DayWithinYear t in
  let leap := InLeapYear t in
  if d <? 31 then 0
  else if d <? 59 + leap then 1
  else if d <? 90 + leap then 2
  else if d <? 120 + leap then 3
  else if d <? 151 + leap then 4
  else if d <? 181 + leap then 5
  else if d <? 212 + leap then 6
  else if d <? 243 + leap then 7
  else if d <? 273 + leap then 8
  else if d <? 304 + leap then 9
  else if d <? 334 + leap then 10
  else 11.

Definition DateFromTime (t : Z) : Z :=
  DayWithinYear t - monthStart (MonthFromTime t) (InLeapYear t) + 1.

(** [MakeDay(year, month, date)]: the day number of the first of the month,
    plus [date - 1]. *)
Definition MakeDay (year month date : Z) : Z :=
  let ym := year + month / 12 in
  let mn := month mod 12 in
  let leap := if DaysInYear ym =? 366 then 1 else 0 in
  DayFromYear ym + monthStart mn leap + date - 1.

Definition MakeDate (day time : Z) : Z := day * msPerDay + time.

(** [LocalTZA(t, isUTC)]: the offset of local time in milliseconds, at the
    UTC time value [t] when [isUTC], at the local time value [t]
    otherwise. *)
Record TimeZone : Type := mkTimeZone { LocalTZA : Z -> bool -> Z }.

Definition LocalTime (tz : TimeZone) (t : Z) : Z := t + LocalTZA tz t true.

Definition UTC (tz : TimeZone) (t : Z) : Z := t - LocalTZA tz t false.

(** [date.getDate()] *)
Definition getDate (tz : TimeZone) (t : Z) : Z := DateFromTime (LocalTime tz t).

(** The time value [date.setDate(dt)] leaves in a date whose time value
    is [t]. *)
Definition setDate (tz : TimeZone) (t dt : Z) : Z :=
  let local := LocalTime tz t in
  let newDate :=
    MakeDate (MakeDay (YearFromTime local) (MonthFromTime local) dt)
             (TimeWithinDay local) in
  UTC tz newDate.

(** The digits of [n >= 0], with zeros in front up to [width] digits. *)
Definition padStart (width : nat) (n : Z) : string :=
  let digits := string_of_list_ascii (JSON.printNumber n) in
  string_of_list_ascii (repeat "0"%char (width - String.length digits)) ++ digits.

(** [date.toISOString().split('T')[0]]: the UTC date, the year with four
    digits from 0 to 9999 and with a sign and six digits outside. *)
Definition isoDate (t : Z) : string :=
  let y := YearFromTime t in
  let year :=
    if (0 <=? y) && (y <=? 9999) then padStart 4 y
    else (if y <? 0 then "-" else "+") ++ padStart 6 (Z.abs y) in
  year ++ "-" ++ padStart 2 (MonthFromTime t + 1) ++ "-" ++ padStart 2 (DateFromTime t).

(** A host whose offset never changes. *)
Definition fixedOffset (offset : Z) : TimeZone :=
  {| LocalTZA := fun _ _ => offset |}.

(** A host whose offset changes once, at the UTC time value [change], from
    [before] to [after].  A local time that the change skips or repeats is
    read with the offset before the change. *)
Definition oneChange (change before after : Z) : TimeZone :=
  {| LocalTZA := fun t isUTC =>
       if isUTC then (if t <? change then before else after)
       else (if t <? change + Z.max before after then before else after) |}.

(** New York between March 2026 and March 2027: daylight time (UTC-4) until
    2026-11-01T06:00:00Z, standard time (UTC-5) from then on. *)
Definition newYork2026 : TimeZone :=
  oneChange 1793512800000 (-14400000) (-18000000).

End JSDate.

(** ** lib/progress-tracking.ts

    [DEFAULT_PROGRESS_DATA] is one object for the whole module, and
    [{ ...DEFAULT_PROGRESS_DATA }] copies its properties one level deep: the
    copy's [attempts] and [completedScenarios] are the very arrays of
    [DEFAULT_PROGRESS_DATA], which [push] then grows.  The embedding keeps the
    contents of those two arrays in the state ([Defaults]) and lets an array
    property of [data] either be one of them or an array of its own. *)
Module Progress.
Local Open Scope list_scope.

Definition STORAGE_KEY : string := "nvc_progress".

Record PracticeAttempt : Type := mkAttempt {
  id : string;
  scenarioId : string;
  timestamp : Z;
  mode : PracticeMode.PracticeModeType;
  focusComponent : option PracticeMode.NVCComponent;
  difficulty : option PracticeMode.Difficulty;
  rating : option Z;
  completed : bool
}.

Record RecordAttemptInput : Type := mkInput {
  input_scenarioId : string;
  input_mode : PracticeMode.PracticeModeType;
  input_completed : bool;
  input_focusComponent : option PracticeMode.NVCComponent;
  input_difficulty : option PracticeMode.Difficulty;
  input_rating : option Z
}.

(** An array-valued property: the array of [DEFAULT_PROGRESS_DATA] under the
    same name, or an array no other object holds. *)
Inductive array (A : Type) : Type :=
| OfDefault
| Own (items : list A).
Arguments OfDefault {A}.
Arguments Own {A} items.

(** The object [data] refers to. *)
Record ProgressData : Type := mkData {
  enabled : bool;
  attempts : array PracticeAttempt;
  completedScenarios : array string;
  streakDays : Z;
  lastPracticeDate : option string;
  totalPracticeTime : Z
}.

(** The contents of the two arrays of [DEFAULT_PROGRESS_DATA]. *)
Record Defaults : Type := mkDefaults {
  defaultAttempts : list PracticeAttempt;
  defaultCompletedScenarios : list string
}.

(** A Progress Record as a value: what [data] holds once its arrays are read. *)
Record ProgressRecord : Type := mkRecord {
  r_enabled : bool;
  r_attempts : list PracticeAttempt;
  r_completedScenarios : list string;
  r_streakDays : Z;
  r_lastPracticeDate : option string;
  r_totalPracticeTime : Z
}.

Record ProgressStats : Type := mkStats {
  totalAttempts : Z;
  completedAttempts : Z;
  completionRate : float;
  averageRating : float;
  statsStreakDays : Z;
  byComponent : gmap string Z;
  byDifficulty : gmap string Z;
  byMode : gmap string Z
}.

Record DisableOptions : Type := mkOptions { clearData : option bool }.

(** [{ ...DEFAULT_PROGRESS_DATA }]: the primitives are copied, the arrays are
    shared. *)
Definition spreadDefault : ProgressData :=
  {| enabled := false; attempts := OfDefault; completedScenarios := OfDefault;
     streakDays := 0; lastPracticeDate := None; totalPracticeTime := 0 |}.

(** The arrays of [DEFAULT_PROGRESS_DATA] when the module is loaded. *)
Definition initialDefaults : Defaults :=
  {| defaultAttempts := []; defaultCompletedScenarios := [] |}.

Definition attemptItems (d : Defaults) (p : ProgressData) : list PracticeAttempt :=
  match attempts p with
  | OfDefault => defaultAttempts d
  | Own items => items
  end.

Definition completedItems (d : Defaults) (p : ProgressData) : list string :=
  match completedScenarios p with
  | OfDefault => defaultCompletedScenarios d
  | Own items => items
  end.

Definition snapshot (d : Defaults) (p : ProgressData) : ProgressRecord :=
  {| r_enabled := enabled p;
     r_attempts := attemptItems d p;
     r_completedScenarios := completedItems d p;
     r_streakDays := streakDays p;
     r_lastPracticeDate := lastPracticeDate p;
     r_totalPracticeTime := totalPracticeTime p |}.

(** An object all of whose arrays are its own, as [JSON.parse] builds it. *)
Definition fresh (r : ProgressRecord) : ProgressData :=
  {| enabled := r_enabled r;
     attempts := Own (r_attempts r);
     completedScenarios := Own (r_completedScenarios r);
     streakDays := r_streakDays r;
     lastPracticeDate := r_lastPracticeDate r;
     totalPracticeTime := r_totalPracticeTime r |}.

(** What one call reads from the host: [Date.now()], the digits
    [Math.random().toString(36).substr(2, 9)] gives, the date
    [new Date().toISOString().split('T')[0]], and the same for the [Date]
    moved back by [setDate(getDate() - 1)].  The clock is read as not
    advancing within a call. *)
Record Host : Type := mkHost {
  dateNow : Z;
  randomDigits : string;
  todayISO : string;
  yesterdayISO : string
}.

Definition decimal (n : Z) : string := string_of_list_ascii (JSON.printNumber n).

Definition generateId (h : Host) : string :=
  ("attempt-" ++ decimal (dateNow h) ++ "-" ++ randomDigits h)%string.

Definition getToday (h : Host) : string := todayISO h.

Definition isYesterday (h : Host) (dateStr : string) : bool :=
  bool_decide (dateStr = yesterdayISO h).

Definition isToday (h : Host) (dateStr : string) : bool :=
  bool_decide (dateStr = getToday h).

(** *** The record as a JSON value, property by property in the order the
    source creates them; a property holding [undefined] is left out, as
    [JSON.stringify] does. *)

Definition optionalMember {A : Type} (k : string) (f : A -> JSON.value)
    (o : option A) : list (string * JSON.value) :=
  match o with
  | Some a => [(k, f a)]
  | None => []
  end.

Definition encodeAttempt (a : PracticeAttempt) : JSON.value :=
  JSON.Obj
    ([ ("id", JSON.Str (id a));
       ("timestamp", JSON.Num (timestamp a));
       ("scenarioId", JSON.Str (scenarioId a));
       ("mode", JSON.Str (PracticeMode.modeName (mode a)));
       ("completed", JSON.Bool (completed a)) ]
     ++ optionalMember "focusComponent"
          (fun c => JSON.Str (PracticeMode.componentName c)) (focusComponent a)
     ++ optionalMember "difficulty"
          (fun d => JSON.Str (PracticeMode.difficultyName d)) (difficulty a)
     ++ optionalMember "rating" JSON.Num (rating a)).

Definition encodeDate (d : option string) : JSON.value :=
  match d with
  | Some s => JSON.Str s
  | None => JSON.Null
  end.

Definition encodeData (r : ProgressRecord) : JSON.value :=
  JSON.Obj
    [ ("enabled", JSON.Bool (r_enabled r));
      ("attempts", JSON.Arr (List.map encodeAttempt (r_attempts r)));
      ("completedScenarios", JSON.Arr (List.map JSON.Str (r_completedScenarios r)));
      ("streakDays", JSON.Num (r_streakDays r));
      ("lastPracticeDate", encodeDate (r_lastPracticeDate r));
      ("totalPracticeTime", JSON.Num (r_totalPracticeTime r)) ].

(** [serialize(R)]: the text [JSON.stringify] gives for the record. *)
Definition serialize (r : ProgressRecord) : string :=
  JSON.stringify (encodeData r).

(** *** Reading a parsed value as a Progress Record

    [JSON.parse(json) as ProgressData] checks nothing.  A parsed value that
    is exactly what [encodeData] gives for some record is that record; any
    other parsed value is kept as it came ([Foreign]). *)

Definition modeOfName (s : string) : option PracticeMode.PracticeModeType :=
  if decide (s = "practice") then Some PracticeMode.practice
  else if decide (s = "translate") then Some PracticeMode.translate
  else None.

Definition componentOfName (s : string) : option PracticeMode.NVCComponent :=
  if decide (s = "observations") then Some PracticeMode.observations
  else if decide (s = "feelings") then Some PracticeMode.feelings
  else if decide (s = "needs") then Some PracticeMode.needs
  else if decide (s = "requests") then Some PracticeMode.requests
  else None.

Definition difficultyOfName (s : string) : option PracticeMode.Difficulty :=
  if decide (s = "beginner") then Some PracticeMode.beginner
  else if decide (s = "intermediate") then Some PracticeMode.intermediate
  else if decide (s = "advanced") then Some PracticeMode.advanced
  else None.

(** An optional member named [k] at the head of the members, decoded by [f]. *)
Definition takeOptional {A : Type} (k : string) (f : JSON.value -> option A)
    (members : list (string * JSON.value))
    : option (option A * list (string * JSON.value)) :=
  match members with
  | (k', v) :: rest =>
      if decide (k' = k) then a ← f v; Some (Some a, rest)
      else Some (None, members)
  | [] => Some (None, [])
  end.

Definition asStr (v : JSON.value) : option string :=
  match v with
  | JSON.Str s => Some s
  | _ => None
  end.

Definition asNum (v : JSON.value) : option Z :=
  match v with
  | JSON.Num n => Some n
  | _ => None
  end.

Definition asBool (v : JSON.value) : option bool :=
  match v with
  | JSON.Bool b => Some b
  | _ => None
  end.

Definition asArr (v : JSON.value) : option (list JSON.value) :=
  match v with
  | JSON.Arr items => Some items
  | _ => None
  end.

(** The value of a member, provided its name is [k]. *)
Definition member (k : string) (m : string * JSON.value) : option JSON.value :=
  if decide (fst m = k) then Some (snd m) else None.

Definition attemptOfMembers (m1 m2 m3 m4 m5 : string * JSON.value)
    (rest : list (string * JSON.value)) : option PracticeAttempt :=
  i ← member "id" m1 ≫= asStr;
  t ← member "timestamp" m2 ≫= asNum;
  s ← member "scenarioId" m3 ≫= asStr;
  m ← (member "mode" m4 ≫= asStr) ≫= modeOfName;
  c ← member "completed" m5 ≫= asBool;
  '(fc, rest1) ← takeOptional "focusComponent" (fun v => asStr v ≫= componentOfName) rest;
  '(df, rest2) ← takeOptional "difficulty" (fun v => asStr v ≫= difficultyOfName) rest1;
  '(rt, rest3) ← takeOptional "rating" asNum rest2;
  match rest3 with
  | [] => Some {| id := i; scenarioId := s; timestamp := t; mode := m;
                  focusComponent := fc; difficulty := df; rating := rt;
                  completed := c |}
  | _ :: _ => None
  end.

Definition decodeAttempt (v : JSON.value) : option PracticeAttempt :=
  match v with
  | JSON.Obj (m1 :: m2 :: m3 :: m4 :: m5 :: rest) => attemptOfMembers m1 m2 m3 m4 m5 rest
  | _ => None
  end.

Definition decodeDate (v : JSON.value) : option (option string) :=
  match v with
  | JSON.Null => Some None
  | JSON.Str d => Some (Some d)
  | _ => None
  end.

Definition recordOfMembers (m1 m2 m3 m4 m5 m6 : string * JSON.value)
    : option ProgressRecord :=
  e ← member "enabled" m1 ≫= asBool;
  atts ← (member "attempts" m2 ≫= asArr) ≫= mapM decodeAttempt;
  done ← (member "completedScenarios" m3 ≫= asArr) ≫= mapM asStr;
  n ← member "streakDays" m4 ≫= asNum;
  date ← member "lastPracticeDate" m5 ≫= decodeDate;
  t ← member "totalPracticeTime" m6 ≫= asNum;
  Some {| r_enabled := e; r_attempts := atts; r_completedScenarios := done;
          r_streakDays := n; r_lastPracticeDate := date;
          r_totalPracticeTime := t |}.

Definition decodeData (v : JSON.value) : option ProgressRecord :=
  match v with
  | JSON.Obj [m1; m2; m3; m4; m5; m6] => recordOfMembers m1 m2 m3 m4 m5 m6
  | _ => None
  end.

(** *** The tracker *)

Inductive jsdata : Type :=
| Shaped (p : ProgressData)
| Foreign (v : JSON.value).

Definition ofJSON (v : JSON.value) : jsdata :=
  match decodeData v with
  | Some r => Shaped (fresh r)
  | None => Foreign v
  end.

(** The module's default arrays, the closure's [data] and the host's
    [localStorage] ([None] where [typeof localStorage === 'undefined']). *)
Record State : Type := mkState {
  defaults : Defaults;
  data : jsdata;
  localStorage : option (gmap string string)
}.

Definition toJSON (d : Defaults) (x : jsdata) : JSON.value :=
  match x with
  | Shaped p => encodeData (snapshot d p)
  | Foreign v => v
  end.

(** How a call ends: it returns, or it reads properties of a [Foreign]
    value, which the embedding does not follow. *)
Inductive completion (A : Type) : Type :=
| Returns (a : A)
| NotModelled.
Arguments Returns {A} a.
Arguments NotModelled {A}.

Definition saveData (st : State) : State :=
  match localStorage st with
  | Some store =>
      {| defaults := defaults st; data := data st;
         localStorage :=
           Some (<[STORAGE_KEY := JSON.stringify (toJSON (defaults st) (data st))]> store) |}
  | None => st
  end.

Definition loadData (storage : option (gmap string string)) : completion jsdata :=
  match storage with
  | None => Returns (Shaped spreadDefault)
  | Some store =>
      match store !! STORAGE_KEY with
      | None => Returns (Shaped spreadDefault)
      | Some stored =>
          if decide (stored = "") then Returns (Shaped spreadDefault)
          else
            match JSON.parse stored with
            | JSON.Ok v => Returns (ofJSON v)
            | JSON.SyntaxError => Returns (Shaped spreadDefault)
            | JSON.OutsideModel => NotModelled
            end
      end
  end.

(** [createProgressTracker()] in a module whose default arrays hold [d]. *)
Definition createProgressTracker (d : Defaults) (storage : option (gmap string string))
    : completion State :=
  match loadData storage with
  | Returns x => Returns {| defaults := d; data := x; localStorage := storage |}
  | NotModelled => NotModelled
  end.

Definition setStreak (p : ProgressData) (days : Z) (last : option string) : ProgressData :=
  {| enabled := enabled p; attempts := attempts p;
     completedScenarios := completedScenarios p;
     streakDays := days; lastPracticeDate := last;
     totalPracticeTime := totalPracticeTime p |}.

Definition updateStreak (h : Host) (p : ProgressData) : ProgressData :=
  let today := getToday h in
  match lastPracticeDate p with
  | None => setStreak p 1 (Some today)
  | Some last =>
      if isToday h last then p
      else if isYesterday h last then setStreak p (streakDays p + 1) (Some today)
      else setStreak p 1 (Some today)
  end.

(** [list.includes(x)] *)
Definition listIncludes (l : list string) (x : string) : bool :=
  existsb (fun y => bool_decide (y = x)) l.

Definition onShaped {A : Type} (st : State) (k : ProgressData -> A) : completion A :=
  match data st with
  | Shaped p => Returns (k p)
  | Foreign _ => NotModelled
  end.

Definition setEnabled (p : ProgressData) (b : bool) : ProgressData :=
  {| enabled := b; attempts := attempts p;
     completedScenarios := completedScenarios p;
     streakDays := streakDays p; lastPracticeDate := lastPracticeDate p;
     totalPracticeTime := totalPracticeTime p |}.

Definition withData (st : State) (p : ProgressData) : State :=
  {| defaults := defaults st; data := Shaped p; localStorage := localStorage st |}.

Definition isEnabled (st : State) : completion bool :=
  onShaped st enabled.

Definition enable (st : State) : completion State :=
  onShaped st (fun p => saveData (withData st (setEnabled p true))).

Definition disable (options : option DisableOptions) (st : State) : completion State :=
  onShaped st (fun p =>
    let p1 := setEnabled p false in
    let p2 := match options ≫= clearData with
              | Some true => spreadDefault
              | _ => p1
              end in
    saveData (withData st p2)).

Definition newAttempt (h : Host) (input : RecordAttemptInput) : PracticeAttempt :=
  {| id := generateId h;
     timestamp := dateNow h;
     scenarioId := input_scenarioId input;
     mode := input_mode input;
     completed := input_completed input;
     focusComponent := input_focusComponent input;
     difficulty := input_difficulty input;
     rating := input_rating input |}.

(** [data.attempts.push(attempt)]: the array grows where it lives. *)
Definition pushAttempt (a : PracticeAttempt) (d : Defaults) (p : ProgressData)
    : Defaults * ProgressData :=
  match attempts p with
  | OfDefault =>
      ({| defaultAttempts := defaultAttempts d ++ [a];
          defaultCompletedScenarios := defaultCompletedScenarios d |}, p)
  | Own items =>
      (d, {| enabled := enabled p; attempts := Own (items ++ [a]);
             completedScenarios := completedScenarios p;
             streakDays := streakDays p; lastPracticeDate := lastPracticeDate p;
             totalPracticeTime := totalPracticeTime p |})
  end.

(** [data.completedScenarios.push(scenarioId)] *)
Definition pushCompleted (s : string) (d : Defaults) (p : ProgressData)
    : Defaults * ProgressData :=
  match completedScenarios p with
  | OfDefault =>
      ({| defaultAttempts := defaultAttempts d;
          defaultCompletedScenarios := defaultCompletedScenarios d ++ [s] |}, p)
  | Own items =>
      (d, {| enabled := enabled p; attempts := attempts p;
             completedScenarios := Own (items ++ [s]);
             streakDays := streakDays p; lastPracticeDate := lastPracticeDate p;
             totalPracticeTime := totalPracticeTime p |})
  end.

Definition recordAttempt (h : Host) (input : RecordAttemptInput) (st : State)
    : completion State :=
  onShaped st (fun p =>
    if negb (enabled p) then st
    else
      let attempt := newAttempt h input in
      let '(d1, p1) := pushAttempt attempt (defaults st) p in
      let '(d2, p2) :=
        if input_completed input
           && negb (listIncludes (completedItems d1 p1) (input_scenarioId input))
        then pushCompleted (input_scenarioId input) d1 p1
        else (d1, p1) in
      saveData {| defaults := d2; data := Shaped (updateStreak h p2);
                  localStorage := localStorage st |}).

Definition getAttempts (st : State) : completion (list PracticeAttempt) :=
  onShaped st (attemptItems (defaults st)).

Definition getCompletedScenarios (st : State) : completion (list string) :=
  onShaped st (completedItems (defaults st)).

Definition getStreak (st : State) : completion Z :=
  onShaped st streakDays.

(** [m[k] = (m[k] || 0) + 1] *)
Definition bump (k : string) (m : gmap string Z) : gmap string Z :=
  <[k := default 0 (m !! k) + 1]> m.

Definition bumpOptional (k : option string) (m : gmap string Z) : gmap string Z :=
  match k with
  | Some s => bump s m
  | None => m
  end.

(** [rated.reduce((sum, a) => sum + (a.rating || 0), 0)] *)
Definition sumRatings (rated : list PracticeAttempt) : float :=
  fold_left (fun sum a => PrimFloat.add sum (JSMath.ofZ (default 0 (rating a))))
            rated 0%float.

Definition hasRating (a : PracticeAttempt) : bool :=
  match rating a with
  | Some _ => true
  | None => false
  end.

Definition statsOf (all : list PracticeAttempt) (streak : Z) : ProgressStats :=
  let completedCount := Z.of_nat (length (List.filter completed all)) in
  let ratedAttempts := List.filter hasRating all in
  let total := Z.of_nat (length all) in
  let rated := Z.of_nat (length ratedAttempts) in
  {| totalAttempts := total;
     completedAttempts := completedCount;
     completionRate :=
       if (0 <? total)%Z
       then JSMath.round
              (PrimFloat.mul (PrimFloat.div (JSMath.ofZ completedCount) (JSMath.ofZ total))
                             (JSMath.ofZ 100))
       else 0%float;
     averageRating :=
       if (0 <? rated)%Z
       then PrimFloat.div
              (JSMath.round
                 (PrimFloat.mul (PrimFloat.div (sumRatings ratedAttempts) (JSMath.ofZ rated))
                                (JSMath.ofZ 10)))
              (JSMath.ofZ 10)
       else 0%float;
     statsStreakDays := streak;
     byComponent :=
       fold_left (fun m a => bumpOptional (PracticeMode.componentName <$> focusComponent a) m)
                 all ∅;
     byDifficulty :=
       fold_left (fun m a => bumpOptional (PracticeMode.difficultyName <$> difficulty a) m)
                 all ∅;
     byMode := fold_left (fun m a => bump (PracticeMode.modeName (mode a)) m) all ∅ |}.

Definition getStats (st : State) : completion ProgressStats :=
  onShaped st (fun p => statsOf (attemptItems (defaults st) p) (streakDays p)).

Definition isScenarioCompleted (scenario : string) (st : State) : completion bool :=
  onShaped st (fun p => listIncludes (completedItems (defaults st) p) scenario).

Definition getAttemptsForScenario (scenario : string) (st : State)
    : completion (list PracticeAttempt) :=
  onShaped st (fun p =>
    List.filter (fun a => bool_decide (scenarioId a = scenario))
                (attemptItems (defaults st) p)).

Definition exportData (st : State) : string :=
  JSON.stringify (toJSON (defaults st) (data st)).

Definition importData (json : string) (st : State) : completion State :=
  match JSON.parse json with
  | JSON.Ok imported =>
      Returns (saveData {| defaults := defaults st; data := ofJSON imported;
                           localStorage := localStorage st |})
  | JSON.SyntaxError => Returns st
  | JSON.OutsideModel => NotModelled
  end.

End Progress.

(** ** The host's clock as JavaScript reads it *)
Module JSHost.
Import JSDate Progress.

(** What a JavaScript host gives one call to read, at the time value [now]
    in the time zone [tz]: [getToday] is the UTC date of [now]; the date
    [isYesterday] compares with is the UTC date of a [new Date()] moved by
    [setDate(getDate() - 1)], which works on local time. *)
Definition hostAt (tz : TimeZone) (now : Z) (random : string) : Host :=
  {| dateNow := now;
     randomDigits := random;
     todayISO := isoDate now;
     yesterdayISO := isoDate (setDate tz now (getDate tz now - 1)) |}.

End JSHost.

(** ** The chat route

    [app/api/chat/route.ts]: the parts of [POST] that turn the detected
    practice mode into instructions for the system prompt, label the sources
    of an answer and append them to it.  The request, the knowledge-base
    search and the model call around them are network traffic and are not
    embedded. *)
Module Route.
Import JSString PracticeMode.

(** The double quote. *)
Definition quote : string := String (ascii_of_N 34) EmptyString.

Definition componentFocus (practiceMode : PracticeMode) : string :=
  match focusComponent practiceMode with
  | Some c =>
      "Focus specifically on the " ++ quote ++ componentName c ++ quote
      ++ " component of NVC."
  | None => "Cover all OFNR components as needed."
  end.

Definition difficultyLevel (practiceMode : PracticeMode) : string :=
  match difficulty practiceMode with
  | Some d => "Adjust complexity for " ++ difficultyName d ++ " level learners."
  | None => "Gauge the user's level and adapt accordingly."
  end.

Definition conversationStyle (practiceMode : PracticeMode) : string :=
  if decide (conversationMode practiceMode = Some multi)
  then "Guide the user step-by-step through the practice, asking questions and providing feedback at each stage."
  else "Provide a complete practice scenario with guidance in a single response.".

(** The fixed text of the two template literals, line breaks and indentation
    included. *)
Definition translationHead : string := "
        PRACTICE MODE ACTIVE: Translation Exercise
        The user wants to translate a statement into NVC. ".

Definition translationFormat : string := "

        TRANSLATION EXERCISE FORMAT:
        1. Acknowledge the original statement
        2. Identify the evaluations, judgments, or demands present
        3. Guide the transformation using OFNR:
           - Observation: What would a camera record?
           - Feeling: What emotion is present?
           - Need: What universal need is unmet?
           - Request: What specific, doable action would help?
        4. Provide the complete NVC translation
        5. Explain the key learning from this exercise
        ".

Definition practiceHead : string := "
        PRACTICE MODE ACTIVE: Interactive Practice
        The user wants to practice NVC skills. ".

Definition practiceFormat : string := "

        PRACTICE SESSION FORMAT:
        1. Present a realistic scenario appropriate to the difficulty level
        2. Ask the user to try applying NVC
        3. Provide constructive feedback on their attempt
        4. Offer model answers and alternatives
        5. Highlight key learnings

        Use scenarios from the knowledge base context when available.
        ".

(** [practiceModeInstructions] as [POST] leaves it. *)
Definition practiceModeInstructions (practiceMode : PracticeMode) : string :=
  if isPracticeMode practiceMode then
    if decide (mode practiceMode = Some translate) then
      translationHead ++ componentFocus practiceMode ++ " " ++ difficultyLevel practiceMode
      ++ "
        " ++ conversationStyle practiceMode ++ translationFormat
    else
      practiceHead ++ componentFocus practiceMode ++ " " ++ difficultyLevel practiceMode
      ++ "
        " ++ conversationStyle practiceMode ++ practiceFormat
  else "".

(** [detectPracticeMode(latestMessage || '')]: a missing message counts as
    the empty one. *)
Definition instructionsFor (latestMessage : option string) : string :=
  practiceModeInstructions (detectPracticeMode (default "" latestMessage)).

Local Open Scope list_scope.

(** *** The sources of an answer *)

(** A search result, as far as [POST] reads it: the three metadata
    properties it tries for a title, and the text. *)
Record Document : Type := mkDocument {
  metadataTitle : option string;
  metadataSource : option string;
  metadataName : option string;
  document : option string
}.

(** [a || b]: the first operand when it is truthy (a string that is not
    empty), the second otherwise. *)
Definition orElse (a b : option string) : option string :=
  if PracticeMode.truthy a then a else b.

(** White space and line terminators among the code units below 256: what
    [trim] removes. *)
Definition isSpace (c : ascii) : bool :=
  let n := N_of_ascii c in
  (((9 <=? n) && (n <=? 13)) || (n =? 32) || (n =? 160))%N.

Fixpoint trimStart (s : string) : string :=
  match s with
  | EmptyString => EmptyString
  | String c t => if isSpace c then trimStart t else s
  end.

Fixpoint trimEnd (s : string) : string :=
  match s with
  | EmptyString => EmptyString
  | String c t =>
      match trimEnd t with
      | EmptyString => if isSpace c then EmptyString else String c EmptyString
      | t' => String c t'
      end
  end.

(** [s.trim()] *)
Definition trim (s : string) : string := trimEnd (trimStart s).

Definition newline : ascii := ascii_of_N 10.

(** [s.split('\n')] *)
Fixpoint splitLines (s : string) : list string :=
  match s with
  | EmptyString => [EmptyString]
  | String c t =>
      if decide (c = newline) then EmptyString :: splitLines t
      else
        match splitLines t with
        | line :: rest => String c line :: rest
        | [] => [String c EmptyString]
        end
  end.

(** The [for ... of] loop over the lines, with its [return]. *)
Fixpoint firstMeaningful (lines : list string) : option string :=
  match lines with
  | [] => None
  | line :: rest =>
      let trimmed := trim line in
      if (15 <? String.length trimmed)%nat
         && negb (bool_decide (trimmed = "---"))
         && negb (startsWith trimmed "http")
      then Some (if (50 <? String.length trimmed)%nat
                 then substring 0 50 trimmed ++ "..."
                 else trimmed)%string
      else firstMeaningful rest
  end.

(** The callback of [documents.slice(0, 5).map(...)]. *)
Definition sourceOf (doc : Document) (idx : nat) : string :=
  let metadata :=
    orElse (orElse (metadataTitle doc) (metadataSource doc)) (metadataName doc) in
  if PracticeMode.truthy metadata then default "" metadata
  else
    let text := default "" (document doc) in
    let lines :=
      List.filter (fun l => (0 <? String.length (trim l))%nat) (splitLines text) in
    match firstMeaningful lines with
    | Some label => label
    | None => ("Source " ++ Progress.decimal (Z.of_nat idx + 1))%string
    end.

Definition sourcesOf (documents : list Document) : list string :=
  imap (fun idx doc => sourceOf doc idx) (take 5 documents).

(** [Array.from(new Set(sources))]: a set keeps its elements in the order
    they were first added. *)
Definition uniqueOf (sources : list string) : list string :=
  fold_left (fun seen x => if bool_decide (x ∈ seen) then seen else seen ++ [x])
            sources [].

Definition sourcesDelimiter : string :=
  String newline (String newline ("___SOURCES___" ++ String newline EmptyString)).

(** [content] after the block that appends the sources. *)
Definition withSources (useRag : bool) (sources : list string) (content : string)
    : string :=
  if useRag && (0 <? length sources)%nat then
    let uniqueSources := uniqueOf sources in
    if (0 <? length uniqueSources)%nat then
      (content ++ sourcesDelimiter
       ++ JSON.stringify (JSON.Arr (List.map JSON.Str (take 5 uniqueSources))))%string
    else content
  else content.

End Route.

(** * The specification's wording, as definitions to compare the code with *)
Module Spec.
Import JSString PracticeMode.

(** "Contains one of the literal substrings practice, scenario, translate or
    transform", split in the two keyword groups. *)
Definition practiceType (lower : string) : Prop :=
  contains lower "practice" \/ contains lower "scenario".

Definition translateType (lower : string) : Prop :=
  contains lower "translate" \/ contains lower "transform".

(** The focus patterns as the specification words them: every component by
    its singular or plural form between word boundaries. *)
Definition wordPattern (singular : string) : list RegExp.atom :=
  RegExp.WordBoundary :: RegExp.lits singular ++ [RegExp.Opt "s"; RegExp.WordBoundary].

Definition focusPatterns : list (NVCComponent * list RegExp.atom) :=
  [ (observations, wordPattern "observation");
    (feelings, wordPattern "feeling");
    (needs, wordPattern "need");
    (requests, wordPattern "request") ].

Definition focusOf (lower : string) : option NVCComponent :=
  firstMatching focusPatterns lower.

(** "For every criterion field that is present, the record's corresponding
    field equals the criterion value exactly." *)
Definition passes (f : ScenarioFilter) (s : Scenario) : Prop :=
  (forall d, filterDifficulty f = Some d -> scenarioDifficulty s = difficultyName d)
  /\ (forall c, filterFocusComponent f = Some c -> focus_component s = c)
  /\ (forall m, filterConversationMode f = Some m -> scenarioMode s = conversationModeName m).

(** The same, for the criteria that are present and not the empty string. *)
Definition passesNonEmpty (f : ScenarioFilter) (s : Scenario) : Prop :=
  (forall d, filterDifficulty f = Some d -> scenarioDifficulty s = difficultyName d)
  /\ (forall c, filterFocusComponent f = Some c -> c <> "" -> focus_component s = c)
  /\ (forall m, filterConversationMode f = Some m -> scenarioMode s = conversationModeName m).

Definition noCriteria : ScenarioFilter :=
  {| filterDifficulty := None; filterFocusComponent := None;
     filterConversationMode := None |}.

(** The streak update in the specification's four cases: the streak and the
    last practice date after an attempt, from those before it, today's date
    and the date of the day before. *)
Definition streakAfter (today yesterday : string) (streak : Z) (last : option string)
    : Z * option string :=
  match last with
  | None => (1, Some today)
  | Some d =>
      if decide (d = today) then (streak, Some d)
      else if decide (d = yesterday) then (streak + 1, Some today)
      else (1, Some today)
  end.

(** "Every scenarioId in completedScenarios corresponds to at least one
    Attempt with completed = true and that scenarioId", and no id is listed
    twice. *)
Definition consistent (attempts : list Progress.PracticeAttempt)
    (completedScenarios : list string) : Prop :=
  (forall s, s ∈ completedScenarios ->
     exists a, a ∈ attempts /\ Progress.completed a = true /\ Progress.scenarioId a = s)
  /\ NoDup completedScenarios.

(** [num / den] rounded to the nearest integer, for [den > 0]: the integer
    [n] with [n <= num / den + 1/2 < n + 1], so that a tie goes up, as
    [Math.round] and the usual rounding of percentages have it. *)
Definition roundNearest (num den : Z) : Z := (2 * num + den) / (2 * den).

(** [num / den] lies half-way between two integers. *)
Definition isTie (num den : Z) : bool := ((2 * num) mod (2 * den) =? den)%Z.

(** "completedAttempts / totalAttempts * 100 rounded to the nearest integer,
    0 when totalAttempts = 0", in exact arithmetic. *)
Definition completionRate (completedAttempts totalAttempts : nat) : Z :=
  match totalAttempts with
  | O => 0
  | S _ => roundNearest (100 * Z.of_nat completedAttempts) (Z.of_nat totalAttempts)
  end.

(** The ratings that are present, in the order of the attempts. *)
Definition ratings (attempts : list Progress.PracticeAttempt) : list Z :=
  omap Progress.rating attempts.

(** "The mean of rating over the attempts whose rating is present, rounded
    to one decimal place, 0 when no rated attempt exists", in exact
    arithmetic: the number of tenths, so that the average is
    [averageRatingTenths rs / 10]. *)
Definition averageRatingTenths (rs : list Z) : Z :=
  match rs with
  | [] => 0
  | _ :: _ => roundNearest (10 * fold_right Z.add 0 rs) (Z.of_nat (length rs))
  end.

(** The number of attempts with [completed = true]. *)
Fixpoint countCompleted (attempts : list Progress.PracticeAttempt) : nat :=
  match attempts with
  | [] => O
  | a :: rest =>
      if Progress.completed a then S (countCompleted rest) else countCompleted rest
  end.

End Spec.

(** * Facts about the detector and the filter *)
Module PracticeModeFacts.
Import JSString PracticeMode.
#[local] Arguments String.append !_ _ / : simpl nomatch.

Lemma startsWith_spec (s k : string) :
  startsWith s k = true <-> exists post, s = k ++ post.
Proof.
  revert s. induction k as [|a k IH]; intros s.
  - destruct s; simpl; (split; [intros _; by eexists | done]).
  - destruct s as [|b s]; simpl.
    + split; [done | intros [post H]; discriminate].
    + destruct (decide (a = b)) as [->|Hne].
      * rewrite IH. split; intros [post H]; exists post; simpl in *; congruence.
      * split; [done | intros [post H]; simpl in H; congruence].
Qed.

Lemma includes_spec (s k : string) : includes s k = true <-> contains s k.
Proof.
  unfold contains. induction s as [|c s IH].
  - change (includes "" k) with (startsWith "" k || false).
    rewrite orb_false_r, startsWith_spec. split.
    + intros [post H]. by exists "", post.
    + intros (pre & post & H). destruct pre; simpl in H; [by exists post | discriminate].
  - change (includes (String c s) k) with (startsWith (String c s) k || includes s k).
    rewrite orb_true_iff, startsWith_spec, IH. split.
    + intros [[post H] | (pre & post & H)].
      * by exists "", post.
      * exists (String c pre), post. simpl. by rewrite H.
    + intros (pre & post & H). destruct pre as [|c' pre]; simpl in H.
      * left. by exists post.
      * right. exists pre, post. congruence.
Qed.

Lemma practiceKeywords_spec (lower : string) :
  someIncluded practiceKeywords lower = true <-> Spec.practiceType lower.
Proof.
  unfold someIncluded, practiceKeywords, Spec.practiceType. simpl.
  rewrite orb_false_r, orb_true_iff, !includes_spec. done.
Qed.

Lemma translateKeywords_spec (lower : string) :
  someIncluded translateKeywords lower = true <-> Spec.translateType lower.
Proof.
  unfold someIncluded, translateKeywords, Spec.translateType. simpl.
  rewrite orb_false_r, orb_true_iff, !includes_spec. done.
Qed.

(** C5. [detectPracticeMode] answers [isPracticeMode = true] exactly when the
    lower-cased message contains "practice", "scenario", "translate" or
    "transform"; the mode is [translate] as soon as a translate-type keyword
    occurs, also next to a practice-type one, and [practice] otherwise; and a
    negative answer carries no mode, focus component, difficulty or
    conversation mode. *)
Theorem detectPracticeMode_keywords (message : string) :
  let lower := toLowerCase message in
  let r := detectPracticeMode message in
  (isPracticeMode r = true <->
     contains lower "practice" \/ contains lower "scenario"
     \/ contains lower "translate" \/ contains lower "transform")
  /\ (Spec.translateType lower ->
        isPracticeMode r = true /\ mode r = Some translate)
  /\ (Spec.practiceType lower -> ~ Spec.translateType lower ->
        isPracticeMode r = true /\ mode r = Some practice)
  /\ (isPracticeMode r = false ->
        mode r = None /\ focusComponent r = None /\ difficulty r = None
        /\ conversationMode r = None).
Proof.
  intros lower r. subst r. unfold detectPracticeMode. fold lower.
  pose proof (practiceKeywords_spec lower) as HP.
  pose proof (translateKeywords_spec lower) as HT.
  unfold Spec.practiceType, Spec.translateType in *.
  destruct (someIncluded practiceKeywords lower) eqn:EP;
    destruct (someIncluded translateKeywords lower) eqn:ET; simpl;
    repeat split; try done; try tauto; intros; exfalso;
    try (assert (false = true) by tauto; discriminate); tauto.
Qed.

(** The loop over the patterns stops at the first entry that matches: the
    component it returns matches, no entry before it does, and it returns
    nothing exactly when no entry matches. *)
Lemma firstMatching_spec (entries : list (NVCComponent * list RegExp.atom)) (s : string) :
  match firstMatching entries s with
  | Some c =>
      exists before pattern after,
        entries = (before ++ (c, pattern) :: after)%list
        /\ RegExp.test pattern s = true
        /\ Forall (fun e => RegExp.test (snd e) s = false) before
  | None => Forall (fun e => RegExp.test (snd e) s = false) entries
  end.
Proof.
  induction entries as [|[c pattern] rest IH]; simpl; [constructor |].
  destruct (RegExp.test pattern s) eqn:E.
  - exists [], pattern, rest. repeat split; [done | constructor].
  - destruct (firstMatching rest s) as [c'|].
    + destruct IH as (before & pattern' & after & -> & Ht & Hb).
      exists ((c, pattern) :: before), pattern', after. repeat split; [done |].
      by constructor.
    + by constructor.
Qed.

(** C6. The fixed order, first match wins and at most one component hold of
    the code: [focusComponent] is the first entry of [componentPatterns] that
    matches the lower-cased message, and is unset when none does.  But the
    first pattern is [\bobservation], with no optional [s] and no closing
    boundary, unlike its three siblings: on "practice observational
    listening" the code selects [observations], where none of the four
    singular/plural word patterns of the specification matches. *)
Theorem detectPracticeMode_observation_prefix :
  (forall message,
     isPracticeMode (detectPracticeMode message) = true ->
     focusComponent (detectPracticeMode message)
     = firstMatching componentPatterns (toLowerCase message))
  /\ focusComponent (detectPracticeMode "practice observational listening")
     = Some observations
  /\ Spec.focusOf (toLowerCase "practice observational listening") = None.
Proof.
  split; [| split; vm_compute; reflexivity].
  intros message. unfold detectPracticeMode.
  by destruct (negb _).
Qed.

Lemma rejects_false_iff (crit : option string) (field : string) :
  rejects crit field = false <-> (forall c, crit = Some c -> c <> "" -> field = c).
Proof.
  destruct crit as [c|]; simpl.
  - rewrite andb_false_iff, !negb_false_iff, !bool_decide_eq_true. split.
    + intros [H | H] c' [= <-] Hne; [done | done].
    + intros H. destruct (decide (c = "")); [by left | right; by apply H].
  - split; [done | done].
Qed.

Lemma rejects_enum {A : Type} (name : A -> string) (o : option A) (field : string) :
  (forall a, name a <> "") ->
  rejects (name <$> o) field = false <-> (forall a, o = Some a -> field = name a).
Proof.
  intros Hname. rewrite rejects_false_iff. destruct o as [a|]; simpl.
  - split.
    + intros H a' [= <-]. apply H; [done | apply Hname].
    + intros H c [= <-] _. by apply H.
  - split; done.
Qed.

Lemma keeps_spec (f : ScenarioFilter) (s : Scenario) :
  keeps f s = true <-> Spec.passesNonEmpty f s.
Proof.
  unfold keeps, Spec.passesNonEmpty.
  pose proof (rejects_enum difficultyName (filterDifficulty f) (scenarioDifficulty s)) as H1.
  pose proof (rejects_false_iff (filterFocusComponent f) (focus_component s)) as H2.
  pose proof (rejects_enum conversationModeName (filterConversationMode f) (scenarioMode s)) as H3.
  assert (forall a, difficultyName a <> "") as Hd by (by intros []).
  assert (forall a, conversationModeName a <> "") as Hm by (by intros []).
  specialize (H1 Hd). specialize (H3 Hm).
  rewrite <- H1, <- H2, <- H3.
  destruct (rejects (difficultyName <$> filterDifficulty f) _);
    destruct (rejects (filterFocusComponent f) _);
    destruct (rejects (conversationModeName <$> filterConversationMode f) _);
    intuition congruence.
Qed.

#[local] Instance passesNonEmpty_dec (f : ScenarioFilter) (s : Scenario) :
  Decision (Spec.passesNonEmpty f s).
Proof.
  destruct (keeps f s) eqn:E.
  - left. by apply keeps_spec.
  - right. intros H. apply keeps_spec in H. congruence.
Defined.

(** C8, counterexample. With the criterion [focusComponent: ""] (present,
    and a [string] as its type asks) the code keeps a scenario whose
    [focus_component] is "feelings", although the two strings differ. *)
Lemma filterScenarios_empty_string_criterion :
  let s := {| title := "Intermediate Feelings"; scenarioDifficulty := "intermediate";
              focus_component := "feelings"; scenarioMode := "single" |} in
  let f := {| filterDifficulty := None; filterFocusComponent := Some "";
              filterConversationMode := None |} in
  filterScenarios [s] f = [s]
  /\ (Spec.passes f s -> False).
Proof.
  split; [reflexivity |].
  intros (_ & H & _). specialize (H "" eq_refl). discriminate.
Qed.

(** C8, amended. [filterScenarios] returns, in the input order, exactly the
    records that agree with every criterion that is present and is not the
    empty string; it keeps no other record, drops none of those, and with no
    criterion at all returns the input as it is. *)
Theorem filterScenarios_spec (scenarios : list Scenario) (f : ScenarioFilter) :
  filterScenarios scenarios f = base.filter (Spec.passesNonEmpty f) scenarios
  /\ sublist (filterScenarios scenarios f) scenarios
  /\ (forall s, s ∈ filterScenarios scenarios f <-> s ∈ scenarios /\ Spec.passesNonEmpty f s)
  /\ filterScenarios scenarios Spec.noCriteria = scenarios.
Proof.
  assert (filterScenarios scenarios f = base.filter (Spec.passesNonEmpty f) scenarios) as E.
  { unfold filterScenarios. induction scenarios as [|s l IH]; [done |].
    simpl. rewrite filter_cons. rewrite IH.
    destruct (keeps f s) eqn:K; destruct (decide (Spec.passesNonEmpty f s)) as [P|P];
      try done.
    - exfalso. apply P. by apply keeps_spec.
    - apply keeps_spec in P. congruence. }
  split; [exact E |]. split; [| split].
  - rewrite E. apply sublist_filter.
  - intros s. rewrite E, list_elem_of_filter. tauto.
  - clear E. unfold filterScenarios. induction scenarios as [|s l IH]; [done |].
    change (List.filter (keeps Spec.noCriteria) (s :: l))
      with (s :: List.filter (keeps Spec.noCriteria) l).
    by rewrite IH.
Qed.

End PracticeModeFacts.

(** * Facts about JSON.parse and JSON.stringify *)
Module JSONFacts.
Import JSON.
Local Open Scope list_scope.
Local Open Scope nat_scope.

(** What may follow a value inside a text: nothing, or the comma or closing
    bracket of the enclosing array or object. *)
Definition delimited (rest : list ascii) : bool :=
  match rest with
  | [] => true
  | c :: _ => bool_decide (c = chr 44) || bool_decide (c = chr 93)
              || bool_decide (c = chr 125)
  end.

Ltac each_char c := destruct c as [[] [] [] [] [] [] [] []].

Lemma delimited_cases (rest : list ascii) :
  delimited rest = true ->
  rest = [] \/ exists c t, rest = c :: t /\ (c = chr 44 \/ c = chr 93 \/ c = chr 125).
Proof.
  destruct rest as [|c t]; [by left |]. simpl.
  rewrite !orb_true_iff, !bool_decide_eq_true. intros H. right. exists c, t. tauto.
Qed.

Lemma scanDigits_stop (rest : list ascii) :
  delimited rest = true -> scanDigits rest = (Decimal.Nil, rest).
Proof.
  intros [-> | (c & t & -> & [-> | [-> | ->]])]%delimited_cases; reflexivity.
Qed.

Lemma scanDigits_digitChars (u : Decimal.uint) (rest : list ascii) :
  delimited rest = true -> scanDigits (digitChars u ++ rest) = (u, rest).
Proof.
  intros H. induction u; simpl; [by apply scanDigits_stop | ..];
    rewrite IHu; reflexivity.
Qed.

Lemma intPartOk_to_uint (n : N) : intPartOk (N.to_uint n) = true.
Proof.
  assert (N.to_uint n = Decimal.unorm (N.to_uint n)) as ->.
  { rewrite <- DecimalN.Unsigned.to_of. by rewrite DecimalN.Unsigned.of_to. }
  unfold Decimal.unorm.
  pose proof (DecimalFacts.nzhead_nonzero (N.to_uint n)) as Hnz.
  destruct (Decimal.nzhead (N.to_uint n)) as [|u|u|u|u|u|u|u|u|u|u]; try reflexivity.
  exfalso. by eapply Hnz.
Qed.

Lemma continuesNumber_delimited (rest : list ascii) :
  delimited rest = true -> continuesNumber rest = false.
Proof.
  intros [-> | (c & t & -> & [-> | [-> | ->]])]%delimited_cases; reflexivity.
Qed.

Lemma scanUnsigned_digits (n : N) (rest : list ascii) :
  delimited rest = true ->
  scanUnsigned (digitChars (N.to_uint n) ++ rest) = Ok (n, rest).
Proof.
  intros H. unfold scanUnsigned.
  rewrite scanDigits_digitChars, intPartOk_to_uint, continuesNumber_delimited by done.
  by rewrite DecimalN.Unsigned.of_to.
Qed.

(** The first character of a printed natural number is a digit. *)
Lemma digitChars_head (n : N) :
  exists c t, digitChars (N.to_uint n) = c :: t /\ digitOf c <> None.
Proof.
  pose proof (intPartOk_to_uint n) as H.
  destruct (N.to_uint n); simpl in *; try discriminate; eauto.
Qed.

Lemma digit_not_minus (c : ascii) : digitOf c <> None -> c <> chr 45.
Proof. intros H ->. by apply H. Qed.

Lemma scanNumber_printNumber (n : Z) (rest : list ascii) :
  delimited rest = true -> scanNumber (printNumber n ++ rest) = Ok (n, rest).
Proof.
  intros H. unfold printNumber. destruct (n <? 0)%Z eqn:E.
  - simpl. rewrite scanUnsigned_digits by done. simpl. f_equal. f_equal. lia.
  - simpl. destruct (digitChars_head (Z.abs_N n)) as (c & t & Hd & Hc).
    pose proof (scanUnsigned_digits (Z.abs_N n) rest H) as HS.
    rewrite Hd in *. simpl. rewrite bool_decide_eq_false_2 by by apply digit_not_minus.
    simpl in HS. rewrite HS. simpl. f_equal. f_equal. lia.
Qed.

Lemma scanString_escape (c : ascii) (t : list ascii) :
  scanString (escapeChar c ++ t) = cons_result c (scanString t).
Proof. each_char c; reflexivity. Qed.

Lemma scanString_escapeChars (cs rest : list ascii) :
  scanString (escapeChars cs ++ quoteChar :: rest) = Ok (cs, rest).
Proof.
  induction cs as [|c cs IH]; [reflexivity |].
  simpl. rewrite <- app_assoc, scanString_escape, IH. reflexivity.
Qed.

Lemma value_ind (P : value -> Prop) :
  P Null -> (forall b, P (Bool b)) -> (forall n, P (Num n)) -> (forall s, P (Str s)) ->
  (forall items, Forall P items -> P (Arr items)) ->
  (forall members, Forall (fun kv => P (snd kv)) members -> P (Obj members)) ->
  forall v, P v.
Proof.
  intros HNull HBool HNum HStr HArr HObj. fix IH 1. intros [| b | n | s | items | members].
  - exact HNull.
  - apply HBool.
  - apply HNum.
  - apply HStr.
  - apply HArr.
    exact ((fix go (l : list value) : Forall P l :=
              match l with
              | [] => List.Forall_nil P
              | x :: t => @List.Forall_cons _ P x t (IH x) (go t)
              end) items).
  - apply HObj.
    exact ((fix go (l : list (string * value)) : Forall (fun kv => P (snd kv)) l :=
              match l with
              | [] => List.Forall_nil _
              | kv :: t => @List.Forall_cons _ _ kv t (IH (snd kv)) (go t)
              end) members).
Qed.

(** The values [parse] can return: no object lists a name twice or has an
    integer-like name. *)
#[local] Unset Elimination Schemes.
Inductive wf : value -> Prop :=
| wf_Null : wf Null
| wf_Bool (b : bool) : wf (Bool b)
| wf_Num (n : Z) : wf (Num n)
| wf_Str (s : string) : wf (Str s)
| wf_Arr (items : list value) : Forall wf items -> wf (Arr items)
| wf_Obj (members : list (string * value)) :
    NoDup (List.map fst members) ->
    Forall (fun kv => integerLike (fst kv) = false /\ wf (snd kv)) members ->
    wf (Obj members).
#[local] Set Elimination Schemes.

(** Fuel that suffices to parse the printed value. *)
Fixpoint need (v : value) : nat :=
  match v with
  | Arr items => S (length items + list_sum (List.map need items))
  | Obj members => S (length members + list_sum (List.map (fun kv => need (snd kv)) members))
  | _ => 1
  end.

(** What a printed value starts with: not white space, not a closing
    bracket. *)
Definition opensValue (c : ascii) : bool :=
  negb (isWs c) && negb (bool_decide (c = chr 93)) && negb (bool_decide (c = chr 125)).

Lemma print_head (v : value) : exists c t, print v = c :: t /\ opensValue c = true.
Proof.
  destruct v as [| [] | n | s | items | members]; simpl; eauto.
  unfold printNumber. destruct (n <? 0)%Z; simpl; [eauto |].
  destruct (digitChars_head (Z.abs_N n)) as (c & t & -> & Hc).
  exists c, t. split; [done |]. revert Hc. clear. each_char c; try reflexivity; intros H; by exfalso.
Qed.

Lemma parseValue_number (fuel : nat) (c : ascii) (t : list ascii) :
  c = chr 45 \/ digitOf c <> None ->
  parseValue (S fuel) (c :: t) = '(n, r) ← scanNumber (c :: t); Ok (Num n, r).
Proof.
  intros H. each_char c; try reflexivity; exfalso; destruct H as [H | H];
    solve [discriminate | by apply H].
Qed.

Lemma defineAll_nodup (members acc : list (string * value)) :
  NoDup (List.map fst (acc ++ members)) ->
  fold_left (fun acc kv => setProp (fst kv) (snd kv) acc) members acc = acc ++ members.
Proof.
  revert acc. induction members as [|[k v] l IH]; intros acc H; simpl.
  - by rewrite app_nil_r.
  - assert (setProp k v acc = acc ++ [(k, v)]) as ->.
    { clear IH. induction acc as [|[k' v'] acc IHacc]; [done |]. simpl in *.
      apply NoDup_cons in H as [Hk' H].
      destruct (decide (k' = k)) as [->|Hne].
      - exfalso. apply Hk'. rewrite map_app. apply list_elem_of_In, in_or_app. right. by left.
      - by rewrite IHacc. }
    rewrite IH; rewrite <- app_assoc; done.
Qed.

Lemma bind_Ok {A B : Type} (a : A) (k : A -> result B) : Ok a ≫= k = k a.
Proof. reflexivity. Qed.

Lemma skipWs_opens (c : ascii) (t : list ascii) :
  isWs c = false -> skipWs (c :: t) = c :: t.
Proof. intros H. simpl. by rewrite H. Qed.

Definition Roundtrip (v : value) : Prop :=
  wf v -> forall fuel rest, need v <= fuel -> delimited rest = true ->
  parseValue fuel (print v ++ rest) = Ok (v, rest).

Lemma parseElements_print (items : list value) :
  items <> [] -> Forall Roundtrip items -> Forall wf items ->
  forall fuel rest, length items + list_sum (List.map need items) <= fuel ->
  parseElements fuel (joinComma (List.map print items) ++ chr 93 :: rest) = Ok (items, rest).
Proof.
  induction items as [|x l IH]; [done |]. intros _ HR HW fuel rest Hfuel.
  apply Forall_cons in HR as [Hx HR]. apply Forall_cons in HW as [Wx HW].
  simpl in Hfuel. destruct fuel as [|f]; [lia |].
  change (parseElements (S f) ?s) with
    ('(v, r) ← parseValue f s;
     match skipWs r with
     | c :: t =>
         if bool_decide (c = chr 44) then
           '(items, r') ← parseElements f t; Ok (v :: items, r')
         else if bool_decide (c = chr 93) then Ok ([v], t)
         else SyntaxError
     | [] => SyntaxError
     end).
  destruct l as [|y l'].
  - change (joinComma (List.map print [x])) with (print x).
    rewrite (Hx Wx) by (done || lia). reflexivity.
  - change (joinComma (List.map print (x :: y :: l')))
      with (print x ++ chr 44 :: joinComma (List.map print (y :: l'))).
    rewrite <- app_assoc. rewrite (Hx Wx) by (done || lia).
    rewrite <- app_comm_cons, bind_Ok. cbv beta iota.
    rewrite skipWs_opens by done.
    rewrite bool_decide_eq_true_2 by done.
    rewrite IH; [reflexivity | done | done | done | simpl in *; lia].
Qed.

Definition printMember (kv : string * value) : list ascii :=
  printString (fst kv) ++ chr 58 :: print (snd kv).

Lemma parseMembers_step (f : nat) (k : string) (v : value) (tail : list ascii) :
  parseValue f (print v ++ tail) = Ok (v, tail) ->
  parseMembers (S f) (printMember (k, v) ++ tail) =
  match skipWs tail with
  | c :: r3 =>
      if bool_decide (c = chr 44) then
        '(members, r4) ← parseMembers f r3; Ok ((k, v) :: members, r4)
      else if bool_decide (c = chr 125) then Ok ([(k, v)], r3)
      else SyntaxError
  | [] => SyntaxError
  end.
Proof.
  intros Hv.
  assert (printMember (k, v) ++ tail =
          quoteChar :: escapeChars (list_ascii_of_string k)
            ++ quoteChar :: chr 58 :: print v ++ tail) as ->.
  { unfold printMember, printString. simpl. by rewrite <- !app_assoc. }
  change (parseMembers (S f) (quoteChar :: ?t)) with
    ('(cs, r) ← scanString t;
     match skipWs r with
     | colon :: r1 =>
         if bool_decide (colon = chr 58) then
           '(v, r2) ← parseValue f r1;
           match skipWs r2 with
           | c :: r3 =>
               if bool_decide (c = chr 44) then
                 '(members, r4) ← parseMembers f r3;
                 Ok ((string_of_list_ascii cs, v) :: members, r4)
               else if bool_decide (c = chr 125)
               then Ok ([(string_of_list_ascii cs, v)], r3)
               else SyntaxError
           | [] => SyntaxError
           end
         else SyntaxError
     | [] => SyntaxError
     end).
  rewrite scanString_escapeChars, bind_Ok. cbv beta iota.
  rewrite skipWs_opens by done. rewrite bool_decide_eq_true_2 by done.
  rewrite Hv, bind_Ok. cbv beta iota.
  by rewrite string_of_list_ascii_of_string.
Qed.

Lemma parseMembers_print (members : list (string * value)) :
  members <> [] ->
  Forall (fun kv => Roundtrip (snd kv)) members ->
  Forall (fun kv => wf (snd kv)) members ->
  forall fuel rest,
    length members + list_sum (List.map (fun kv => need (snd kv)) members) <= fuel ->
    parseMembers fuel (joinComma (List.map printMember members) ++ chr 125 :: rest)
    = Ok (members, rest).
Proof.
  induction members as [|[k v] l IH]; [done |]. intros _ HR HW fuel rest Hfuel.
  apply Forall_cons in HR as [Hx HR]. apply Forall_cons in HW as [Wx HW].
  simpl in Hx, Wx, Hfuel. destruct fuel as [|f]; [lia |].
  destruct l as [|y l'].
  - change (joinComma (List.map printMember [(k, v)])) with (printMember (k, v)).
    rewrite parseMembers_step by (apply (Hx Wx); (done || lia)). reflexivity.
  - change (joinComma (List.map printMember ((k, v) :: y :: l')))
      with (printMember (k, v) ++ chr 44 :: joinComma (List.map printMember (y :: l'))).
    rewrite <- app_assoc, <- app_comm_cons.
    rewrite parseMembers_step by (apply (Hx Wx); (done || lia)).
    rewrite skipWs_opens by done. rewrite bool_decide_eq_true_2 by done.
    rewrite IH; [reflexivity | done | done | done | simpl in *; lia].
Qed.

(** Parsing what [print] wrote gives the value back and stops where the
    printed text ends. *)
Lemma parseValue_print (v : value) : Roundtrip v.
Proof.
  induction v as [| b | n | s | items IH | members IH] using value_ind;
    intros W fuel rest Hfuel Hrest; (destruct fuel as [|f]; [simpl in Hfuel; lia |]).
  - reflexivity.
  - destruct b; reflexivity.
  - change (print (Num n)) with (printNumber n).
    pose proof (scanNumber_printNumber n rest Hrest) as HS.
    assert (exists c t, printNumber n ++ rest = c :: t /\ (c = chr 45 \/ digitOf c <> None))
      as (c & t & E & Hc).
    { unfold printNumber. destruct (n <? 0)%Z; simpl; [eauto |].
      destruct (digitChars_head (Z.abs_N n)) as (c & t & -> & Hc). simpl. eauto. }
    rewrite E in *. rewrite parseValue_number by done. by rewrite HS.
  - change (print (Str s) ++ rest)
      with (quoteChar :: (escapeChars (list_ascii_of_string s) ++ [quoteChar]) ++ rest).
    rewrite <- app_assoc.
    change (parseValue (S f) (quoteChar :: ?t)) with
      ('(cs, r) ← scanString t; Ok (Str (string_of_list_ascii cs), r)).
    change ([quoteChar] ++ rest) with (quoteChar :: rest).
    rewrite scanString_escapeChars, bind_Ok. cbv beta iota.
    by rewrite string_of_list_ascii_of_string.
  - inversion W as [| | | | items' HW |]; subst.
    change (print (Arr items) ++ rest)
      with (chr 91 :: (joinComma (List.map print items) ++ [chr 93]) ++ rest).
    rewrite <- app_assoc. change ([chr 93] ++ rest) with (chr 93 :: rest).
    change (parseValue (S f) (chr 91 :: ?t)) with
      (match skipWs t with
       | c' :: t' =>
           if bool_decide (c' = chr 93) then Ok (Arr [], t')
           else '(items, r) ← parseElements f t; Ok (Arr items, r)
       | [] => SyntaxError
       end).
    destruct items as [|x l]; [reflexivity |].
    rewrite parseElements_print by (done || (simpl in *; lia)).
    destruct (print_head x) as (c & t & Hx & Hc).
    assert (exists t', joinComma (List.map print (x :: l)) ++ chr 93 :: rest = c :: t')
      as [t' ->].
    { destruct l; simpl; rewrite Hx; simpl; eauto. }
    unfold opensValue in Hc. apply andb_true_iff in Hc as [[Hws H93]%andb_true_iff _].
    rewrite skipWs_opens by by apply negb_true_iff.
    apply negb_true_iff in H93. rewrite H93. reflexivity.
  - inversion W as [| | | | | members' ND HW]; subst.
    change (print (Obj members) ++ rest)
      with (chr 123 :: (joinComma (List.map printMember members) ++ [chr 125]) ++ rest).
    rewrite <- app_assoc. change ([chr 125] ++ rest) with (chr 125 :: rest).
    change (parseValue (S f) (chr 123 :: ?t)) with
      (match skipWs t with
       | c' :: t' =>
           if bool_decide (c' = chr 125) then Ok (Obj [], t')
           else '(members, r) ← parseMembers f t;
                if existsb (fun kv => integerLike (fst kv)) members
                then OutsideModel
                else Ok (Obj (defineAll members), r)
       | [] => SyntaxError
       end).
    destruct members as [|[k x] l]; [reflexivity |].
    rewrite parseMembers_print; [| done | done | | simpl in *; lia].
    2:{ eapply Forall_impl; [exact HW |]. by intros ? [_ ?]. }
    assert (exists t', joinComma (List.map printMember ((k, x) :: l)) ++ chr 125 :: rest
                       = quoteChar :: t') as [t' ->].
    { destruct l; simpl; eauto. }
    rewrite skipWs_opens by done. rewrite bool_decide_eq_false_2 by done.
    rewrite bind_Ok. cbv beta iota.
    assert (existsb (fun kv => integerLike (fst kv)) ((k, x) :: l) = false) as ->.
    { apply not_true_is_false. intros (kv & Hin & Hk)%existsb_exists.
      rewrite Forall_forall in HW. apply list_elem_of_In in Hin.
      destruct (HW kv Hin) as [Hf _]. congruence. }
    unfold defineAll. rewrite defineAll_nodup by done. reflexivity.
Qed.

Lemma joinComma_length (parts : list (list ascii)) :
  length parts + list_sum (List.map (@length ascii) parts) <= S (length (joinComma parts)).
Proof.
  induction parts as [|p l IH]; simpl; [lia |].
  destruct l as [|q l']; simpl in *; [lia |].
  rewrite length_app. simpl. lia.
Qed.

Lemma list_sum_le {A : Type} (f g : A -> nat) (l : list A) :
  Forall (fun x => f x <= g x) l ->
  list_sum (List.map f l) <= list_sum (List.map g l).
Proof. induction 1; simpl; lia. Qed.

Lemma need_le_length (v : value) : need v <= length (print v).
Proof.
  induction v as [| b | n | s | items IH | members IH] using value_ind.
  - simpl. lia.
  - destruct b; simpl; lia.
  - destruct (print_head (Num n)) as (c & t & -> & _). simpl. lia.
  - simpl. lia.
  - change (print (Arr items)) with (chr 91 :: joinComma (List.map print items) ++ [chr 93]).
    simpl. rewrite length_app. simpl.
    pose proof (joinComma_length (List.map print items)) as HJ.
    rewrite length_map, map_map in HJ.
    pose proof (list_sum_le need (fun x => length (print x)) items IH). lia.
  - change (print (Obj members))
      with (chr 123 :: joinComma (List.map printMember members) ++ [chr 125]).
    simpl. rewrite length_app. simpl.
    pose proof (joinComma_length (List.map printMember members)) as HJ.
    rewrite length_map, map_map in HJ.
    assert (Forall (fun kv => need (snd kv) <= length (printMember kv)) members) as IH'.
    { eapply Forall_impl; [exact IH |]. intros [k x] H. unfold printMember. simpl in *.
      rewrite length_app. simpl. lia. }
    pose proof (list_sum_le (fun kv => need (snd kv)) (fun kv => length (printMember kv))
                  members IH'). lia.
Qed.

(** [JSON.parse(JSON.stringify(v))] is [v]. *)
Lemma parse_stringify (v : value) : wf v -> parse (stringify v) = Ok v.
Proof.
  intros W. unfold parse, stringify. rewrite list_ascii_of_string_of_list_ascii.
  pose proof (parseValue_print v W (S (length (print v))) []) as H.
  rewrite app_nil_r in H. rewrite H; [reflexivity | | done].
  pose proof (need_le_length v). lia.
Qed.

End JSONFacts.

(** * Facts about the progress tracker *)
Module ProgressFacts.
Import JSON JSONFacts Progress.
Local Open Scope list_scope.

Lemma wf_encodeAttempt (a : PracticeAttempt) : wf (encodeAttempt a).
Proof.
  unfold encodeAttempt.
  destruct (focusComponent a), (difficulty a), (rating a); simpl;
    (constructor; [ apply (bool_decide_unpack _); vm_compute; exact I
                  | repeat (constructor; [split; [reflexivity | constructor] |]); constructor ]).
Qed.

Lemma wf_encodeData (r : ProgressRecord) : wf (encodeData r).
Proof.
  unfold encodeData. constructor.
  - apply (bool_decide_unpack _). vm_compute. exact I.
  - repeat (constructor; [split; [reflexivity |] |]); try constructor.
    + apply List.Forall_forall. intros v (a & <- & _)%in_map_iff. apply wf_encodeAttempt.
    + apply List.Forall_forall. intros v (a & <- & _)%in_map_iff. constructor.
    + destruct (r_lastPracticeDate r); constructor.
Qed.

Lemma decodeAttempt_encodeAttempt (a : PracticeAttempt) :
  decodeAttempt (encodeAttempt a) = Some a.
Proof.
  destruct a as [i s t m fc df rt c].
  destruct m, fc as [[]|], df as [[]|], rt; reflexivity.
Qed.

Lemma mapM_section {A B : Type} (f : B -> option A) (g : A -> B) (l : list A) :
  (forall x, f (g x) = Some x) -> mapM f (List.map g l) = Some l.
Proof.
  intros H. induction l as [|a l IH]; [done |].
  simpl. rewrite H. simpl. by rewrite IH.
Qed.

Lemma member_same (k : string) (v : value) : member k (k, v) = Some v.
Proof. unfold member. simpl. by rewrite decide_True. Qed.

Lemma decodeData_encodeData (r : ProgressRecord) : decodeData (encodeData r) = Some r.
Proof.
  destruct r as [e atts done n d t]. unfold encodeData, decodeData, recordOfMembers.
  rewrite !member_same. simpl.
  rewrite (mapM_section decodeAttempt encodeAttempt) by apply decodeAttempt_encodeAttempt.
  simpl. rewrite (mapM_section asStr Str) by done.
  destruct d; reflexivity.
Qed.


Lemma member_Some (k : string) (m : string * value) (v : value) :
  member k m = Some v -> m = (k, v).
Proof. unfold member. destruct m as [k' v']. simpl. case_decide; naive_solver. Qed.

Lemma asStr_Some (v : value) (s : string) : asStr v = Some s -> v = Str s.
Proof. destruct v; naive_solver. Qed.

Lemma asNum_Some (v : value) (n : Z) : asNum v = Some n -> v = Num n.
Proof. destruct v; naive_solver. Qed.

Lemma asBool_Some (v : value) (b : bool) : asBool v = Some b -> v = Bool b.
Proof. destruct v; naive_solver. Qed.

Lemma asArr_Some (v : value) (items : list value) : asArr v = Some items -> v = Arr items.
Proof. destruct v; naive_solver. Qed.

Lemma modeOfName_Some (s : string) (m : PracticeMode.PracticeModeType) :
  modeOfName s = Some m -> PracticeMode.modeName m = s.
Proof. unfold modeOfName. repeat case_decide; naive_solver. Qed.

Lemma componentOfName_Some (s : string) (c : PracticeMode.NVCComponent) :
  componentOfName s = Some c -> PracticeMode.componentName c = s.
Proof. unfold componentOfName. repeat case_decide; naive_solver. Qed.

Lemma difficultyOfName_Some (s : string) (d : PracticeMode.Difficulty) :
  difficultyOfName s = Some d -> PracticeMode.difficultyName d = s.
Proof. unfold difficultyOfName. repeat case_decide; naive_solver. Qed.

Lemma takeOptional_Some {A : Type} (k : string) (f : value -> option A) (g : A -> value)
    (members rest : list (string * value)) (o : option A) :
  (forall v a, f v = Some a -> g a = v) ->
  takeOptional k f members = Some (o, rest) ->
  members = optionalMember k g o ++ rest.
Proof.
  intros Hfg. unfold takeOptional. destruct members as [|[k' v] l].
  - by intros [= <- <-].
  - simpl. case_decide as Hk.
    + destruct (f v) as [a|] eqn:E; simpl; [| done]. intros [= <- <-].
      simpl. by rewrite (Hfg v a E), Hk.
    + by intros [= <- <-].
Qed.

Lemma mapM_retraction {A B : Type} (f : B -> option A) (g : A -> B) (l : list B)
    (k : list A) :
  (forall x y, f x = Some y -> g y = x) -> mapM f l = Some k -> List.map g k = l.
Proof.
  intros Hfg H. apply mapM_Some in H. induction H as [|x y l k Hxy _ IH]; [done |].
  simpl. by rewrite (Hfg x y Hxy), IH.
Qed.

Lemma encodeAttempt_decodeAttempt (v : value) (a : PracticeAttempt) :
  decodeAttempt v = Some a -> encodeAttempt a = v.
Proof.
  destruct v as [| | | | |members]; try done.
  destruct members as [|m1 [|m2 [|m3 [|m4 [|m5 rest]]]]]; try done.
  unfold decodeAttempt, attemptOfMembers. intros H.
  apply bind_Some in H as (i & Hi & H). apply bind_Some in Hi as (vi & Hm1 & Hi).
  apply bind_Some in H as (t & Ht & H). apply bind_Some in Ht as (vt & Hm2 & Ht).
  apply bind_Some in H as (s & Hs & H). apply bind_Some in Hs as (vs & Hm3 & Hs).
  apply bind_Some in H as (m & Hm & H). apply bind_Some in Hm as (sm & Hm4 & Hm).
  apply bind_Some in Hm4 as (vm & Hm4 & Hsm).
  apply bind_Some in H as (c & Hc & H). apply bind_Some in Hc as (vc & Hm5 & Hc).
  apply bind_Some in H as ([fc rest1] & Hfc & H).
  apply bind_Some in H as ([df rest2] & Hdf & H).
  apply bind_Some in H as ([rt rest3] & Hrt & H).
  destruct rest3; [| done]. injection H as <-.
  apply member_Some in Hm1 as ->, Hm2 as ->, Hm3 as ->, Hm4 as ->, Hm5 as ->.
  apply asStr_Some in Hi as ->, Hs as ->, Hsm as ->.
  apply asNum_Some in Ht as ->. apply asBool_Some in Hc as ->.
  apply modeOfName_Some in Hm as <-.
  apply (takeOptional_Some _ _ (fun c => Str (PracticeMode.componentName c))) in Hfc as ->.
  2:{ intros v a (s' & ->%asStr_Some & <-%componentOfName_Some)%bind_Some. done. }
  apply (takeOptional_Some _ _ (fun d => Str (PracticeMode.difficultyName d))) in Hdf as ->.
  2:{ intros v a (s' & ->%asStr_Some & <-%difficultyOfName_Some)%bind_Some. done. }
  apply (takeOptional_Some _ _ Num) in Hrt as ->.
  2:{ intros v a ->%asNum_Some. done. }
  unfold encodeAttempt. simpl. by rewrite app_nil_r.
Qed.

Lemma encodeData_decodeData (v : value) (r : ProgressRecord) :
  decodeData v = Some r -> encodeData r = v.
Proof.
  destruct v as [| | | | |members]; try done.
  destruct members as [|m1 [|m2 [|m3 [|m4 [|m5 [|m6 [|]]]]]]]; try done.
  unfold decodeData, recordOfMembers. intros H.
  apply bind_Some in H as (e & He & H). apply bind_Some in He as (ve & Hm1 & He).
  apply bind_Some in H as (atts & Ha & H). apply bind_Some in Ha as (items & Hm2 & Ha).
  apply bind_Some in Hm2 as (va & Hm2 & Hva).
  apply bind_Some in H as (done & Hd & H). apply bind_Some in Hd as (ids & Hm3 & Hd).
  apply bind_Some in Hm3 as (vd & Hm3 & Hvd).
  apply bind_Some in H as (n & Hn & H). apply bind_Some in Hn as (vn & Hm4 & Hn).
  apply bind_Some in H as (date & Hdate & H). apply bind_Some in Hdate as (vdate & Hm5 & Hdate).
  apply bind_Some in H as (t & Ht & H). apply bind_Some in Ht as (vt & Hm6 & Ht).
  injection H as <-.
  apply member_Some in Hm1 as ->, Hm2 as ->, Hm3 as ->, Hm4 as ->, Hm5 as ->, Hm6 as ->.
  apply asBool_Some in He as ->. apply asArr_Some in Hva as ->, Hvd as ->.
  apply asNum_Some in Hn as ->, Ht as ->.
  apply (mapM_retraction _ encodeAttempt) in Ha; [| apply encodeAttempt_decodeAttempt].
  apply (mapM_retraction _ Str) in Hd; [| by intros x y ->%asStr_Some].
  unfold encodeData. simpl. rewrite Ha, Hd.
  by destruct vdate; simplify_eq/=.
Qed.

(** The record read from a parsed value serialises to that value: a tracker
    holds, and exports, exactly what it imported. *)
Lemma toJSON_ofJSON (d : Defaults) (v : value) : toJSON d (ofJSON v) = v.
Proof.
  unfold ofJSON. destruct (decodeData v) as [r|] eqn:E; [| done].
  simpl. replace (snapshot d (fresh r)) with r by (by destruct r).
  by apply encodeData_decodeData.
Qed.

(** A host and an input to run the theorems on. *)
Definition sampleHost : Host :=
  {| dateNow := 1769644800000; randomDigits := "k3j9x1q2z";
     todayISO := "2026-01-29"; yesterdayISO := "2026-01-28" |}.

Definition sampleInput : RecordAttemptInput :=
  {| input_scenarioId := "scenario-123"; input_mode := PracticeMode.practice;
     input_completed := true; input_focusComponent := None;
     input_difficulty := None; input_rating := Some 4 |}.

(** A tracker just created over an empty [localStorage]. *)
Definition newState : State :=
  {| defaults := initialDefaults; data := Shaped spreadDefault; localStorage := Some ∅ |}.

(** The state a call returned. *)
Definition returned (c : completion State) : State :=
  match c with
  | Returns st => st
  | NotModelled => newState
  end.

Definition enabledState : State :=
  {| defaults := initialDefaults; data := Shaped (setEnabled spreadDefault true);
     localStorage := Some ∅ |}.

Lemma updateStreak_spec (h : Host) (p : ProgressData) :
  (streakDays (updateStreak h p), lastPracticeDate (updateStreak h p))
  = Spec.streakAfter (todayISO h) (yesterdayISO h) (streakDays p) (lastPracticeDate p).
Proof.
  unfold updateStreak, Spec.streakAfter, isToday, isYesterday, getToday.
  destruct (lastPracticeDate p) as [d|] eqn:E; [| reflexivity].
  destruct (decide (d = todayISO h)) as [->|Hne].
  - rewrite bool_decide_eq_true_2 by done. by rewrite E.
  - rewrite bool_decide_eq_false_2 by done.
    destruct (decide (d = yesterdayISO h)) as [->|Hne'].
    + rewrite bool_decide_eq_true_2 by done. reflexivity.
    + rewrite bool_decide_eq_false_2 by done. reflexivity.
Qed.

Lemma updateStreak_arrays (h : Host) (p : ProgressData) :
  attempts (updateStreak h p) = attempts p
  /\ completedScenarios (updateStreak h p) = completedScenarios p
  /\ enabled (updateStreak h p) = enabled p.
Proof.
  unfold updateStreak. destruct (lastPracticeDate p); [| done].
  destruct (isToday h s); [done |]. by destruct (isYesterday h s).
Qed.

Lemma pushAttempt_fields (a : PracticeAttempt) (d : Defaults) (p : ProgressData) :
  streakDays (pushAttempt a d p).2 = streakDays p
  /\ lastPracticeDate (pushAttempt a d p).2 = lastPracticeDate p
  /\ enabled (pushAttempt a d p).2 = enabled p.
Proof. unfold pushAttempt. by destruct (attempts p). Qed.

Lemma pushCompleted_fields (s : string) (d : Defaults) (p : ProgressData) :
  streakDays (pushCompleted s d p).2 = streakDays p
  /\ lastPracticeDate (pushCompleted s d p).2 = lastPracticeDate p
  /\ enabled (pushCompleted s d p).2 = enabled p.
Proof. unfold pushCompleted. by destruct (completedScenarios p). Qed.

Lemma saveData_data (st : State) :
  data (saveData st) = data st /\ defaults (saveData st) = defaults st.
Proof. unfold saveData. by destruct (localStorage st). Qed.

(** What [recordAttempt] leaves in [data] when tracking is enabled. *)
Lemma recordAttempt_enabled (h : Host) (input : RecordAttemptInput) (st : State)
    (p : ProgressData) :
  data st = Shaped p -> enabled p = true ->
  exists st' p2,
    recordAttempt h input st = Returns st'
    /\ data st' = Shaped (updateStreak h p2)
    /\ streakDays p2 = streakDays p
    /\ lastPracticeDate p2 = lastPracticeDate p.
Proof.
  intros Hd He. unfold recordAttempt, onShaped. rewrite Hd, He. simpl.
  destruct (pushAttempt (newAttempt h input) (defaults st) p) as [d1 p1] eqn:E1.
  pose proof (pushAttempt_fields (newAttempt h input) (defaults st) p) as (F1 & F2 & _).
  rewrite E1 in F1, F2. simpl in F1, F2.
  destruct (input_completed input
            && negb (listIncludes (completedItems d1 p1) (input_scenarioId input))).
  - destruct (pushCompleted (input_scenarioId input) d1 p1) as [d2 p2] eqn:E2.
    pose proof (pushCompleted_fields (input_scenarioId input) d1 p1) as (G1 & G2 & _).
    rewrite E2 in G1, G2. simpl in G1, G2.
    eexists _, p2. split; [reflexivity |]. split; [apply saveData_data |]. split; congruence.
  - eexists _, p1. split; [reflexivity |]. split; [apply saveData_data |]. split; congruence.
Qed.

(** C2. With tracking disabled, [recordAttempt] returns without raising and
    leaves the whole state as it was: the attempts, the completed scenarios,
    the streak, the last practice date, the arrays of the default record and
    what [localStorage] holds; [getAttempts], in particular, answers as
    before. *)
Theorem recordAttempt_disabled (h : Host) (input : RecordAttemptInput) (st : State)
    (p : ProgressData) :
  data st = Shaped p -> enabled p = false ->
  recordAttempt h input st = Returns st
  /\ (forall st', recordAttempt h input st = Returns st' ->
        getAttempts st' = getAttempts st
        /\ getCompletedScenarios st' = getCompletedScenarios st
        /\ getStreak st' = getStreak st
        /\ data st' = data st /\ defaults st' = defaults st
        /\ localStorage st' = localStorage st).
Proof.
  intros Hd He.
  assert (recordAttempt h input st = Returns st) as E.
  { unfold recordAttempt, onShaped. by rewrite Hd, He. }
  split; [exact E |]. intros st' H. rewrite E in H. by injection H as <-.
Qed.

Lemma recordAttempt_disabled_witness :
  recordAttempt sampleHost sampleInput newState = Returns newState
  /\ getAttempts newState = Returns [].
Proof.
  split; [| reflexivity].
  exact (proj1 (recordAttempt_disabled sampleHost sampleInput newState spreadDefault
                  eq_refl eq_refl)).
Defined.

(** C4. The only parse [importData] performs is [JSON.parse]; when it fails
    on the text (a [SyntaxError], which the source catches), [importData]
    returns without raising and the tracker is as it was: every field of
    [data], the arrays of the default record and [localStorage]. *)
Theorem importData_syntax_error (json : string) (st : State) :
  JSON.parse json = SyntaxError -> importData json st = Returns st.
Proof. intros H. unfold importData. by rewrite H. Qed.

Lemma importData_syntax_error_witness :
  importData "not valid json" enabledState = Returns enabledState.
Proof. apply importData_syntax_error. vm_compute. reflexivity. Defined.

(** C10. Every text that parses is imported, whatever it encodes: "null" and
    "42" are not Progress Records, yet after [importData] the tracker's
    [data] is the parsed value [null], respectively [42], and that value is
    what [localStorage] now holds; for every text that [JSON.parse] accepts,
    [data] becomes the parsed value, uninspected, and is saved; only a
    [SyntaxError] of [JSON.parse] leaves the state alone. *)
Theorem importData_replaces_with_any_json (st : State) :
  decodeData Null = None /\ decodeData (Num 42) = None
  /\ (exists st', importData "null" st = Returns st'
        /\ data st' = Foreign Null
        /\ localStorage st' = (insert STORAGE_KEY "null") <$> localStorage st
        /\ exportData st' = "null")
  /\ (exists st', importData "42" st = Returns st'
        /\ data st' = Foreign (Num 42)
        /\ localStorage st' = (insert STORAGE_KEY "42") <$> localStorage st
        /\ exportData st' = "42")
  /\ (forall json v,
        JSON.parse json = Ok v ->
        exists st', importData json st = Returns st'
          /\ toJSON (defaults st') (data st') = v
          /\ localStorage st' = (insert STORAGE_KEY (stringify v)) <$> localStorage st
          /\ exportData st' = stringify v)
  /\ (forall json, JSON.parse json = SyntaxError -> importData json st = Returns st).
Proof.
  split; [reflexivity |]. split; [reflexivity |]. split; [| split; [| split]].
  - eexists. split; [reflexivity |].
    unfold saveData. simpl. destruct (localStorage st); simpl; auto.
  - eexists. split; [reflexivity |].
    unfold saveData. simpl. destruct (localStorage st); simpl; auto.
  - intros json v HP. unfold importData. rewrite HP. eexists. split; [reflexivity |].
    unfold exportData, saveData. simpl.
    destruct (localStorage st); simpl; rewrite toJSON_ofJSON; auto.
  - intros json HP. unfold importData. by rewrite HP.
Qed.

(** C3. Importing the serialisation of a Progress Record and exporting again
    gives the record back: [importData] returns, [data] then reads as the
    same enabled flag, the same attempts in the same order, the same
    completed scenarios, streak, last practice date and total practice time,
    and [exportData] is the text that was imported, which parses to the
    record. *)
Theorem import_export_roundtrip (r : ProgressRecord) (st : State) :
  exists st' p',
    importData (serialize r) st = Returns st'
    /\ data st' = Shaped p'
    /\ snapshot (defaults st') p' = r
    /\ exportData st' = serialize r
    /\ (JSON.parse (exportData st') ≫= fun v =>
          match decodeData v with Some r' => Ok r' | None => SyntaxError end) = Ok r.
Proof.
  assert (JSON.parse (serialize r) = Ok (encodeData r)) as HP.
  { apply parse_stringify, wf_encodeData. }
  assert (snapshot (defaults st) (fresh r) = r) as HS by (by destruct r).
  assert (exportData (saveData {| defaults := defaults st; data := Shaped (fresh r);
                                  localStorage := localStorage st |}) = serialize r) as HE.
  { unfold exportData. destruct (saveData_data {| defaults := defaults st;
      data := Shaped (fresh r); localStorage := localStorage st |}) as [-> ->].
    simpl. by rewrite HS. }
  eexists _, (fresh r). unfold importData. rewrite HP.
  unfold ofJSON. rewrite decodeData_encodeData.
  split; [reflexivity |]. split; [apply saveData_data |].
  split; [by destruct (saveData_data {| defaults := defaults st;
      data := Shaped (fresh r); localStorage := localStorage st |}) as [_ ->] |].
  split; [exact HE |].
  rewrite HE, HP, bind_Ok. by rewrite decodeData_encodeData.
Qed.

(** ** The completed-scenarios invariant *)

Definition defaultsOk (d : Defaults) : Prop :=
  Spec.consistent (defaultAttempts d) (defaultCompletedScenarios d).

(** The two array properties of [data] are both the arrays of the default
    record or both its own, as [{ ...DEFAULT_PROGRESS_DATA }] and
    [JSON.parse] leave them. *)
Definition paired (p : ProgressData) : Prop :=
  match attempts p, completedScenarios p with
  | OfDefault, OfDefault => True
  | Own _, Own _ => True
  | _, _ => False
  end.

Definition invariant (st : State) : Prop :=
  defaultsOk (defaults st)
  /\ match data st with
     | Shaped p =>
         paired p
         /\ Spec.consistent (attemptItems (defaults st) p) (completedItems (defaults st) p)
     | Foreign _ => True
     end.

(** The states a tracker goes through when it is created over a store
    without a saved record and [importData] is never called. *)
Inductive reachable : State -> Prop :=
| reachable_created (storage : option (gmap string string)) (st : State) :
    storage ≫= (fun store => store !! STORAGE_KEY) = None ->
    createProgressTracker initialDefaults storage = Returns st ->
    reachable st
| reachable_enable (st st' : State) :
    reachable st -> enable st = Returns st' -> reachable st'
| reachable_disable (options : option DisableOptions) (st st' : State) :
    reachable st -> disable options st = Returns st' -> reachable st'
| reachable_recordAttempt (h : Host) (input : RecordAttemptInput) (st st' : State) :
    reachable st -> recordAttempt h input st = Returns st' -> reachable st'.

Lemma listIncludes_spec (l : list string) (x : string) :
  listIncludes l x = true <-> x ∈ l.
Proof.
  unfold listIncludes. rewrite existsb_exists. split.
  - intros (y & Hin & Hy). apply bool_decide_eq_true in Hy as ->. by apply list_elem_of_In.
  - intros Hin. exists x. split; [by apply list_elem_of_In | by apply bool_decide_eq_true].
Qed.

Lemma consistent_push_attempt (atts : list PracticeAttempt) (done : list string)
    (a : PracticeAttempt) :
  Spec.consistent atts done -> Spec.consistent (atts ++ [a]) done.
Proof.
  intros [H ND]. split; [| done]. intros s Hs.
  destruct (H s Hs) as (b & Hb & Hc). exists b. split; [| done].
  apply elem_of_app. by left.
Qed.

Lemma consistent_push_completed (atts : list PracticeAttempt) (done : list string)
    (a : PracticeAttempt) :
  Spec.consistent (atts ++ [a]) done -> completed a = true -> scenarioId a ∉ done ->
  Spec.consistent (atts ++ [a]) (done ++ [scenarioId a]).
Proof.
  intros [H ND] Hc Hn. split.
  - intros s [Hs | Hs]%elem_of_app; [by apply H |].
    apply list_elem_of_singleton in Hs as ->. exists a. split; [| done].
    apply elem_of_app. right. by apply list_elem_of_singleton.
  - apply NoDup_app. split; [done |]. split; [| apply NoDup_singleton].
    intros s Hs ->%list_elem_of_singleton. done.
Qed.

Lemma invariant_saveData (st : State) : invariant st -> invariant (saveData st).
Proof.
  unfold invariant. by destruct (saveData_data st) as [-> ->].
Qed.

Lemma invariant_created (d : Defaults) (storage : option (gmap string string)) :
  defaultsOk d -> storage ≫= (fun store => store !! STORAGE_KEY) = None ->
  exists st, createProgressTracker d storage = Returns st /\ invariant st.
Proof.
  intros Hd Hs. unfold createProgressTracker, loadData.
  destruct storage as [store|]; simpl in Hs; [rewrite Hs |];
    (eexists; split; [reflexivity |]; split; [done | split; [exact I | exact Hd]]).
Qed.

Lemma invariant_enable (st st' : State) :
  invariant st -> enable st = Returns st' -> invariant st'.
Proof.
  unfold enable, onShaped. intros [Hd Hp] H.
  destruct (data st) as [p|] eqn:E; [| done]. injection H as <-.
  apply invariant_saveData. split; [done |]. exact Hp.
Qed.

Lemma invariant_disable (options : option DisableOptions) (st st' : State) :
  invariant st -> disable options st = Returns st' -> invariant st'.
Proof.
  unfold disable, onShaped. intros [Hd Hp] H.
  destruct (data st) as [p|] eqn:E; [| done]. injection H as <-.
  apply invariant_saveData. split; [done |]. simpl.
  destruct (options ≫= clearData) as [[]|]; [| exact Hp | exact Hp].
  split; [exact I | exact Hd].
Qed.

Lemma invariant_recordAttempt (h : Host) (input : RecordAttemptInput) (st st' : State) :
  invariant st -> recordAttempt h input st = Returns st' -> invariant st'.
Proof.
  unfold recordAttempt, onShaped. intros [Hd Hp] H.
  destruct (data st) as [p|] eqn:E; [| done]. injection H as <-.
  destruct (enabled p); simpl; [| by (split; [| rewrite E])].
  destruct Hp as [Hpair Hc]. unfold paired in Hpair.
  set (a := newAttempt h input).
  assert (input_completed input = completed a) as Ec by done.
  assert (input_scenarioId input = scenarioId a) as Es by done.
  rewrite Ec, Es. clearbody a. clear Ec Es.
  unfold pushAttempt, attemptItems, completedItems in *.
  destruct (attempts p) as [|atts] eqn:EA, (completedScenarios p) as [|done] eqn:EC;
    try (exfalso; exact Hpair); simpl; rewrite ?EA, ?EC; simpl.
  - (* both arrays are those of the default record *)
    destruct (completed a && negb (listIncludes (defaultCompletedScenarios (defaults st))
                                                (scenarioId a))) eqn:Eadd.
    + unfold pushCompleted. rewrite EC. simpl. apply invariant_saveData.
      apply andb_true_iff in Eadd as [Hca Hni]. apply negb_true_iff in Hni.
      assert (Spec.consistent (defaultAttempts (defaults st) ++ [a])
                (defaultCompletedScenarios (defaults st) ++ [scenarioId a])) as HC.
      { apply consistent_push_completed; [by apply consistent_push_attempt | done |].
        rewrite <- listIncludes_spec. by rewrite Hni. }
      destruct (updateStreak_arrays h p) as (UA & UC & _).
      split; [exact HC |]. simpl. unfold paired, attemptItems, completedItems.
      rewrite UA, UC, EA, EC. simpl. by split.
    + apply invariant_saveData.
      assert (Spec.consistent (defaultAttempts (defaults st) ++ [a])
                (defaultCompletedScenarios (defaults st))) as HC
        by by apply consistent_push_attempt.
      destruct (updateStreak_arrays h p) as (UA & UC & _).
      split; [exact HC |]. simpl. unfold paired, attemptItems, completedItems.
      rewrite UA, UC, EA, EC. simpl. by split.
  - (* both arrays are the object's own *)
    destruct (completed a && negb (listIncludes done (scenarioId a))) eqn:Eadd.
    + unfold pushCompleted. simpl. apply invariant_saveData.
      apply andb_true_iff in Eadd as [Hca Hni]. apply negb_true_iff in Hni.
      split; [exact Hd |]. simpl.
      match goal with |- context [updateStreak h ?q] =>
        destruct (updateStreak_arrays h q) as (UA & UC & _) end.
      unfold paired, attemptItems, completedItems. rewrite UA, UC. simpl.
      split; [exact I |].
      apply consistent_push_completed; [by apply consistent_push_attempt | done |].
      rewrite <- listIncludes_spec. by rewrite Hni.
    + apply invariant_saveData. split; [exact Hd |]. simpl.
      match goal with |- context [updateStreak h ?q] =>
        destruct (updateStreak_arrays h q) as (UA & UC & _) end.
      unfold paired, attemptItems, completedItems. rewrite UA, UC. simpl.
      split; [exact I |]. by apply consistent_push_attempt.
Qed.

Lemma reachable_invariant (st : State) : reachable st -> invariant st.
Proof.
  induction 1 as [storage st Hs Hc | st st' _ IH He | o st st' _ IH Hd | h i st st' _ IH Hr].
  - destruct (invariant_created initialDefaults storage) as (st0 & E & Hinv);
      [| done | congruence].
    split; [by intros s Hs'%elem_of_nil | constructor].
  - by eapply invariant_enable.
  - by eapply invariant_disable.
  - by eapply invariant_recordAttempt.
Qed.

(** What [recordAttempt] does to the completed scenarios. *)
Lemma recordAttempt_completed (h : Host) (input : RecordAttemptInput) (st st' : State)
    (p : ProgressData) :
  data st = Shaped p -> paired p -> recordAttempt h input st = Returns st' ->
  getCompletedScenarios st' =
  Returns (if enabled p && input_completed input
              && negb (listIncludes (completedItems (defaults st) p) (input_scenarioId input))
           then completedItems (defaults st) p ++ [input_scenarioId input]
           else completedItems (defaults st) p).
Proof.
  intros E Hpair H. unfold recordAttempt, onShaped in H. rewrite E in H. injection H as <-.
  unfold getCompletedScenarios, onShaped.
  destruct (enabled p); simpl; [| by rewrite E].
  unfold paired in Hpair. unfold pushAttempt, pushCompleted, completedItems.
  destruct (attempts p) as [|atts] eqn:EA, (completedScenarios p) as [|done] eqn:EC;
    try (exfalso; exact Hpair); simpl; rewrite ?EC; simpl.
  - destruct (input_completed input && _); simpl;
      match goal with |- context [saveData ?s] =>
        destruct (saveData_data s) as [-> ->] end; simpl;
      destruct (updateStreak_arrays h p) as (_ & -> & _); by rewrite EC.
  - destruct (input_completed input && _); simpl;
      match goal with |- context [saveData ?s] =>
        destruct (saveData_data s) as [-> ->] end; simpl;
      match goal with |- context [updateStreak h ?q] =>
        destruct (updateStreak_arrays h q) as (_ & -> & _) end; done.
Qed.

(** A text written with apostrophes where JSON has double quotes. *)
Fixpoint withQuotes (s : string) : string :=
  match s with
  | EmptyString => EmptyString
  | String c t =>
      String (if decide (c = ascii_of_N 39) then ascii_of_N 34 else c) (withQuotes t)
  end.

Definition importedWithoutAttempt : string :=
  withQuotes
    "{'enabled':true,'attempts':[],'completedScenarios':['scenario-1'],'streakDays':5,'lastPracticeDate':'2026-01-28','totalPracticeTime':3600}".

(** C9, counterexample. [importData] is a ledger operation, the new tracker
    satisfies the invariant, and after importing a record whose
    [completedScenarios] names "scenario-1" and whose [attempts] is empty
    the tracker lists "scenario-1" as completed with no attempt at all. *)
Lemma importData_breaks_invariant :
  reachable newState /\ invariant newState
  /\ exists st,
       importData importedWithoutAttempt newState = Returns st
       /\ getCompletedScenarios st = Returns ["scenario-1"]
       /\ getAttempts st = Returns []
       /\ (invariant st -> False).
Proof.
  assert (reachable newState) as HR.
  { by apply (reachable_created (Some ∅)). }
  split; [exact HR |]. split; [by apply reachable_invariant |].
  eexists. split; [vm_compute; reflexivity |]. split; [reflexivity |].
  split; [reflexivity |].
  intros [_ [_ [H _]]]. simpl in H.
  destruct (H "scenario-1") as (a & Ha & _); [by apply list_elem_of_singleton |].
  by apply elem_of_nil in Ha.
Qed.

(** C9, amended. A tracker created over a store without a saved record
    satisfies the invariant (every completed scenario has an attempt with
    [completed = true] and that [scenarioId], and no scenario is listed
    twice); [enable], [disable] and [recordAttempt] preserve it, so it holds
    in every state reached without [importData]; [recordAttempt] adds the
    [scenarioId] exactly when tracking is enabled, the attempt is completed
    and the id is not yet listed; and after [importData] of a serialised
    record the invariant holds exactly when that record satisfies it. *)
Theorem completedScenarios_invariant :
  (forall d storage,
     defaultsOk d -> storage ≫= (fun store => store !! STORAGE_KEY) = None ->
     exists st, createProgressTracker d storage = Returns st /\ invariant st)
  /\ (forall st st', invariant st -> enable st = Returns st' -> invariant st')
  /\ (forall options st st',
        invariant st -> disable options st = Returns st' -> invariant st')
  /\ (forall h input st st',
        invariant st -> recordAttempt h input st = Returns st' -> invariant st')
  /\ (forall st, reachable st -> invariant st)
  /\ (forall h input st st' p,
        data st = Shaped p -> paired p -> recordAttempt h input st = Returns st' ->
        getCompletedScenarios st' =
        Returns (if enabled p && input_completed input
                    && negb (listIncludes (completedItems (defaults st) p)
                                          (input_scenarioId input))
                 then completedItems (defaults st) p ++ [input_scenarioId input]
                 else completedItems (defaults st) p))
  /\ (forall r st,
        invariant st ->
        exists st', importData (serialize r) st = Returns st'
          /\ (invariant st' <-> Spec.consistent (r_attempts r) (r_completedScenarios r))).
Proof.
  split; [exact invariant_created |].
  split; [exact invariant_enable |].
  split; [exact invariant_disable |].
  split; [exact invariant_recordAttempt |].
  split; [exact reachable_invariant |].
  split; [exact recordAttempt_completed |].
  intros r st [Hd _].
  destruct (import_export_roundtrip r st) as (st' & p' & HI & HD & HS & _).
  exists st'. split; [exact HI |].
  unfold importData, serialize in HI.
  rewrite (parse_stringify _ (wf_encodeData r)) in HI. unfold ofJSON in HI.
  rewrite decodeData_encodeData in HI. injection HI as <-.
  unfold invariant. destruct (saveData_data {| defaults := defaults st;
    data := Shaped (fresh r); localStorage := localStorage st |}) as [-> ->]. simpl.
  unfold paired, attemptItems, completedItems. simpl. tauto.
Qed.

(** ** Statistics *)

Lemma filter_completed_length (all : list PracticeAttempt) :
  length (List.filter completed all) = Spec.countCompleted all.
Proof.
  induction all as [|a l IH]; [done |]. simpl. destruct (completed a); simpl; by rewrite IH.
Qed.

Lemma filter_rated_length (all : list PracticeAttempt) :
  length (List.filter hasRating all) = length (Spec.ratings all).
Proof.
  unfold Spec.ratings. induction all as [|a l IH]; [done |].
  simpl. destruct (hasRating a) eqn:H; unfold hasRating in H;
    destruct (rating a); try discriminate; simpl; by rewrite IH.
Qed.

Lemma sumRatings_ratings (all : list PracticeAttempt) (acc : float) :
  fold_left (fun sum a => PrimFloat.add sum (JSMath.ofZ (default 0 (rating a))))
            (List.filter hasRating all) acc
  = fold_left (fun sum r => PrimFloat.add sum (JSMath.ofZ r)) (Spec.ratings all) acc.
Proof.
  unfold Spec.ratings. revert acc. induction all as [|a l IH]; intros acc; [done |].
  simpl. destruct (hasRating a) eqn:H; unfold hasRating in H;
    destruct (rating a) as [r|] eqn:E; try discriminate; simpl; [rewrite E |]; apply IH.
Qed.

(** The two quotients of [getStats] as functions of the counts they are
    computed from. *)
Definition rateOfCounts (completedCount total : nat) : float :=
  match total with
  | O => 0%float
  | S _ =>
      JSMath.round
        (PrimFloat.mul
           (PrimFloat.div (JSMath.ofZ (Z.of_nat completedCount))
                          (JSMath.ofZ (Z.of_nat total)))
           (JSMath.ofZ 100))
  end.

Definition averageOfSum (sum : float) (rated : nat) : float :=
  match rated with
  | O => 0%float
  | S _ =>
      PrimFloat.div
        (JSMath.round
           (PrimFloat.mul (PrimFloat.div sum (JSMath.ofZ (Z.of_nat rated)))
                          (JSMath.ofZ 10)))
        (JSMath.ofZ 10)
  end.

Lemma statsOf_completionRate (all : list PracticeAttempt) (streak : Z) :
  completionRate (statsOf all streak)
  = rateOfCounts (Spec.countCompleted all) (length all).
Proof.
  unfold statsOf, rateOfCounts. cbn [completionRate].
  rewrite filter_completed_length.
  destruct (length all) as [|n] eqn:E; [reflexivity |].
  assert ((0 <? Z.of_nat (S n))%Z = true) as -> by (apply Z.ltb_lt; lia).
  reflexivity.
Qed.

Lemma statsOf_averageRating (all : list PracticeAttempt) (streak : Z) :
  averageRating (statsOf all streak)
  = averageOfSum
      (fold_left (fun sum r => PrimFloat.add sum (JSMath.ofZ r)) (Spec.ratings all) 0%float)
      (length (Spec.ratings all)).
Proof.
  unfold statsOf, averageOfSum, sumRatings. cbn [averageRating].
  rewrite sumRatings_ratings, filter_rated_length.
  destruct (Spec.ratings all) as [|r rs] eqn:E; [reflexivity |].
  assert ((0 <? Z.of_nat (length (r :: rs)))%Z = true) as ->
    by (apply Z.ltb_lt; simpl; lia).
  reflexivity.
Qed.

(** [nearestInteger] is the rounding the specification of [Math.round]
    asks for: [n <= v + 1/2 < n + 1] for the value [v = ±m * 2^e]. *)
Lemma nearestInteger_spec (neg : bool) (m : positive) (e : Z) :
  (e < 0)%Z ->
  let v := if neg then Z.neg m else Z.pos m in
  let n := JSMath.nearestInteger neg m e in
  (2 * 2 ^ (- e) * n <= 2 * v + 2 ^ (- e) < 2 * 2 ^ (- e) * (n + 1))%Z.
Proof.
  intros He v n. subst v n. unfold JSMath.nearestInteger.
  assert (0 < 2 ^ (- e))%Z as Hs by (apply Z.pow_pos_nonneg; lia).
  set (s := (2 ^ (- e))%Z) in *. clearbody s.
  destruct neg.
  - pose proof (Z.div_mod (2 * Z.pos m + s - 1) (2 * s) ltac:(lia)) as HD.
    pose proof (Z.mod_pos_bound (2 * Z.pos m + s - 1) (2 * s) ltac:(lia)) as HM.
    change (Z.neg m) with (- Z.pos m)%Z. nia.
  - pose proof (Z.div_mod (2 * Z.pos m + s) (2 * s) ltac:(lia)) as HD.
    pose proof (Z.mod_pos_bound (2 * Z.pos m + s) (2 * s) ltac:(lia)) as HM.
    nia.
Qed.

(** [Spec.roundNearest] is the rounding it says it is. *)
Lemma roundNearest_spec (num den : Z) :
  (0 < den)%Z ->
  let n := Spec.roundNearest num den in
  (2 * den * n <= 2 * num + den < 2 * den * (n + 1))%Z.
Proof.
  intros Hd n. subst n. unfold Spec.roundNearest.
  pose proof (Z.div_mod (2 * num + den) (2 * den) ltac:(lia)) as HD.
  pose proof (Z.mod_pos_bound (2 * num + den) (2 * den) ltac:(lia)) as HM.
  nia.
Qed.

(** *** The completion rate against the exact rounding, by evaluation *)

(** The rate computed from the counts is the exactly rounded percentage, or
    one less than it where the exact percentage is a tie. *)
Definition rateAgrees (completed total : nat) : bool :=
  match JSMath.integerOf (rateOfCounts completed total) with
  | Some n =>
      (n =? Spec.completionRate completed total)%Z
      || (Spec.isTie (100 * Z.of_nat completed) (Z.of_nat total)
          && (n =? Spec.completionRate completed total - 1)%Z)
  | None => false
  end.

Definition ratesAgree (bound : nat) : bool :=
  forallb (fun total => forallb (fun c => rateAgrees c total) (seq 0 (S total)))
          (seq 0 (S bound)).

Lemma ratesAgree_200 : ratesAgree 200 = true.
Proof. vm_cast_no_check (eq_refl true). Qed.

Lemma ratesAgree_spec (bound completed total : nat) :
  ratesAgree bound = true -> (completed <= total)%nat -> (total <= bound)%nat ->
  rateAgrees completed total = true.
Proof.
  unfold ratesAgree. intros H Hc Ht.
  rewrite forallb_forall in H. specialize (H total).
  rewrite forallb_forall in H. apply H; apply in_seq; lia.
Qed.

Lemma completionRate_agrees (completed total : nat) :
  (completed <= total)%nat -> (total <= 200)%nat ->
  exists n : Z,
    JSMath.integerOf (rateOfCounts completed total) = Some n
    /\ (n = Spec.completionRate completed total
        \/ (Spec.isTie (100 * Z.of_nat completed) (Z.of_nat total) = true
            /\ n = (Spec.completionRate completed total - 1)%Z)).
Proof.
  intros Hc Ht.
  pose proof (ratesAgree_spec 200 completed total ratesAgree_200 Hc Ht) as HR.
  unfold rateAgrees in HR.
  destruct (JSMath.integerOf (rateOfCounts completed total)) as [n|]; [| done].
  exists n. split; [done |].
  apply orb_true_iff in HR as [HR | [HT HR]%andb_true_iff].
  - left. by apply Z.eqb_eq.
  - right. split; [done |]. by apply Z.eqb_eq.
Qed.

Lemma countCompleted_le (all : list PracticeAttempt) :
  (Spec.countCompleted all <= length all)%nat.
Proof. induction all as [|a l IH]; simpl; [lia |]. destruct (completed a); lia. Qed.

(** *** The average rating against the exact rounding, by evaluation *)

(** A rating on the scale from 1 to 5, the scale of the repository's
    examples. *)
Definition inScale (r : Z) : Prop := (1 <= r <= 5)%Z.

(** Adding a rating to a sum of at most 200 ratings is exact. *)
Definition sumsExact (bound : Z) : bool :=
  forallb (fun acc =>
             forallb (fun r =>
                        PrimFloat.Leibniz.eqb
                          (PrimFloat.add (JSMath.ofZ (Z.of_nat acc)) (JSMath.ofZ (Z.of_nat r)))
                          (JSMath.ofZ (Z.of_nat acc + Z.of_nat r)))
                     (seq 1 5))
          (seq 0 (S (Z.to_nat bound))).

Lemma sumsExact_1000 : sumsExact 1000 = true.
Proof. vm_cast_no_check (eq_refl true). Qed.

Lemma sumsExact_spec (bound acc r : Z) :
  sumsExact bound = true -> (0 <= acc <= bound)%Z -> inScale r ->
  PrimFloat.add (JSMath.ofZ acc) (JSMath.ofZ r) = JSMath.ofZ (acc + r).
Proof.
  unfold sumsExact, inScale. intros H Ha Hr.
  rewrite forallb_forall in H. specialize (H (Z.to_nat acc)).
  rewrite forallb_forall in H. specialize (H ltac:(apply in_seq; lia) (Z.to_nat r)).
  specialize (H ltac:(apply in_seq; lia)).
  apply FloatAxioms.Leibniz.eqb_spec in H. by rewrite !Z2Nat.id in H by lia.
Qed.

Lemma add_rating_exact (acc r : Z) :
  (0 <= acc <= 1000)%Z -> inScale r ->
  PrimFloat.add (JSMath.ofZ acc) (JSMath.ofZ r) = JSMath.ofZ (acc + r).
Proof. apply sumsExact_spec, sumsExact_1000. Qed.

Lemma sum_in_scale (rs : list Z) :
  Forall inScale rs ->
  (Z.of_nat (length rs) <= fold_right Z.add 0 rs <= 5 * Z.of_nat (length rs))%Z.
Proof.
  induction 1 as [|r rs Hr _ IH]; [simpl; lia |].
  unfold inScale in Hr. cbn [fold_right length]. lia.
Qed.

Lemma sum_ratings_exact (rs : list Z) (acc : Z) :
  Forall inScale rs -> (0 <= acc)%Z -> (acc + 5 * Z.of_nat (length rs) <= 1005)%Z ->
  fold_left (fun sum r => PrimFloat.add sum (JSMath.ofZ r)) rs (JSMath.ofZ acc)
  = JSMath.ofZ (acc + fold_right Z.add 0 rs).
Proof.
  intros HF. revert acc. induction HF as [|r rs Hr HF IH]; intros acc Ha Hb.
  - simpl. by rewrite Z.add_0_r.
  - cbn [fold_left fold_right length] in *.
    pose proof (sum_in_scale rs HF) as HS. unfold inScale in Hr.
    rewrite add_rating_exact by (done || lia).
    rewrite IH by lia. f_equal. lia.
Qed.

(** The average computed from an exact sum and a count differs from the
    exactly rounded number of tenths, divided by ten, by at most 2^-50. *)
Definition averageAgrees (sum : Z) (rated : nat) : bool :=
  match JSMath.fractionOf (averageOfSum (JSMath.ofZ sum) rated) with
  | Some (num, den) =>
      (0 <? den)%Z
      && (Z.abs (10 * num - Spec.roundNearest (10 * sum) (Z.of_nat rated) * den) * 2 ^ 50
          <=? 10 * den)%Z
  | None => false
  end.

Definition averagesAgree (bound : nat) : bool :=
  forallb (fun rated =>
             forallb (fun extra => averageAgrees (Z.of_nat rated + Z.of_nat extra) rated)
                     (seq 0 (S (4 * rated))))
          (seq 1 bound).

Lemma averagesAgree_200 : averagesAgree 200 = true.
Proof. vm_cast_no_check (eq_refl true). Qed.

Lemma averagesAgree_spec (bound : nat) (sum : Z) (rated : nat) :
  averagesAgree bound = true -> (1 <= rated <= bound)%nat ->
  (Z.of_nat rated <= sum <= 5 * Z.of_nat rated)%Z ->
  averageAgrees sum rated = true.
Proof.
  unfold averagesAgree. intros H Hr Hs.
  rewrite forallb_forall in H. specialize (H rated ltac:(apply in_seq; lia)).
  rewrite forallb_forall in H.
  specialize (H (Z.to_nat (sum - Z.of_nat rated)) ltac:(apply in_seq; lia)).
  rewrite Z2Nat.id in H by lia.
  by replace (Z.of_nat rated + (sum - Z.of_nat rated))%Z with sum in H by lia.
Qed.

Lemma averageRating_agrees (rs : list Z) :
  Forall inScale rs -> (length rs <= 200)%nat ->
  exists num den,
    JSMath.fractionOf
      (averageOfSum (fold_left (fun sum r => PrimFloat.add sum (JSMath.ofZ r)) rs 0%float)
                    (length rs))
    = Some (num, den)
    /\ (0 < den)%Z
    /\ (Z.abs (10 * num - Spec.averageRatingTenths rs * den) * 2 ^ 50 <= 10 * den)%Z.
Proof.
  intros HF HL. destruct rs as [|r rs'] eqn:E.
  { exists 0%Z, 1%Z. split; [reflexivity |]. split; [lia | simpl; lia]. }
  rewrite <- E in *. assert (1 <= length rs)%nat as HL1 by (rewrite E; simpl; lia).
  change 0%float with (JSMath.ofZ 0).
  rewrite sum_ratings_exact by (done || lia). rewrite Z.add_0_l.
  pose proof (sum_in_scale rs HF) as HS.
  pose proof (averagesAgree_spec 200 _ (length rs) averagesAgree_200 ltac:(lia) HS) as HA.
  unfold averageAgrees in HA.
  destruct (JSMath.fractionOf _) as [[num den]|]; [| done].
  apply andb_true_iff in HA as [H1 H2]. exists num, den. split; [done |].
  split; [by apply Z.ltb_lt |].
  apply Z.leb_le in H2. unfold Spec.averageRatingTenths. by rewrite E, <- E.
Qed.

(** C7. [getStats] returns the counts, 0 for both quotients when there is
    nothing to divide by, 75 for 3 completed attempts out of 4 and 4.0 for
    the ratings 4, 5, 3.  But [completionRate] is [Math.round] of the
    binary64 product [(completed / total) * 100], not of the exact
    percentage: up to 200 attempts it is the exactly rounded percentage
    except at some exact ties, where it is one less; with 23 completed
    attempts out of 40 the exact percentage is 57.5, which rounds to 58, and
    the code answers 57.  The average rating has no such flaw where it was
    evaluated: for up to 200 ratings from 1 to 5 it is the exactly rounded
    number of tenths divided by ten, up to the representation of that
    number as a double. *)
Theorem getStats_rates (d : Defaults) (p : ProgressData)
    (store : option (gmap string string)) :
  let st := {| defaults := d; data := Shaped p; localStorage := store |} in
  let all := attemptItems d p in
  let completedCount := Spec.countCompleted all in
  let rs := Spec.ratings all in
  exists s,
    getStats st = Returns s
    /\ totalAttempts s = Z.of_nat (length all)
    /\ completedAttempts s = Z.of_nat completedCount
    /\ (length all = 0%nat -> completionRate s = 0%float)
    /\ (rs = [] -> averageRating s = 0%float)
    /\ ((length all <= 200)%nat ->
          exists n : Z,
            JSMath.integerOf (completionRate s) = Some n
            /\ (n = Spec.completionRate completedCount (length all)
                \/ (Spec.isTie (100 * Z.of_nat completedCount) (Z.of_nat (length all)) = true
                    /\ n = (Spec.completionRate completedCount (length all) - 1)%Z)))
    /\ ((length rs <= 200)%nat -> Forall inScale rs ->
          exists num den : Z,
            JSMath.fractionOf (averageRating s) = Some (num, den)
            /\ (0 < den)%Z
            /\ (Z.abs (10 * num - Spec.averageRatingTenths rs * den) * 2 ^ 50
                <= 10 * den)%Z)
    /\ (length all = 4%nat -> completedCount = 3%nat ->
          completionRate s = 75%float /\ Spec.completionRate 3 4 = 75%Z)
    /\ (rs = [4; 5; 3]%Z ->
          averageRating s = 4%float /\ Spec.averageRatingTenths [4; 5; 3]%Z = 40%Z)
    /\ (length all = 40%nat -> completedCount = 23%nat ->
          completionRate s = 57%float /\ Spec.completionRate 23 40 = 58%Z).
Proof.
  intros st all cnt rs. exists (statsOf all (streakDays p)).
  split; [reflexivity |]. split; [reflexivity |].
  split; [by (cbn [completedAttempts statsOf]; rewrite filter_completed_length) |].
  rewrite statsOf_completionRate, statsOf_averageRating. fold cnt rs.
  split; [by intros -> |]. split; [by intros -> |].
  split; [intros Hb; apply completionRate_agrees; [apply countCompleted_le | done] |].
  split; [intros Hb HF; by apply averageRating_agrees |].
  split; [intros -> ->; split; [vm_compute |]; reflexivity |].
  split; [intros ->; split; [vm_compute |]; reflexivity |].
  intros -> ->. split; [vm_compute |]; reflexivity.
Qed.

(** ** [disable({ clearData: true })] and the shared arrays *)

(** X1. After [disable({ clearData: true })] the tracker's [data] is a new copy
    of the default record, whose [attempts] and [completedScenarios] are the
    arrays of [DEFAULT_PROGRESS_DATA] themselves: [getAttempts] answers with
    whatever those arrays hold by then. *)
Theorem disable_clearData_reads_default_arrays (st st' : State) :
  disable (Some {| clearData := Some true |}) st = Returns st' ->
  getAttempts st' = Returns (defaultAttempts (defaults st))
  /\ getCompletedScenarios st' = Returns (defaultCompletedScenarios (defaults st))
  /\ isEnabled st' = Returns false.
Proof.
  unfold disable, onShaped. destruct (data st) as [p|]; [| done].
  intros [= <-]. unfold getAttempts, getCompletedScenarios, isEnabled, onShaped.
  match goal with |- context [saveData ?s] => destruct (saveData_data s) as [-> ->] end.
  done.
Qed.

(** On a tracker created over an empty store, an attempt recorded before
    [disable({ clearData: true })] is still there after it. *)
Lemma disable_clearData_keeps_attempt :
  let st1 := returned (enable newState) in
  let st2 := returned (recordAttempt sampleHost sampleInput st1) in
  let st3 := returned (disable (Some {| clearData := Some true |}) st2) in
  enable newState = Returns st1
  /\ recordAttempt sampleHost sampleInput st1 = Returns st2
  /\ disable (Some {| clearData := Some true |}) st2 = Returns st3
  /\ getAttempts st3 = Returns [newAttempt sampleHost sampleInput]
  /\ getCompletedScenarios st3 = Returns ["scenario-123"].
Proof.
  intros st1 st2 st3.
  assert (disable (Some {| clearData := Some true |}) st2 = Returns st3) as H
    by reflexivity.
  destruct (disable_clearData_reads_default_arrays st2 st3 H) as (A & B & _).
  split; [reflexivity |]. split; [reflexivity |]. split; [exact H |].
  split; [rewrite A | rewrite B]; reflexivity.
Defined.

End ProgressFacts.

(** * More of the progress tracker: the operations one by one, saving and
      loading, the queries, the states a tracker goes through *)
Module TrackerFacts.
Import JSON JSONFacts Progress ProgressFacts.
Local Open Scope list_scope.

(** A tracker whose [data] is a well-shaped object. *)
Definition tracker (d : Defaults) (p : ProgressData) (store : option (gmap string string))
    : State :=
  {| defaults := d; data := Shaped p; localStorage := store |}.

Lemma saveData_idempotent (st : State) : saveData (saveData st) = saveData st.
Proof.
  unfold saveData. destruct (localStorage st) as [m|] eqn:E; simpl; [| by rewrite E].
  by rewrite insert_insert_eq.
Qed.

Lemma saveData_storage (st : State) :
  localStorage (saveData st) = insert STORAGE_KEY (exportData st) <$> localStorage st.
Proof. unfold saveData, exportData. by destruct (localStorage st) eqn:E; simpl; rewrite ?E. Qed.

(** ** enable *)

(** X2. [enable] returns and leaves as [data] the record it found with
    [enabled] set to true and every other field as it was (the two arrays,
    [streakDays], [lastPracticeDate], [totalPracticeTime]); the default
    arrays are untouched, the record is saved, the queries answer as before,
    and doing it again changes nothing more. *)
Theorem enable_spec (d : Defaults) (p : ProgressData) (store : option (gmap string string)) :
  exists st',
    enable (tracker d p store) = Returns st'
    /\ data st' = Shaped (setEnabled p true)
    /\ defaults st' = d
    /\ localStorage st' = insert STORAGE_KEY (exportData st') <$> store
    /\ isEnabled st' = Returns true
    /\ getAttempts st' = getAttempts (tracker d p store)
    /\ getCompletedScenarios st' = getCompletedScenarios (tracker d p store)
    /\ getStreak st' = getStreak (tracker d p store)
    /\ enable st' = Returns st'.
Proof.
  eexists. split; [reflexivity |].
  set (st1 := withData (tracker d p store) (setEnabled p true)).
  assert (data (saveData st1) = Shaped (setEnabled p true)) as HD
    by (by destruct (saveData_data st1) as [-> _]).
  assert (defaults (saveData st1) = d) as HF
    by (by destruct (saveData_data st1) as [_ ->]).
  split; [exact HD |]. split; [exact HF |].
  split; [rewrite saveData_storage; unfold exportData; by rewrite HD, HF |].
  unfold isEnabled, getAttempts, getCompletedScenarios, getStreak, onShaped.
  rewrite HD, HF. repeat split; try reflexivity.
  - unfold enable, onShaped. rewrite HD. f_equal.
    assert (withData (saveData st1) (setEnabled (setEnabled p true) true) = saveData st1) as ->.
    { unfold withData. rewrite HF. unfold saveData, st1. simpl. by destruct store. }
    apply saveData_idempotent.
Qed.

(** ** disable *)

(** X3. [disable] without [clearData: true] (no options, no [clearData], or
    [clearData: false]) returns, turns tracking off and keeps the attempts,
    the completed scenarios and the streak; it saves the record; and [enable]
    after it leaves the tracker as [enable] alone would have. *)
Theorem disable_keeps_record (options : option DisableOptions) (d : Defaults)
    (p : ProgressData) (store : option (gmap string string)) :
  options ≫= clearData <> Some true ->
  exists st',
    disable options (tracker d p store) = Returns st'
    /\ isEnabled st' = Returns false
    /\ getAttempts st' = getAttempts (tracker d p store)
    /\ getCompletedScenarios st' = getCompletedScenarios (tracker d p store)
    /\ getStreak st' = getStreak (tracker d p store)
    /\ localStorage st' = insert STORAGE_KEY (exportData st') <$> store
    /\ enable st' = enable (tracker d p store).
Proof.
  intros Hopt.
  assert (disable options (tracker d p store)
          = Returns (saveData (withData (tracker d p store) (setEnabled p false)))) as E.
  { unfold disable, onShaped. simpl. destruct (options ≫= clearData) as [[|]|]; done. }
  eexists. split; [exact E |].
  set (st1 := withData (tracker d p store) (setEnabled p false)).
  assert (data (saveData st1) = Shaped (setEnabled p false)) as HD
    by (by destruct (saveData_data st1) as [-> _]).
  assert (defaults (saveData st1) = d) as HF
    by (by destruct (saveData_data st1) as [_ ->]).
  unfold isEnabled, getAttempts, getCompletedScenarios, getStreak, onShaped.
  rewrite HD, HF. repeat split; try reflexivity.
  - rewrite saveData_storage. unfold exportData. by rewrite HD, HF.
  - unfold enable, onShaped. rewrite HD. simpl. f_equal.
    unfold st1, saveData, withData, tracker. simpl.
    destruct store as [m|]; simpl; [| done].
    by rewrite insert_insert_eq.
Qed.

Lemma disable_keeps_record_witness :
  exists st',
    disable None (tracker initialDefaults (setEnabled spreadDefault true) (Some ∅))
    = Returns st'
    /\ isEnabled st' = Returns false.
Proof.
  destruct (disable_keeps_record None initialDefaults (setEnabled spreadDefault true)
              (Some ∅)) as (st' & H1 & H2 & _); [discriminate |].
  exists st'. by split.
Defined.

(** ** recordAttempt *)

Lemma updateStreak_untouched (h : Host) (d : Defaults) (p : ProgressData) :
  attemptItems d (updateStreak h p) = attemptItems d p
  /\ completedItems d (updateStreak h p) = completedItems d p
  /\ enabled (updateStreak h p) = enabled p
  /\ totalPracticeTime (updateStreak h p) = totalPracticeTime p.
Proof.
  unfold updateStreak, attemptItems, completedItems.
  destruct (lastPracticeDate p); [| done].
  destruct (isToday h s); [done |]. by destruct (isYesterday h s).
Qed.

(** What an enabled [recordAttempt] leaves behind: the record that is saved. *)
Lemma recordAttempt_effect (h : Host) (input : RecordAttemptInput) (d : Defaults)
    (p : ProgressData) (store : option (gmap string string)) :
  enabled p = true ->
  exists d' p',
    recordAttempt h input (tracker d p store) = Returns (saveData (tracker d' p' store))
    /\ attemptItems d' p' = attemptItems d p ++ [newAttempt h input]
    /\ completedItems d' p'
       = (if input_completed input
             && negb (listIncludes (completedItems d p) (input_scenarioId input))
          then completedItems d p ++ [input_scenarioId input]
          else completedItems d p)
    /\ enabled p' = true
    /\ totalPracticeTime p' = totalPracticeTime p
    /\ (streakDays p', lastPracticeDate p')
       = Spec.streakAfter (todayISO h) (yesterdayISO h) (streakDays p) (lastPracticeDate p).
Proof.
  intros He. unfold recordAttempt, onShaped. simpl. rewrite He. simpl.
  destruct p as [e [|atts] [|cs] n dt t]; simpl in He; subst e;
    unfold pushAttempt, pushCompleted, completedItems at 1; simpl;
    match goal with |- context [input_completed input && ?c] =>
      destruct (input_completed input && c) eqn:EC end;
    match goal with
    |- context [saveData {| defaults := ?d'; data := Shaped (updateStreak h ?q) |}] =>
      exists d', (updateStreak h q);
      destruct (updateStreak_untouched h d' q) as (-> & -> & -> & ->);
      rewrite (updateStreak_spec h q)
    end;
    unfold attemptItems, completedItems; simpl; rewrite ?EC; done.
Qed.

Lemma getters_saveData (st : State) :
  getAttempts (saveData st) = getAttempts st
  /\ getCompletedScenarios (saveData st) = getCompletedScenarios st
  /\ getStreak (saveData st) = getStreak st
  /\ isEnabled (saveData st) = isEnabled st
  /\ (forall s, isScenarioCompleted s (saveData st) = isScenarioCompleted s st)
  /\ (forall s, getAttemptsForScenario s (saveData st) = getAttemptsForScenario s st)
  /\ getStats (saveData st) = getStats st
  /\ exportData (saveData st) = exportData st.
Proof.
  unfold getAttempts, getCompletedScenarios, getStreak, isEnabled, isScenarioCompleted,
    getAttemptsForScenario, getStats, exportData, onShaped.
  by destruct (saveData_data st) as [-> ->].
Qed.

(** X4. With tracking enabled, [recordAttempt] returns and appends exactly one
    attempt to the ledger: the attempts recorded before stay, in their order,
    and the new one comes last, carrying the input's fields, the host's
    clock as its timestamp and the generated id. *)
Theorem recordAttempt_appends (h : Host) (input : RecordAttemptInput) (d : Defaults)
    (p : ProgressData) (store : option (gmap string string)) :
  enabled p = true ->
  exists st',
    recordAttempt h input (tracker d p store) = Returns st'
    /\ getAttempts st'
       = Returns (attemptItems d p ++
           [ {| id := generateId h; scenarioId := input_scenarioId input;
                timestamp := dateNow h; mode := input_mode input;
                focusComponent := input_focusComponent input;
                difficulty := input_difficulty input;
                rating := input_rating input;
                completed := input_completed input |} ])
    /\ isEnabled st' = Returns true.
Proof.
  intros He.
  destruct (recordAttempt_effect h input d p store He) as (d' & p' & E & HA & _ & He' & _).
  eexists. split; [exact E |].
  destruct (getters_saveData (tracker d' p' store)) as (-> & _ & _ & -> & _).
  unfold getAttempts, isEnabled, onShaped. simpl. by rewrite HA, He'.
Qed.

Lemma recordAttempt_appends_witness :
  exists st',
    recordAttempt sampleHost sampleInput enabledState = Returns st'
    /\ (length <$> match getAttempts st' with Returns l => Some l | NotModelled => None end)
       = Some 1%nat.
Proof.
  destruct (recordAttempt_appends sampleHost sampleInput initialDefaults
              (setEnabled spreadDefault true) (Some ∅) eq_refl) as (st' & H1 & H2 & _).
  exists st'. split; [exact H1 |]. by rewrite H2.
Defined.

(** ** Saving *)

(** X5. Every operation that changes the record saves it: after [enable],
    [disable] (with any options) and an enabled [recordAttempt] the host's
    [localStorage] is the one before with the tracker's key set to what
    [exportData] now returns, so no other key is written or removed and a
    host without [localStorage] stays without; a disabled [recordAttempt]
    leaves [localStorage] as it is. *)
Theorem operations_save (d : Defaults) (p : ProgressData)
    (store : option (gmap string string)) :
  (forall st', enable (tracker d p store) = Returns st' ->
     localStorage st' = insert STORAGE_KEY (exportData st') <$> store)
  /\ (forall options st', disable options (tracker d p store) = Returns st' ->
        localStorage st' = insert STORAGE_KEY (exportData st') <$> store)
  /\ (forall h input st', recordAttempt h input (tracker d p store) = Returns st' ->
        localStorage st'
        = if enabled p then insert STORAGE_KEY (exportData st') <$> store else store).
Proof.
  assert (forall st, localStorage (saveData st)
                     = insert STORAGE_KEY (exportData (saveData st)) <$> localStorage st) as HS.
  { intros st. rewrite saveData_storage.
    by destruct (getters_saveData st) as (_ & _ & _ & _ & _ & _ & _ & ->). }
  split; [| split].
  - intros st' [= <-]. apply HS.
  - intros options st' [= <-]. apply HS.
  - intros h input st' H. destruct (enabled p) eqn:He.
    + destruct (recordAttempt_effect h input d p store He) as (d' & p' & E & _).
      rewrite E in H. injection H as <-. apply HS.
    + unfold recordAttempt, onShaped in H. simpl in H. rewrite He in H. simpl in H.
      by injection H as <-.
Qed.

Lemma stringify_not_empty (v : value) : stringify v <> "".
Proof.
  unfold stringify. destruct (print_head v) as (c & t & -> & _). discriminate.
Qed.

(** ** Loading *)

(** X6. A tracker created over a [localStorage] that holds, under the tracker's
    key, what an earlier tracker exported, starts from that tracker's record:
    the same enabled flag, attempts, completed scenarios and streak, and the
    same export.  Its arrays are its own: whatever the module's default
    arrays hold does not show. *)
Theorem createProgressTracker_reload (st : State) (p : ProgressData)
    (store : gmap string string) (d' : Defaults) :
  data st = Shaped p ->
  store !! STORAGE_KEY = Some (exportData st) ->
  exists st2,
    createProgressTracker d' (Some store) = Returns st2
    /\ data st2 = Shaped (fresh (snapshot (defaults st) p))
    /\ isEnabled st2 = isEnabled st
    /\ getAttempts st2 = getAttempts st
    /\ getCompletedScenarios st2 = getCompletedScenarios st
    /\ getStreak st2 = getStreak st
    /\ exportData st2 = exportData st.
Proof.
  intros HD HS. unfold createProgressTracker, loadData. rewrite HS.
  destruct (decide (exportData st = "")) as [E | _];
    [by apply stringify_not_empty in E |].
  unfold exportData. rewrite HD. simpl.
  rewrite (parse_stringify _ (wf_encodeData _)).
  unfold ofJSON. rewrite decodeData_encodeData.
  eexists. split; [reflexivity |].
  unfold isEnabled, getAttempts, getCompletedScenarios, getStreak, onShaped.
  rewrite HD. simpl. repeat split; reflexivity.
Qed.

Lemma createProgressTracker_reload_witness :
  let st := returned (recordAttempt sampleHost sampleInput enabledState) in
  exists st2,
    createProgressTracker initialDefaults (localStorage st) = Returns st2
    /\ getAttempts st2 = getAttempts st.
Proof.
  intros st.
  assert (exists p store, data st = Shaped p /\ localStorage st = Some store
                          /\ store !! STORAGE_KEY = Some (exportData st))
    as (p & store & HD & HL & HS).
  { eexists _, _. split; [reflexivity |]. split; [reflexivity |].
    apply lookup_insert_eq. }
  destruct (createProgressTracker_reload st p store initialDefaults HD HS)
    as (st2 & H1 & _ & _ & H2 & _).
  exists st2. rewrite HL. by split.
Defined.

(** X7. Where there is nothing to load, the tracker starts from the default
    record: with no [localStorage], no value under the key, an empty value,
    or a value [JSON.parse] rejects, [createProgressTracker] returns a tracker
    that is disabled, with streak 0, that leaves [localStorage] as it found it
    (a rejected value stays stored), and whose attempts and completed
    scenarios are the arrays of [DEFAULT_PROGRESS_DATA], with whatever they
    hold by then. *)
Theorem createProgressTracker_default (d : Defaults) (storage : option (gmap string string)) :
  storage = None
  \/ (exists store, storage = Some store
        /\ (store !! STORAGE_KEY = None \/ store !! STORAGE_KEY = Some ""
            \/ exists text, store !! STORAGE_KEY = Some text
                            /\ JSON.parse text = SyntaxError)) ->
  exists st,
    createProgressTracker d storage = Returns st
    /\ localStorage st = storage
    /\ isEnabled st = Returns false
    /\ getStreak st = Returns 0
    /\ getAttempts st = Returns (defaultAttempts d)
    /\ getCompletedScenarios st = Returns (defaultCompletedScenarios d).
Proof.
  intros H.
  assert (loadData storage = Returns (Shaped spreadDefault)) as E.
  { unfold loadData.
    destruct H as [-> | (store & -> & [H | [H | (text & H & HP)]])]; rewrite ?H; try done.
    destruct (decide (text = "")); [done |]. by rewrite HP. }
  unfold createProgressTracker. rewrite E. eexists. split; [reflexivity |].
  repeat split; reflexivity.
Qed.

Lemma createProgressTracker_default_witness :
  exists st,
    createProgressTracker initialDefaults (Some {[ STORAGE_KEY := "{enabled" ]}) = Returns st
    /\ isEnabled st = Returns false.
Proof.
  destruct (createProgressTracker_default initialDefaults
              (Some {[ STORAGE_KEY := "{enabled" ]})) as (st & H1 & _ & H2 & _).
  - right. eexists. split; [reflexivity |]. right. right.
    exists "{enabled". split; [apply lookup_singleton_eq | reflexivity].
  - exists st. by split.
Defined.

(** ** The queries after recordAttempt *)

Lemma listIncludes_app (l : list string) (x y : string) :
  listIncludes (l ++ [x]) y = listIncludes l y || bool_decide (x = y).
Proof.
  unfold listIncludes. rewrite existsb_app. simpl. by rewrite orb_false_r.
Qed.

(** X8. With tracking enabled, after [recordAttempt] a scenario is completed
    exactly when it was completed before or it is the scenario of the
    attempt and the attempt was completed: a completed attempt marks its
    scenario, an attempt that was not completed marks nothing, and no
    scenario is ever unmarked. *)
Theorem isScenarioCompleted_recordAttempt (h : Host) (input : RecordAttemptInput)
    (d : Defaults) (p : ProgressData) (store : option (gmap string string))
    (scenario : string) :
  enabled p = true ->
  exists st',
    recordAttempt h input (tracker d p store) = Returns st'
    /\ isScenarioCompleted scenario st'
       = Returns (listIncludes (completedItems d p) scenario
                  || (input_completed input
                      && bool_decide (input_scenarioId input = scenario))).
Proof.
  intros He.
  destruct (recordAttempt_effect h input d p store He) as (d' & p' & E & _ & HC & _).
  eexists. split; [exact E |].
  destruct (getters_saveData (tracker d' p' store)) as (_ & _ & _ & _ & -> & _).
  unfold isScenarioCompleted, onShaped. simpl. f_equal. rewrite HC.
  destruct (input_completed input); simpl; [| by rewrite orb_false_r].
  destruct (listIncludes (completedItems d p) (input_scenarioId input)) eqn:EI; simpl.
  - destruct (bool_decide_reflect (input_scenarioId input = scenario)) as [<- |];
      [by rewrite EI | by rewrite orb_false_r].
  - apply listIncludes_app.
Qed.

Lemma isScenarioCompleted_recordAttempt_witness :
  exists st',
    recordAttempt sampleHost sampleInput enabledState = Returns st'
    /\ isScenarioCompleted "scenario-123" st' = Returns true.
Proof.
  destruct (isScenarioCompleted_recordAttempt sampleHost sampleInput initialDefaults
              (setEnabled spreadDefault true) (Some ∅) "scenario-123" eq_refl)
    as (st' & H1 & H2).
  exists st'. split; [exact H1 |]. by rewrite H2.
Defined.

(** X9. With tracking enabled, [recordAttempt] adds the new attempt at the end
    of what [getAttemptsForScenario] returns for the attempt's scenario and
    changes what it returns for no other scenario; every attempt returned
    for a scenario carries that scenario's id. *)
Theorem getAttemptsForScenario_recordAttempt (h : Host) (input : RecordAttemptInput)
    (d : Defaults) (p : ProgressData) (store : option (gmap string string))
    (scenario : string) :
  enabled p = true ->
  exists st' before after,
    getAttemptsForScenario scenario (tracker d p store) = Returns before
    /\ recordAttempt h input (tracker d p store) = Returns st'
    /\ getAttemptsForScenario scenario st' = Returns after
    /\ after = before ++ (if decide (input_scenarioId input = scenario)
                          then [newAttempt h input] else [])
    /\ Forall (fun a => scenarioId a = scenario) after.
Proof.
  intros He.
  destruct (recordAttempt_effect h input d p store He) as (d' & p' & E & HA & _).
  eexists _, _, _. split; [reflexivity |]. split; [exact E |].
  destruct (getters_saveData (tracker d' p' store)) as (_ & _ & _ & _ & _ & -> & _).
  unfold getAttemptsForScenario, onShaped. simpl. split; [reflexivity |].
  rewrite HA. split.
  - rewrite List.filter_app. f_equal. simpl.
    destruct (decide (input_scenarioId input = scenario)) as [Hs | Hs].
    + by rewrite bool_decide_eq_true_2.
    + by rewrite bool_decide_eq_false_2.
  - apply List.Forall_forall. intros a [_ Ha]%filter_In.
    by apply bool_decide_eq_true in Ha.
Qed.

Lemma getAttemptsForScenario_recordAttempt_witness :
  exists st' after,
    recordAttempt sampleHost sampleInput enabledState = Returns st'
    /\ getAttemptsForScenario "scenario-123" st' = Returns after
    /\ after = [newAttempt sampleHost sampleInput].
Proof.
  destruct (getAttemptsForScenario_recordAttempt sampleHost sampleInput initialDefaults
              (setEnabled spreadDefault true) (Some ∅) "scenario-123" eq_refl)
    as (st' & before & after & H0 & H1 & H2 & H3 & _).
  exists st', after. split; [exact H1 |]. split; [exact H2 |].
  injection H0 as <-. exact H3.
Defined.

(** ** Two attempts in a row *)

(** X10. With tracking enabled, two calls of [recordAttempt] in a row both
    return, the ledger ends with the two attempts in the order of the calls,
    and the streak after the second call is the streak after the first when
    both calls see the same date, one more when the second call sees the
    date of the first as yesterday's, and 1 otherwise. *)
Theorem recordAttempt_twice (h1 h2 : Host) (input1 input2 : RecordAttemptInput)
    (d : Defaults) (p : ProgressData) (store : option (gmap string string)) :
  enabled p = true ->
  exists st1 st2 n1 n2,
    recordAttempt h1 input1 (tracker d p store) = Returns st1
    /\ recordAttempt h2 input2 st1 = Returns st2
    /\ getAttempts st2
       = Returns (attemptItems d p ++ [newAttempt h1 input1; newAttempt h2 input2])
    /\ getStreak st1 = Returns n1
    /\ getStreak st2 = Returns n2
    /\ n2 = (if decide (todayISO h2 = todayISO h1) then n1
             else if decide (yesterdayISO h2 = todayISO h1) then n1 + 1
             else 1).
Proof.
  intros He.
  destruct (recordAttempt_effect h1 input1 d p store He)
    as (d1 & p1 & E1 & HA1 & _ & He1 & _ & HS1).
  assert (saveData (tracker d1 p1 store)
          = tracker d1 p1 (localStorage (saveData (tracker d1 p1 store)))) as ES.
  { unfold saveData, tracker. simpl. by destruct store. }
  destruct (recordAttempt_effect h2 input2 d1 p1
              (localStorage (saveData (tracker d1 p1 store))) He1)
    as (d2 & p2 & E2 & HA2 & _ & _ & _ & HS2).
  rewrite <- ES in E2.
  eexists _, _, (streakDays p1), (streakDays p2).
  split; [exact E1 |]. split; [exact E2 |].
  destruct (getters_saveData (tracker d1 p1 store)) as (_ & _ & -> & _).
  match goal with |- context [saveData ?s] =>
    destruct (getters_saveData s) as (-> & _ & -> & _) end.
  unfold getAttempts, getStreak, onShaped. simpl.
  split; [by rewrite HA2, HA1, <- app_assoc |].
  split; [reflexivity |]. split; [reflexivity |].
  unfold Spec.streakAfter in HS1, HS2.
  assert (lastPracticeDate p1 = Some (todayISO h1)) as HL.
  { destruct (lastPracticeDate p) as [l|]; [| by injection HS1 as _ ->].
    repeat case_decide; injection HS1 as _ ->; congruence. }
  rewrite HL in HS2.
  repeat case_decide; injection HS2 as -> _; congruence.
Qed.

Lemma recordAttempt_twice_witness :
  let nextDay := {| dateNow := 1769731200000; randomDigits := "a1b2c3d4e";
                    todayISO := "2026-01-30"; yesterdayISO := "2026-01-29" |} in
  exists st1 st2 n1 n2,
    recordAttempt sampleHost sampleInput enabledState = Returns st1
    /\ recordAttempt nextDay sampleInput st1 = Returns st2
    /\ getStreak st1 = Returns n1
    /\ getStreak st2 = Returns n2
    /\ n2 = n1 + 1.
Proof.
  intros nextDay.
  destruct (recordAttempt_twice sampleHost nextDay sampleInput sampleInput initialDefaults
              (setEnabled spreadDefault true) (Some ∅) eq_refl)
    as (st1 & st2 & n1 & n2 & H1 & H2 & _ & H3 & H4 & H5).
  exists st1, st2, n1, n2. repeat (split; [assumption |]).
  rewrite decide_False, decide_True in H5 by (simpl; congruence). exact H5.
Defined.

(** ** The states a tracker goes through *)

(** The streak and the last practice date go together, and nothing adds to
    the practice time. *)
Definition streakConsistent (st : State) : Prop :=
  exists p,
    data st = Shaped p
    /\ totalPracticeTime p = 0
    /\ match lastPracticeDate p with
       | None => streakDays p = 0
       | Some _ => 1 <= streakDays p /\ attemptItems (defaults st) p <> []
       end.

Lemma streakConsistent_saveData (st : State) :
  streakConsistent st -> streakConsistent (saveData st).
Proof. unfold streakConsistent. by destruct (saveData_data st) as [-> ->]. Qed.

(** X11. In every state a tracker created over a store without a saved record
    reaches by [enable], [disable] and [recordAttempt], [data] is a
    well-shaped record (so every operation returns), [totalPracticeTime] is
    still 0, [streakDays] is 0 as long as [lastPracticeDate] is null, and once
    a date is set the streak is at least 1 and there is an attempt in the
    ledger. *)
Theorem reachable_streakConsistent (st : State) :
  reachable st -> streakConsistent st.
Proof.
  induction 1 as [storage st Hnone Hc | st st' _ IH He | options st st' _ IH Hd
                  | h input st st' _ IH Hr].
  - unfold createProgressTracker, loadData in Hc.
    destruct storage as [store|]; simpl in Hnone; [rewrite Hnone in Hc |];
      injection Hc as <-; by exists spreadDefault.
  - destruct IH as (p & HD & HT & HL). unfold enable, onShaped in He. rewrite HD in He.
    injection He as <-. apply streakConsistent_saveData. by exists (setEnabled p true).
  - destruct IH as (p & HD & HT & HL). unfold disable, onShaped in Hd. rewrite HD in Hd.
    injection Hd as <-. apply streakConsistent_saveData.
    destruct (options ≫= clearData) as [[|]|];
      [by exists spreadDefault | by exists (setEnabled p false) ..].
  - destruct IH as (p & HD & HT & HL).
    destruct (enabled p) eqn:Hen.
    + destruct st as [d x store]. simpl in HD. subst x.
      destruct (recordAttempt_effect h input d p store Hen)
        as (d' & p' & E & HA & _ & _ & HT' & HS).
      change (recordAttempt h input (tracker d p store) = Returns st') in Hr.
      rewrite E in Hr. injection Hr as <-. apply streakConsistent_saveData.
      exists p'. split; [reflexivity |]. split; [congruence |]. simpl in *.
      assert (attemptItems d' p' <> []) as HN by (rewrite HA; by destruct (attemptItems d p)).
      unfold Spec.streakAfter in HS.
      destruct (lastPracticeDate p) as [l|]; [| by injection HS as -> ->].
      destruct HL as [HL _].
      repeat case_decide; injection HS as -> ->; split; (lia || done).
    + unfold recordAttempt, onShaped in Hr. rewrite HD, Hen in Hr. simpl in Hr.
      injection Hr as <-. by exists p.
Qed.

Lemma reachable_streakConsistent_witness :
  streakConsistent (returned (recordAttempt sampleHost sampleInput
                                (returned (enable newState)))).
Proof.
  apply reachable_streakConsistent.
  apply (reachable_recordAttempt sampleHost sampleInput (returned (enable newState)));
    [| reflexivity].
  apply (reachable_enable newState); [| reflexivity].
  by apply (reachable_created (Some ∅)).
Defined.

(** ** The breakdowns of getStats *)

(** The number of attempts whose (optional) key is [k]. *)
Definition countBy (key : PracticeAttempt -> option string) (k : string)
    (all : list PracticeAttempt) : nat :=
  length (List.filter (fun a => bool_decide (key a = Some k)) all).

(** What a counting object holds under [k]: nothing when [n] attempts is
    none, [n] otherwise. *)
Definition tally (n : nat) : option Z :=
  match n with
  | O => None
  | S _ => Some (Z.of_nat n)
  end.

Lemma fold_bumpOptional (key : PracticeAttempt -> option string)
    (all : list PracticeAttempt) (m : gmap string Z) (k : string) :
  fold_left (fun m a => bumpOptional (key a) m) all m !! k
  = match countBy key k all with
    | O => m !! k
    | S _ => Some (default 0 (m !! k) + Z.of_nat (countBy key k all))
    end.
Proof.
  revert m. induction all as [|a l IH]; intros m; [done |].
  cbn [fold_left]. rewrite IH. unfold countBy. cbn [List.filter].
  destruct (key a) as [k'|] eqn:E; cbn [bumpOptional].
  - destruct (decide (k' = k)) as [-> | Hne].
    + rewrite bool_decide_eq_true_2 by done. unfold bump. rewrite lookup_insert_eq.
      cbn [length default].
      destruct (length (List.filter _ l)); f_equal; unfold Datatypes.id; lia.
    + rewrite bool_decide_eq_false_2 by congruence.
      unfold bump. by rewrite lookup_insert_ne.
  - rewrite bool_decide_eq_false_2 by done. done.
Qed.

Lemma fold_bumpOptional_empty (key : PracticeAttempt -> option string)
    (all : list PracticeAttempt) (k : string) :
  fold_left (fun m a => bumpOptional (key a) m) all ∅ !! k = tally (countBy key k all).
Proof.
  rewrite fold_bumpOptional, lookup_empty. unfold tally.
  by destruct (countBy key k all).
Qed.

Lemma countBy_mode_total (all : list PracticeAttempt) :
  (countBy (fun a => Some (PracticeMode.modeName (mode a))) "practice" all
   + countBy (fun a => Some (PracticeMode.modeName (mode a))) "translate" all
   = length all)%nat.
Proof.
  unfold countBy. induction all as [|a l IH]; [done |].
  cbn [List.filter length]. destruct (mode a); simpl; lia.
Qed.

(** X12. [getStats] returns the streak of the record and three counting objects:
    under a mode, component or difficulty name each holds the number of
    attempts that carry it, and it has no property for a name no attempt
    carries (so attempts without a focus component or a difficulty are
    counted nowhere in those two); the counts of the two modes add up to
    [totalAttempts]. *)
Theorem getStats_breakdowns (d : Defaults) (p : ProgressData)
    (store : option (gmap string string)) :
  let all := attemptItems d p in
  exists s,
    getStats (tracker d p store) = Returns s
    /\ statsStreakDays s = streakDays p
    /\ (forall k, byMode s !! k
          = tally (countBy (fun a => Some (PracticeMode.modeName (mode a))) k all))
    /\ (forall k, byComponent s !! k
          = tally (countBy (fun a => PracticeMode.componentName <$> focusComponent a) k all))
    /\ (forall k, byDifficulty s !! k
          = tally (countBy (fun a => PracticeMode.difficultyName <$> difficulty a) k all))
    /\ default 0 (byMode s !! "practice") + default 0 (byMode s !! "translate")
       = totalAttempts s.
Proof.
  intros all. exists (statsOf all (streakDays p)).
  assert (forall k, byMode (statsOf all (streakDays p)) !! k
          = tally (countBy (fun a => Some (PracticeMode.modeName (mode a))) k all)) as HM.
  { intros k. cbn [byMode statsOf].
    exact (fold_bumpOptional_empty (fun a => Some (PracticeMode.modeName (mode a))) all k). }
  split; [reflexivity |]. split; [reflexivity |]. split; [exact HM |].
  split; [intros k; apply fold_bumpOptional_empty |].
  split; [intros k; apply fold_bumpOptional_empty |].
  rewrite !HM. cbn [totalAttempts statsOf].
  pose proof (countBy_mode_total all) as HT. unfold tally.
  destruct (countBy _ "practice" all), (countBy _ "translate" all); simpl default; lia.
Qed.

(** ** generateId *)

Lemma list_ascii_of_string_app (a b : string) :
  list_ascii_of_string (a ++ b) = list_ascii_of_string a ++ list_ascii_of_string b.
Proof. induction a as [|c a IH]; [done |]. simpl. by rewrite IH. Qed.

(** Scanning printed digits stops where they end, before anything that is
    not a digit. *)
Lemma scanDigits_digitChars_then (u : Decimal.uint) (c : ascii) (rest : list ascii) :
  digitOf c = None -> scanDigits (digitChars u ++ c :: rest) = (u, c :: rest).
Proof.
  intros H. induction u; simpl; [by rewrite H | ..]; rewrite IHu; reflexivity.
Qed.

Lemma digitChars_to_uint_inj (m n : N) (c : ascii) (r1 r2 : list ascii) :
  digitOf c = None ->
  digitChars (N.to_uint m) ++ c :: r1 = digitChars (N.to_uint n) ++ c :: r2 ->
  m = n /\ r1 = r2.
Proof.
  intros Hc H.
  pose proof (scanDigits_digitChars_then (N.to_uint m) c r1 Hc) as H1.
  pose proof (scanDigits_digitChars_then (N.to_uint n) c r2 Hc) as H2.
  rewrite H, H2 in H1. injection H1 as Hu Hr. split; [| done].
  rewrite <- (DecimalN.Unsigned.of_to m), <- (DecimalN.Unsigned.of_to n). by rewrite Hu.
Qed.

Lemma printNumber_inj (m n : Z) (r1 r2 : list ascii) :
  printNumber m ++ chr 45 :: r1 = printNumber n ++ chr 45 :: r2 -> m = n /\ r1 = r2.
Proof.
  unfold printNumber. intros H.
  destruct (m <? 0)%Z eqn:Em, (n <? 0)%Z eqn:En; simpl in H.
  - injection H as H. apply digitChars_to_uint_inj in H as [H ->]; [| done].
    split; [lia | done].
  - exfalso. destruct (digitChars_head (Z.abs_N n)) as (c & t & Hd & Hc).
    rewrite Hd in H. injection H as <- _. by apply Hc.
  - exfalso. destruct (digitChars_head (Z.abs_N m)) as (c & t & Hd & Hc).
    rewrite Hd in H. injection H as -> _. by apply Hc.
  - apply digitChars_to_uint_inj in H as [H ->]; [| done]. split; [lia | done].
Qed.

(** X13. The id of an attempt determines the clock reading and the random digits
    it was made from: two calls of [generateId] give the same id only when
    they read the same millisecond and draw the same digits. *)
Theorem generateId_injective (h1 h2 : Host) :
  generateId h1 = generateId h2
  <-> dateNow h1 = dateNow h2 /\ randomDigits h1 = randomDigits h2.
Proof.
  split; [| by intros [H1 H2]; unfold generateId; rewrite H1, H2].
  unfold generateId, decimal. intros H.
  apply (f_equal list_ascii_of_string) in H.
  rewrite !list_ascii_of_string_app, !list_ascii_of_string_of_list_ascii in H.
  apply app_inv_head in H.
  change (list_ascii_of_string "-" ++ ?r) with (chr 45 :: r) in H.
  apply printNumber_inj in H as [H1 H2]. split; [done |].
  rewrite <- (string_of_list_ascii_of_string (randomDigits h1)), H2.
  apply string_of_list_ascii_of_string.
Qed.

(** ** disable({ clearData: true }) while the default arrays are empty *)

(** X21. As long as nothing was pushed into the arrays of
    [DEFAULT_PROGRESS_DATA], [disable({ clearData: true })] does clear:
    whatever record the tracker held (one loaded from [localStorage], say),
    it returns with tracking off, no attempt, no completed scenario and
    streak 0, and what it saves is the serialisation of the default
    record. *)
Theorem disable_clearData_clears (p : ProgressData) (store : option (gmap string string)) :
  exists st',
    disable (Some {| clearData := Some true |}) (tracker initialDefaults p store)
    = Returns st'
    /\ isEnabled st' = Returns false
    /\ getAttempts st' = Returns []
    /\ getCompletedScenarios st' = Returns []
    /\ getStreak st' = Returns 0
    /\ exportData st' = serialize (snapshot initialDefaults spreadDefault)
    /\ localStorage st' = insert STORAGE_KEY (exportData st') <$> store.
Proof.
  exists (saveData (withData (tracker initialDefaults p store) spreadDefault)).
  split; [reflexivity |].
  destruct (getters_saveData (withData (tracker initialDefaults p store) spreadDefault))
    as (-> & -> & -> & -> & _ & _ & _ & HE).
  rewrite saveData_storage, HE. repeat split; reflexivity.
Qed.

(** ** Practising day after day *)

(** One call of [recordAttempt] per element, in order. *)
Fixpoint recordAll (calls : list (Host * RecordAttemptInput)) (st : State)
    : completion State :=
  match calls with
  | [] => Returns st
  | (h, input) :: rest =>
      match recordAttempt h input st with
      | Returns st' => recordAll rest st'
      | NotModelled => NotModelled
      end
  end.

(** Each call sees the date of the call before it as yesterday's, and a
    date of its own that differs from it. *)
Fixpoint dayAfterDay (previous : string) (calls : list (Host * RecordAttemptInput)) : Prop :=
  match calls with
  | [] => True
  | (h, _) :: rest =>
      yesterdayISO h = previous /\ todayISO h <> previous /\ dayAfterDay (todayISO h) rest
  end.

Lemma recordAll_streak (calls : list (Host * RecordAttemptInput)) (d : Defaults)
    (p : ProgressData) (store : option (gmap string string)) (previous : string) :
  enabled p = true -> lastPracticeDate p = Some previous ->
  dayAfterDay previous calls ->
  exists st',
    recordAll calls (tracker d p store) = Returns st'
    /\ getStreak st' = Returns (streakDays p + Z.of_nat (length calls))
    /\ (exists l, getAttempts st' = Returns l
                  /\ length l = (length (attemptItems d p) + length calls)%nat).
Proof.
  revert d p store previous.
  induction calls as [|[h input] rest IH]; intros d p store previous He HL HD.
  - eexists. split; [reflexivity |]. unfold getStreak, getAttempts, onShaped. simpl.
    split; [f_equal; lia |]. eexists. split; [reflexivity | lia].
  - destruct HD as (Hy & Ht & HD). cbn [recordAll].
    destruct (recordAttempt_effect h input d p store He)
      as (d' & p' & E & HA & _ & He' & _ & HS).
    rewrite E.
    assert (saveData (tracker d' p' store)
            = tracker d' p' (localStorage (saveData (tracker d' p' store)))) as ->.
    { unfold saveData, tracker. simpl. by destruct store. }
    unfold Spec.streakAfter in HS. rewrite HL in HS.
    rewrite decide_False, decide_True in HS by congruence.
    injection HS as HS1 HS2.
    destruct (IH d' p' (localStorage (saveData (tracker d' p' store))) (todayISO h)
                He' HS2 HD) as (st' & H1 & H2 & (l & H3 & H4)).
    exists st'. split; [exact H1 |]. split.
    + rewrite H2, HS1. f_equal. cbn [length]. lia.
    + exists l. split; [exact H3 |]. rewrite H4, HA, length_app. simpl. lia.
Qed.

(** X22. A first attempt followed by attempts on the days after it, one call per
    day without a gap: all calls return, every call adds its attempt, and
    the streak counts the days.  (The first call finds no practice date, or
    an old one; each later call sees the date of the call before as
    yesterday's.) *)
Theorem recordAttempt_day_after_day (h : Host) (input : RecordAttemptInput)
    (calls : list (Host * RecordAttemptInput)) (d : Defaults) (p : ProgressData)
    (store : option (gmap string string)) :
  enabled p = true ->
  lastPracticeDate p <> Some (todayISO h) ->
  lastPracticeDate p <> Some (yesterdayISO h) ->
  dayAfterDay (todayISO h) calls ->
  exists st' l,
    recordAll ((h, input) :: calls) (tracker d p store) = Returns st'
    /\ getStreak st' = Returns (1 + Z.of_nat (length calls))
    /\ getAttempts st' = Returns l
    /\ length l = (length (attemptItems d p) + 1 + length calls)%nat.
Proof.
  intros He Hnt Hny HD. cbn [recordAll].
  destruct (recordAttempt_effect h input d p store He)
    as (d' & p' & E & HA & _ & He' & _ & HS).
  rewrite E.
  assert (saveData (tracker d' p' store)
          = tracker d' p' (localStorage (saveData (tracker d' p' store)))) as ->.
  { unfold saveData, tracker. simpl. by destruct store. }
  assert (streakDays p' = 1 /\ lastPracticeDate p' = Some (todayISO h)) as [HS1 HS2].
  { unfold Spec.streakAfter in HS. destruct (lastPracticeDate p) as [last|].
    - rewrite !decide_False in HS by congruence. by injection HS as -> ->.
    - by injection HS as -> ->. }
  destruct (recordAll_streak calls d' p' (localStorage (saveData (tracker d' p' store)))
              (todayISO h) He' HS2 HD) as (st' & H1 & H2 & (l & H3 & H4)).
  exists st', l. split; [exact H1 |]. split; [by rewrite H2, HS1 |].
  split; [exact H3 |]. rewrite H4, HA, length_app. simpl. lia.
Qed.

Lemma recordAttempt_day_after_day_witness :
  let day2 := {| dateNow := 1769731200000; randomDigits := "a1b2c3d4e";
                 todayISO := "2026-01-30"; yesterdayISO := "2026-01-29" |} in
  let day3 := {| dateNow := 1769817600000; randomDigits := "f5g6h7i8j";
                 todayISO := "2026-01-31"; yesterdayISO := "2026-01-30" |} in
  exists st',
    recordAll [(sampleHost, sampleInput); (day2, sampleInput); (day3, sampleInput)]
              enabledState = Returns st'
    /\ getStreak st' = Returns 3.
Proof.
  intros day2 day3.
  destruct (recordAttempt_day_after_day sampleHost sampleInput
              [(day2, sampleInput); (day3, sampleInput)] initialDefaults
              (setEnabled spreadDefault true) (Some ∅))
    as (st' & l & H1 & H2 & _); [reflexivity | discriminate | discriminate | |].
  - simpl. repeat split; congruence.
  - exists st'. split; [exact H1 | exact H2].
Defined.

End TrackerFacts.

(** * The streak and the host's calendar *)
Module StreakFacts.
Import JSDate JSHost Progress ProgressFacts TrackerFacts.
Local Open Scope Z_scope.

Lemma MonthFromTime_range (t : Z) : 0 <= MonthFromTime t <= 11.
Proof. unfold MonthFromTime. repeat case_match; lia. Qed.

(** [setDate(getDate() - 1)] moves the local time back by one day, keeping
    the time of day, and reads the result with the offset in effect at that
    local time. *)
Lemma setDate_back (tz : TimeZone) (t : Z) :
  setDate tz t (getDate tz t - 1) = UTC tz (LocalTime tz t - msPerDay).
Proof.
  unfold setDate, getDate. set (local := LocalTime tz t). f_equal.
  pose proof (MonthFromTime_range local) as HM.
  unfold MakeDay. rewrite (Z.div_small (MonthFromTime local) 12) by lia.
  rewrite (Z.mod_small (MonthFromTime local) 12) by lia. rewrite Z.add_0_r.
  fold (InLeapYear local). unfold DateFromTime, DayWithinYear, MakeDate, TimeWithinDay, Day.
  pose proof (Z.div_mod local msPerDay ltac:(done)) as HD.
  set (q := local / msPerDay) in *. set (r := local mod msPerDay) in *.
  set (a := DayFromYear (YearFromTime local)).
  set (b := monthStart (MonthFromTime local) (InLeapYear local)).
  unfold msPerDay in *. lia.
Qed.

(** On a host whose offset never changes, the date [isYesterday] compares
    with is the UTC date one day before now. *)
Lemma yesterdayISO_fixedOffset (offset now : Z) (random : string) :
  yesterdayISO (hostAt (fixedOffset offset) now random) = isoDate (now - msPerDay).
Proof.
  unfold hostAt. cbn [yesterdayISO]. rewrite setDate_back.
  unfold UTC, LocalTime, fixedOffset. cbn [LocalTZA]. f_equal. lia.
Qed.

(** An enabled [recordAttempt] decides by what the host gives it to
    read. *)
Lemma recordAttempt_by_readings (h : Host) (input : RecordAttemptInput) (d : Defaults)
    (p : ProgressData) (store : option (gmap string string)) :
  enabled p = true ->
  exists st' p',
    recordAttempt h input (tracker d p store) = Returns st'
    /\ data st' = Shaped p'
    /\ (streakDays p', lastPracticeDate p')
       = Spec.streakAfter (todayISO h) (yesterdayISO h) (streakDays p) (lastPracticeDate p).
Proof.
  intros He.
  destruct (recordAttempt_effect h input d p store He) as (d' & p' & E & _ & _ & _ & _ & HS).
  exists (saveData (tracker d' p' store)), p'. split; [exact E |]. split; [| exact HS].
  by destruct (saveData_data (tracker d' p' store)) as [-> _].
Qed.

Lemma todayISO_hostAt (tz : TimeZone) (now : Z) (random : string) :
  todayISO (hostAt tz now random) = isoDate now.
Proof. reflexivity. Qed.

Lemma yesterdayISO_hostAt (tz : TimeZone) (now : Z) (random : string) :
  yesterdayISO (hostAt tz now random) = isoDate (UTC tz (LocalTime tz now - msPerDay)).
Proof. unfold hostAt. cbn [yesterdayISO]. by rewrite setDate_back. Qed.

(** Two evenings in New York, before and after the end of daylight time. *)
Definition evening1 : Host := hostAt newYork2026 1793493000000 "k3j9x1q2z".
Definition evening2 : Host := hostAt newYork2026 1793579400000 "a1b2c3d4e".

Lemma evenings_readings :
  todayISO evening1 = "2026-11-01"
  /\ todayISO evening2 = "2026-11-02"
  /\ isoDate (1793579400000 - msPerDay) = "2026-11-01"
  /\ yesterdayISO evening2 = "2026-10-31".
Proof. repeat split; vm_compute; reflexivity. Qed.

Lemma evenings_streak :
  let st1 := returned (recordAttempt evening1 sampleInput enabledState) in
  let st2 := returned (recordAttempt evening2 sampleInput st1) in
  recordAttempt evening1 sampleInput enabledState = Returns st1
  /\ recordAttempt evening2 sampleInput st1 = Returns st2
  /\ getStreak st1 = Returns 1
  /\ getStreak st2 = Returns 1.
Proof. repeat split; vm_compute; reflexivity. Qed.

(** C1. With tracking enabled, [recordAttempt] returns and updates the
    streak by the four cases of the specification, with today's UTC date for
    "today" and, for "today minus one day", the UTC date of the present
    moment moved back one day in local time.  On a host whose offset from
    UTC does not change that is the day before today, and the update is the
    specification's function of the last practice date and today.  Across a
    change of the offset it is not: in New York, an attempt on the evening
    of 31 October 2026 (UTC date 2026-11-01) followed by one on the evening
    of 1 November, the day daylight time ended (UTC date 2026-11-02), finds
    "2026-10-31" for yesterday and resets the streak to 1, where the
    specification's update gives 2. *)
Theorem recordAttempt_streak_local_yesterday :
  (forall tz now random input d p store,
     enabled p = true ->
     exists st' p',
       recordAttempt (hostAt tz now random) input (tracker d p store) = Returns st'
       /\ data st' = Shaped p'
       /\ (streakDays p', lastPracticeDate p')
          = Spec.streakAfter (isoDate now)
              (isoDate (UTC tz (LocalTime tz now - msPerDay)))
              (streakDays p) (lastPracticeDate p))
  /\ (forall offset now random input d p store,
        enabled p = true ->
        exists st' p',
          recordAttempt (hostAt (fixedOffset offset) now random) input (tracker d p store)
          = Returns st'
          /\ data st' = Shaped p'
          /\ (streakDays p', lastPracticeDate p')
             = Spec.streakAfter (isoDate now) (isoDate (now - msPerDay))
                 (streakDays p) (lastPracticeDate p))
  /\ todayISO evening1 = "2026-11-01"
  /\ todayISO evening2 = "2026-11-02"
  /\ isoDate (1793579400000 - msPerDay) = "2026-11-01"
  /\ yesterdayISO evening2 = "2026-10-31"
  /\ (exists st1 st2,
        recordAttempt evening1 sampleInput enabledState = Returns st1
        /\ recordAttempt evening2 sampleInput st1 = Returns st2
        /\ getStreak st1 = Returns 1
        /\ getStreak st2 = Returns 1)
  /\ Spec.streakAfter "2026-11-02" "2026-11-01" 1 (Some "2026-11-01")
     = (2, Some "2026-11-02").
Proof.
  split; [| split].
  - intros tz now random input d p store He.
    destruct (recordAttempt_by_readings (hostAt tz now random) input d p store He)
      as (st' & p' & H1 & H2 & H3).
    rewrite todayISO_hostAt, yesterdayISO_hostAt in H3.
    exists st', p'. split; [exact H1 |]. split; [exact H2 | exact H3].
  - intros offset now random input d p store He.
    destruct (recordAttempt_by_readings (hostAt (fixedOffset offset) now random)
                input d p store He) as (st' & p' & H1 & H2 & H3).
    rewrite todayISO_hostAt, yesterdayISO_fixedOffset in H3.
    exists st', p'. split; [exact H1 |]. split; [exact H2 | exact H3].
  - destruct evenings_readings as (R1 & R2 & R3 & R4).
    destruct evenings_streak as (S1 & S2 & S3 & S4).
    split; [exact R1 |]. split; [exact R2 |]. split; [exact R3 |]. split; [exact R4 |].
    split; [| reflexivity].
    eexists _, _. split; [exact S1 |]. split; [exact S2 |]. split; [exact S3 | exact S4].
Qed.

End StreakFacts.

(** * More facts about practice-mode detection and scenario filtering *)
Module DetectionFacts.
Import JSString PracticeMode PracticeModeFacts.
#[local] Arguments String.append !_ _ / : simpl nomatch.

(** ** Difficulty and conversation mode *)

(** X14. For a message that asks for practice, the difficulty is read off the
    lower-cased message by literal containment, "beginner" before
    "intermediate" before "advanced": a message naming several levels gets
    the first of them in that order, whatever their order in the message,
    and a message naming none gets no difficulty. *)
Theorem detectPracticeMode_difficulty (message : string) :
  let lower := toLowerCase message in
  let r := detectPracticeMode message in
  isPracticeMode r = true ->
  (difficulty r = Some beginner <-> contains lower "beginner")
  /\ (difficulty r = Some intermediate
      <-> ~ contains lower "beginner" /\ contains lower "intermediate")
  /\ (difficulty r = Some advanced
      <-> ~ contains lower "beginner" /\ ~ contains lower "intermediate"
          /\ contains lower "advanced")
  /\ (difficulty r = None
      <-> ~ contains lower "beginner" /\ ~ contains lower "intermediate"
          /\ ~ contains lower "advanced").
Proof.
  intros lower r. subst r. unfold detectPracticeMode. fold lower.
  destruct (negb _); [discriminate |]. intros _. cbn [difficulty].
  unfold detectDifficulty. rewrite <- !includes_spec.
  destruct (includes lower "beginner"), (includes lower "intermediate"),
    (includes lower "advanced"); repeat split; intros; try done; try tauto;
    repeat match goal with H : _ /\ _ |- _ => destruct H end; congruence.
Qed.

Lemma detectPracticeMode_difficulty_witness :
  isPracticeMode (detectPracticeMode "An advanced or beginner practice scenario") = true
  /\ difficulty (detectPracticeMode "An advanced or beginner practice scenario")
     = Some beginner.
Proof.
  split; [reflexivity |].
  apply (detectPracticeMode_difficulty "An advanced or beginner practice scenario");
    [reflexivity |].
  apply includes_spec. reflexivity.
Defined.

(** X15. For a message that asks for practice, the conversation mode is [multi]
    exactly when the lower-cased message contains "multi-turn" or
    "multi turn", [single] when it contains neither but contains "single" or
    "quick", and unset otherwise: [multi] wins over [single]. *)
Theorem detectPracticeMode_conversationMode (message : string) :
  let lower := toLowerCase message in
  let r := detectPracticeMode message in
  isPracticeMode r = true ->
  (conversationMode r = Some multi
   <-> contains lower "multi-turn" \/ contains lower "multi turn")
  /\ (conversationMode r = Some single
      <-> ~ contains lower "multi-turn" /\ ~ contains lower "multi turn"
          /\ (contains lower "single" \/ contains lower "quick"))
  /\ (conversationMode r = None
      <-> ~ contains lower "multi-turn" /\ ~ contains lower "multi turn"
          /\ ~ contains lower "single" /\ ~ contains lower "quick").
Proof.
  intros lower r. subst r. unfold detectPracticeMode. fold lower.
  destruct (negb _); [discriminate |]. intros _. cbn [conversationMode].
  unfold detectConversationMode. rewrite <- !includes_spec.
  destruct (includes lower "multi-turn"), (includes lower "multi turn"),
    (includes lower "single"), (includes lower "quick"); simpl;
    repeat split; intros; try done; try tauto;
    repeat match goal with
           | H : _ /\ _ |- _ => destruct H
           | H : _ \/ _ |- _ => destruct H
           end; congruence.
Qed.

Lemma detectPracticeMode_conversationMode_witness :
  isPracticeMode (detectPracticeMode "A quick multi-turn practice") = true
  /\ conversationMode (detectPracticeMode "A quick multi-turn practice") = Some multi.
Proof.
  split; [reflexivity |].
  apply (detectPracticeMode_conversationMode "A quick multi-turn practice");
    [reflexivity |].
  left. apply includes_spec. reflexivity.
Defined.

(** ** A request inside a longer message *)

Lemma toLowerCase_app (a b : string) :
  toLowerCase (a ++ b) = toLowerCase a ++ toLowerCase b.
Proof. induction a as [|c a IH]; [done |]. simpl. by rewrite IH. Qed.

Lemma includes_embedded (a s b k : string) :
  includes s k = true -> includes (a ++ s ++ b) k = true.
Proof.
  rewrite !includes_spec. intros (pre & post & ->).
  exists (a ++ pre), (post ++ b).
  induction a as [|c a IH]; simpl.
  - induction pre as [|c pre IH]; simpl; [| by rewrite IH].
    induction k as [|c k IH]; simpl; [done | by rewrite IH].
  - by rewrite IH.
Qed.

(** X23. Text around a request does not undo it: when a message is detected as
    practice mode, so is every message that contains it; and a message that
    contains one detected as a translation, as beginner level or as
    multi-turn is detected so too (the values that win over the others).
    The focus component has no such guarantee: it depends on word
    boundaries, which text put next to the message can remove. *)
Theorem detectPracticeMode_embedded (before message after : string) :
  let r := detectPracticeMode message in
  let r' := detectPracticeMode (before ++ message ++ after) in
  (isPracticeMode r = true -> isPracticeMode r' = true)
  /\ (mode r = Some translate -> mode r' = Some translate)
  /\ (difficulty r = Some beginner -> difficulty r' = Some beginner)
  /\ (conversationMode r = Some multi -> conversationMode r' = Some multi)
  /\ focusComponent (detectPracticeMode "observations practice") = Some observations
  /\ focusComponent (detectPracticeMode ("my" ++ "observations practice" ++ "")) = None.
Proof.
  intros r r'. subst r r'. unfold detectPracticeMode.
  rewrite !toLowerCase_app.
  set (lower := toLowerCase message).
  set (whole := toLowerCase before ++ lower ++ toLowerCase after).
  assert (forall k, includes lower k = true -> includes whole k = true) as HK
    by (intros k; apply includes_embedded).
  unfold someIncluded, practiceKeywords, translateKeywords, detectDifficulty,
    detectConversationMode.
  cbn [existsb]. rewrite !orb_false_r.
  set (P := includes lower "practice" || includes lower "scenario").
  set (T := includes lower "translate" || includes lower "transform").
  set (P' := includes whole "practice" || includes whole "scenario").
  set (T' := includes whole "translate" || includes whole "transform").
  assert (P = true -> P' = true) as HP.
  { unfold P, P'. rewrite !orb_true_iff. intros [H | H]; [left | right]; by apply HK. }
  assert (T = true -> T' = true) as HT.
  { unfold T, T'. rewrite !orb_true_iff. intros [H | H]; [left | right]; by apply HK. }
  assert (P || T = true -> P' || T' = true) as HPT.
  { rewrite !orb_true_iff. tauto. }
  split; [| split; [| split; [| split; [| split; vm_compute; reflexivity]]]].
  - destruct (P || T) eqn:E;
      [| by cbn [negb isPracticeMode mode difficulty conversationMode]]. intros _. by rewrite HPT.
  - destruct (P || T) eqn:E;
      [| by cbn [negb isPracticeMode mode difficulty conversationMode]].
    rewrite HPT by done. cbn [negb mode].
    destruct T; [by rewrite HT | done].
  - destruct (P || T) eqn:E;
      [| by cbn [negb isPracticeMode mode difficulty conversationMode]].
    rewrite HPT by done. cbn [negb difficulty].
    destruct (includes lower "beginner") eqn:EB; [by rewrite HK |].
    destruct (includes lower "intermediate"); [done |].
    by destruct (includes lower "advanced").
  - destruct (P || T) eqn:E;
      [| by cbn [negb isPracticeMode mode difficulty conversationMode]].
    rewrite HPT by done. cbn [negb conversationMode].
    destruct (includes lower "multi-turn") eqn:E1; [by rewrite HK |].
    destruct (includes lower "multi turn") eqn:E2;
      [rewrite (HK "multi turn") by done; by rewrite !orb_true_r |].
    cbn [orb]. by destruct (includes lower "single" || includes lower "quick").
Qed.

End DetectionFacts.

(** * What the component patterns match *)
Module WordFacts.
Import JSString RegExp PracticeMode PracticeModeFacts.
#[local] Arguments String.append !_ _ / : simpl nomatch.

(** The last character of [s], or [prev] when [s] is empty. *)
Fixpoint lastOr (prev : option ascii) (s : string) : option ascii :=
  match s with
  | EmptyString => prev
  | String c t => lastOr (Some c) t
  end.

(** The position between [pre] and [rest] is a word boundary: exactly one
    of the characters next to it is a word character (the ends of the text
    count as non-word). *)
Definition boundary (pre rest : string) : Prop :=
  isWordAt (lastOr None pre) <> isWordAt (peek rest).

(** [w] begins at a word boundary somewhere in [s]. *)
Definition wordStart (w s : string) : Prop :=
  exists pre post, s = pre ++ w ++ post /\ boundary pre (w ++ post).

(** [w] or [w] followed by "s" stands in [s] between two word boundaries. *)
Definition wholeWord (w s : string) : Prop :=
  exists pre mid post,
    s = pre ++ mid ++ post
    /\ (mid = w \/ mid = w ++ "s")
    /\ boundary pre (mid ++ post)
    /\ boundary (pre ++ mid) post.

(** No character of [s] is changed by [toLowerCase]. *)
Definition lowered (s : string) : Prop := toLowerCase s = s.

Lemma lowerChar_idempotent (c : ascii) : lowerChar (lowerChar c) = lowerChar c.
Proof. destruct c as [[] [] [] [] [] [] [] []]; reflexivity. Qed.

Lemma toLowerCase_lowered (s : string) : lowered (toLowerCase s).
Proof.
  unfold lowered. induction s as [|c s IH]; [done |].
  simpl. by rewrite lowerChar_idempotent, IH.
Qed.

Lemma lowered_cons (c : ascii) (s : string) :
  lowered (String c s) <-> lowerChar c = c /\ lowered s.
Proof. unfold lowered. simpl. split; [by intros [= -> ->] | by intros [-> ->]]. Qed.

Lemma lowered_app (a b : string) : lowered (a ++ b) <-> lowered a /\ lowered b.
Proof.
  induction a as [|c a IH]; simpl.
  - unfold lowered at 2. simpl. tauto.
  - rewrite !lowered_cons, IH. tauto.
Qed.

Lemma sameLetter_lowered (c a : ascii) :
  lowerChar c = c -> lowerChar a = a -> sameLetter c a = bool_decide (c = a).
Proof. intros Hc Ha. unfold sameLetter. by rewrite Hc, Ha. Qed.

Lemma lastOr_app (prev : option ascii) (a b : string) :
  lastOr prev (a ++ b) = lastOr (lastOr prev a) b.
Proof. revert prev. induction a as [|c a IH]; intros prev; [done |]. simpl. apply IH. Qed.

Lemma xorb_true_neq (a b : bool) : xorb a b = true <-> a <> b.
Proof. destruct a, b; simpl; split; congruence. Qed.

(** Literal characters match themselves, one after the other. *)
Lemma matchHere_lits (w : string) (p : list atom) (prev : option ascii) (s : string) :
  lowered w -> lowered s ->
  matchHere (lits w ++ p) prev s = true
  <-> exists rest, s = w ++ rest /\ matchHere p (lastOr prev w) rest = true.
Proof.
  revert prev s. induction w as [|c w IH]; intros prev s Hw Hs.
  - simpl. split; [intros H; by exists s | by intros (rest & -> & H)].
  - apply lowered_cons in Hw as [Hc Hw]. cbn [lits app matchHere].
    destruct s as [|a t].
    + split; [done | intros (rest & H & _); discriminate].
    + apply lowered_cons in Hs as [Ha Ht].
      rewrite andb_true_iff, sameLetter_lowered, bool_decide_eq_true, IH by done.
      split.
      * intros [-> (rest & -> & H)]. by exists rest.
      * intros (rest & [= -> ->] & H). split; [done |]. by exists rest.
Qed.

(** The search tries every position, from left to right. *)
Lemma searchFrom_spec (p : list atom) (prev : option ascii) (s : string) :
  searchFrom p prev s = true
  <-> exists pre rest, s = pre ++ rest /\ matchHere p (lastOr prev pre) rest = true.
Proof.
  revert prev. induction s as [|a t IH]; intros prev; cbn [searchFrom].
  - rewrite orb_false_r. split.
    + intros H. by exists "", "".
    + intros (pre & rest & H & HM). destruct pre; [| discriminate].
      simpl in H. by subst rest.
  - rewrite orb_true_iff, IH. split.
    + intros [H | (pre & rest & -> & H)].
      * by exists "", (String a t).
      * by exists (String a pre), rest.
    + intros (pre & rest & H & HM). destruct pre as [|c pre]; simpl in H.
      * left. by subst rest.
      * injection H as -> ->. right. by exists pre, rest.
Qed.

(** [/\bw/] on a lower-cased text. *)
Lemma test_wordStart (w s : string) :
  lowered w -> lowered s ->
  test (WordBoundary :: lits w) s = true <-> wordStart w s.
Proof.
  intros Hw Hs. unfold test, wordStart. rewrite searchFrom_spec. split.
  - intros (pre & rest & -> & H). cbn [matchHere] in H.
    apply andb_true_iff in H as [HB H]. apply lowered_app in Hs as [_ Hs].
    rewrite <- (app_nil_r (lits w)) in H.
    apply matchHere_lits in H as (post & -> & _); [| done ..].
    exists pre, post. split; [done |]. by apply xorb_true_neq.
  - intros (pre & post & -> & HB). exists pre, (w ++ post). split; [done |].
    cbn [matchHere]. apply andb_true_iff. split; [by apply xorb_true_neq |].
    apply lowered_app in Hs as [_ Hs].
    rewrite <- (app_nil_r (lits w)). apply matchHere_lits; [done .. |]. by exists post.
Qed.

(** [s?\b] at the end of a pattern. *)
Lemma matchHere_plural (prev : option ascii) (s : string) :
  lowered s ->
  matchHere [Opt "s"; WordBoundary] prev s = true
  <-> (exists t, s = String "s" t /\ isWordAt (Some "s"%char) <> isWordAt (peek t))
      \/ isWordAt prev <> isWordAt (peek s).
Proof.
  intros Hs. cbn [matchHere]. rewrite orb_true_iff, !andb_true_r.
  apply Morphisms_Prop.or_iff_morphism; [| apply xorb_true_neq].
  destruct s as [|a t]; [by split; [| intros (t & H & _)] |].
  apply lowered_cons in Hs as [Ha _].
  rewrite andb_true_iff, andb_true_r, sameLetter_lowered, bool_decide_eq_true by done.
  split.
  - intros [<- H]. exists t. split; [done |]. by apply xorb_true_neq.
  - intros (t' & [= -> ->] & H). split; [done |]. by apply xorb_true_neq.
Qed.

Lemma append_assoc (a b c : string) : (a ++ b) ++ c = a ++ b ++ c.
Proof. induction a as [|x a IH]; [done |]. simpl. by rewrite IH. Qed.

Lemma lastOr_snoc (prev : option ascii) (w : string) (c : ascii) :
  lastOr prev (w ++ String c "") = Some c.
Proof. by rewrite lastOr_app. Qed.

(** [/\bws?\b/] on a lower-cased text. *)
Lemma test_wholeWord (w s : string) :
  lowered w -> lowered s ->
  test (WordBoundary :: lits w ++ [Opt "s"; WordBoundary]) s = true <-> wholeWord w s.
Proof.
  intros Hw Hs. unfold test, wholeWord. rewrite searchFrom_spec. split.
  - intros (pre & rest & -> & H). cbn [matchHere] in H.
    apply andb_true_iff in H as [HB H]. apply xorb_true_neq in HB.
    apply lowered_app in Hs as [_ Hs].
    apply matchHere_lits in H as (post & -> & H); [| done ..].
    apply lowered_app in Hs as [_ Hs].
    apply matchHere_plural in H as [(t & -> & H) | H]; [| | done].
    + exists pre, (w ++ "s"), t. split; [| split; [by right | split]].
      * by rewrite append_assoc.
      * by rewrite append_assoc.
      * unfold boundary. by rewrite lastOr_app, lastOr_snoc.
    + exists pre, w, post. split; [done |]. split; [by left |]. split; [done |].
      unfold boundary. by rewrite lastOr_app.
  - intros (pre & mid & post & -> & Hmid & HB1 & HB2).
    exists pre, (mid ++ post). split; [done |]. cbn [matchHere].
    apply andb_true_iff. split; [by apply xorb_true_neq |].
    apply lowered_app in Hs as [_ Hs].
    destruct Hmid as [-> | ->].
    + apply matchHere_lits; [done .. |]. exists post. split; [done |].
      apply lowered_app in Hs as [_ Hs].
      apply matchHere_plural; [done |]. right.
      unfold boundary in HB2. by rewrite lastOr_app in HB2.
    + rewrite append_assoc in Hs |- *.
      apply matchHere_lits; [done .. |]. exists ("s" ++ post). split; [done |].
      apply lowered_app in Hs as [_ Hs].
      apply matchHere_plural; [done |]. left. exists post. split; [done |].
      unfold boundary in HB2. by rewrite lastOr_app, lastOr_snoc in HB2.
Qed.

(** X16. For a message that asks for practice, the focus component says which
    word the lower-cased message holds: [observations] when "observation"
    begins at a word boundary (whatever follows it); otherwise [feelings]
    when "feeling" or "feelings" stands between two word boundaries;
    otherwise [needs] for "need" or "needs"; otherwise [requests] for
    "request" or "requests"; and none when no such word occurs. *)
Theorem detectPracticeMode_focus_words (message : string) :
  let lower := toLowerCase message in
  let r := detectPracticeMode message in
  isPracticeMode r = true ->
  (focusComponent r = Some observations <-> wordStart "observation" lower)
  /\ (focusComponent r = Some feelings
      <-> ~ wordStart "observation" lower /\ wholeWord "feeling" lower)
  /\ (focusComponent r = Some needs
      <-> ~ wordStart "observation" lower /\ ~ wholeWord "feeling" lower
          /\ wholeWord "need" lower)
  /\ (focusComponent r = Some requests
      <-> ~ wordStart "observation" lower /\ ~ wholeWord "feeling" lower
          /\ ~ wholeWord "need" lower /\ wholeWord "request" lower)
  /\ (focusComponent r = None
      <-> ~ wordStart "observation" lower /\ ~ wholeWord "feeling" lower
          /\ ~ wholeWord "need" lower /\ ~ wholeWord "request" lower).
Proof.
  intros lower r. subst r. unfold detectPracticeMode. fold lower.
  destruct (negb _); [discriminate |]. intros _. cbn [focusComponent].
  pose proof (toLowerCase_lowered message) as HL. fold lower in HL.
  rewrite <- (test_wordStart "observation" lower eq_refl HL).
  rewrite <- (test_wholeWord "feeling" lower eq_refl HL).
  rewrite <- (test_wholeWord "need" lower eq_refl HL).
  rewrite <- (test_wholeWord "request" lower eq_refl HL).
  cbn [firstMatching componentPatterns].
  destruct (test (WordBoundary :: lits "observation") lower),
    (test (WordBoundary :: lits "feeling" ++ [Opt "s"; WordBoundary]) lower),
    (test (WordBoundary :: lits "need" ++ [Opt "s"; WordBoundary]) lower),
    (test (WordBoundary :: lits "request" ++ [Opt "s"; WordBoundary]) lower);
    repeat split; intros; try done; try tauto;
    repeat match goal with H : _ /\ _ |- _ => destruct H end; congruence.
Qed.

Lemma detectPracticeMode_focus_words_witness :
  isPracticeMode (detectPracticeMode "Practice my needs, please") = true
  /\ focusComponent (detectPracticeMode "Practice my needs, please") = Some needs.
Proof.
  split; [reflexivity |].
  apply (detectPracticeMode_focus_words "Practice my needs, please"); [reflexivity |].
  pose proof (toLowerCase_lowered "Practice my needs, please") as HL.
  rewrite <- (test_wordStart "observation" _ eq_refl HL).
  rewrite <- (test_wholeWord "feeling" _ eq_refl HL).
  rewrite <- (test_wholeWord "need" _ eq_refl HL).
  split; [| split]; [intros H; discriminate H .. | reflexivity].
Defined.
End WordFacts.

(** * Composing scenario filters *)
Module FilterFacts.
Import JSString PracticeMode PracticeModeFacts.
Local Open Scope list_scope.

Definition onlyDifficulty (f : ScenarioFilter) : ScenarioFilter :=
  {| filterDifficulty := filterDifficulty f; filterFocusComponent := None;
     filterConversationMode := None |}.

Definition onlyFocusComponent (f : ScenarioFilter) : ScenarioFilter :=
  {| filterDifficulty := None; filterFocusComponent := filterFocusComponent f;
     filterConversationMode := None |}.

Definition onlyConversationMode (f : ScenarioFilter) : ScenarioFilter :=
  {| filterDifficulty := None; filterFocusComponent := None;
     filterConversationMode := filterConversationMode f |}.

Lemma filter_filter {A : Type} (f g : A -> bool) (l : list A) :
  List.filter g (List.filter f l) = List.filter (fun x => f x && g x) l.
Proof.
  induction l as [|x l IH]; [done |]. simpl.
  destruct (f x); simpl; [destruct (g x) |]; by rewrite IH.
Qed.

Lemma keeps_split (f : ScenarioFilter) (s : Scenario) :
  keeps f s
  = keeps (onlyDifficulty f) s && keeps (onlyFocusComponent f) s
    && keeps (onlyConversationMode f) s.
Proof.
  unfold keeps. simpl.
  destruct (rejects (difficultyName <$> filterDifficulty f) _),
    (rejects (filterFocusComponent f) _),
    (rejects (conversationModeName <$> filterConversationMode f) _); reflexivity.
Qed.

(** X17. Filters compose as conjunctions: filtering a result again by other
    criteria gives the same as filtering in the other order; filtering twice
    by the same criteria changes nothing more; filtering by several criteria
    at once is filtering by each of them in turn; the filter of a
    concatenation is the concatenation of the filters; and the result is
    never longer than the input. *)
Theorem filterScenarios_compose (scenarios more : list Scenario) (f g : ScenarioFilter) :
  filterScenarios (filterScenarios scenarios f) g
  = filterScenarios (filterScenarios scenarios g) f
  /\ filterScenarios (filterScenarios scenarios f) f = filterScenarios scenarios f
  /\ filterScenarios scenarios f
     = filterScenarios
         (filterScenarios (filterScenarios scenarios (onlyDifficulty f))
                          (onlyFocusComponent f))
         (onlyConversationMode f)
  /\ filterScenarios (scenarios ++ more) f
     = filterScenarios scenarios f ++ filterScenarios more f
  /\ (length (filterScenarios scenarios f) <= length scenarios)%nat.
Proof.
  unfold filterScenarios. rewrite !filter_filter. repeat split.
  - apply List.filter_ext. intros s. apply andb_comm.
  - apply List.filter_ext. intros s. by destruct (keeps f s).
  - apply List.filter_ext. intros s. rewrite keeps_split. symmetry. apply andb_assoc.
  - apply List.filter_app.
  - apply List.filter_length_le.
Qed.
End FilterFacts.

(** * The instructions the chat route derives from a message *)
Module RouteFacts.
Import JSString PracticeMode PracticeModeFacts Route.

(** Which of the fixed phrases the instructions hold, for every detection
    result. *)
Lemma practiceModeInstructions_phrases (practiceMode : PracticeMode) :
  let instructions := practiceModeInstructions practiceMode in
  bool_decide (instructions = "") = negb (isPracticeMode practiceMode)
  /\ includes instructions "PRACTICE MODE ACTIVE: Translation Exercise"
     = isPracticeMode practiceMode && bool_decide (mode practiceMode = Some translate)
  /\ includes instructions "PRACTICE MODE ACTIVE: Interactive Practice"
     = isPracticeMode practiceMode
       && negb (bool_decide (mode practiceMode = Some translate))
  /\ includes instructions "step-by-step"
     = isPracticeMode practiceMode
       && bool_decide (conversationMode practiceMode = Some multi)
  /\ includes instructions "in a single response"
     = isPracticeMode practiceMode
       && negb (bool_decide (conversationMode practiceMode = Some multi)).
Proof.
  destruct practiceMode as [[] [[]|] [[]|] [[]|] [[]|]]; vm_compute; repeat split.
Qed.

(** Which component and which difficulty the instructions name, for every
    detection result. *)
Lemma practiceModeInstructions_names (practiceMode : PracticeMode) :
  let instructions := practiceModeInstructions practiceMode in
  (forall c,
     includes instructions
       ("Focus specifically on the " ++ quote ++ componentName c ++ quote)
     = isPracticeMode practiceMode
       && bool_decide (focusComponent practiceMode = Some c))
  /\ includes instructions "Cover all OFNR components"
     = isPracticeMode practiceMode && bool_decide (focusComponent practiceMode = None)
  /\ (forall d,
        includes instructions ("Adjust complexity for " ++ difficultyName d ++ " level")
        = isPracticeMode practiceMode
          && bool_decide (difficulty practiceMode = Some d))
  /\ includes instructions "Gauge the user's level"
     = isPracticeMode practiceMode && bool_decide (difficulty practiceMode = None).
Proof.
  destruct practiceMode as [[] [[]|] [[]|] [[]|] [[]|]];
    (split; [intros []; vm_compute; reflexivity |]);
    (split; [vm_compute; reflexivity |]);
    (split; [intros []; vm_compute; reflexivity | vm_compute; reflexivity]).
Qed.

(** X18. What [POST] adds to the system prompt for the latest message: nothing
    unless the lower-cased message contains "practice", "scenario",
    "translate" or "transform" (a missing message adds nothing); the
    translation exercise when it contains "translate" or "transform", the
    interactive practice otherwise; and step-by-step guidance exactly when
    it also contains "multi-turn" or "multi turn": every other practice
    message, whether it asks for a single response or for nothing, gets the
    single-response style.  The instructions name a component or a
    difficulty exactly when the detection found that one. *)
Theorem instructionsFor_spec (latestMessage : option string) :
  let lower := toLowerCase (default "" latestMessage) in
  let r := detectPracticeMode (default "" latestMessage) in
  let instructions := instructionsFor latestMessage in
  let asksPractice := contains lower "practice" \/ contains lower "scenario" in
  let asksTranslate := contains lower "translate" \/ contains lower "transform" in
  let asksMulti := contains lower "multi-turn" \/ contains lower "multi turn" in
  (instructions = "" <-> ~ (asksPractice \/ asksTranslate))
  /\ (contains instructions "PRACTICE MODE ACTIVE: Translation Exercise"
      <-> asksTranslate)
  /\ (contains instructions "PRACTICE MODE ACTIVE: Interactive Practice"
      <-> asksPractice /\ ~ asksTranslate)
  /\ (contains instructions "step-by-step"
      <-> (asksPractice \/ asksTranslate) /\ asksMulti)
  /\ (contains instructions "in a single response"
      <-> (asksPractice \/ asksTranslate) /\ ~ asksMulti)
  /\ (forall c,
        contains instructions
          ("Focus specifically on the " ++ quote ++ componentName c ++ quote)
        <-> isPracticeMode r = true /\ focusComponent r = Some c)
  /\ (forall d,
        contains instructions ("Adjust complexity for " ++ difficultyName d ++ " level")
        <-> isPracticeMode r = true /\ difficulty r = Some d)
  /\ instructionsFor None = "".
Proof.
  intros lower r instructions asksPractice asksTranslate asksMulti.
  assert (forall (b : bool) (P : Prop) `{Decision P},
            b && bool_decide P = true <-> b = true /\ P) as HB.
  { intros b P ?. rewrite andb_true_iff, bool_decide_eq_true. tauto. }
  destruct (practiceModeInstructions_names r) as (N1 & _ & N2 & _).
  split; [| split; [| split; [| split; [| split; [| split; [| split; [| done]]]]]]];
    [.. | intros c; subst instructions; unfold instructionsFor; fold r;
          by rewrite <- includes_spec, N1, HB
        | intros d; subst instructions; unfold instructionsFor; fold r;
          by rewrite <- includes_spec, N2, HB];
    clear N1 N2 HB;
    subst instructions asksPractice asksTranslate asksMulti r; unfold instructionsFor;
    destruct (practiceModeInstructions_phrases (detectPracticeMode (default "" latestMessage)))
      as (H0 & H1 & H2 & H3 & H4);
    rewrite <- ?includes_spec, ?H1, ?H2, ?H3, ?H4;
    rewrite <- ?(bool_decide_eq_true (practiceModeInstructions _ = "")), ?H0;
    clear H0 H1 H2 H3 H4;
    unfold detectPracticeMode; fold lower;
    unfold someIncluded, practiceKeywords, translateKeywords, detectConversationMode;
    cbn [existsb]; rewrite !orb_false_r;
    destruct (includes lower "practice"), (includes lower "scenario"),
      (includes lower "translate"), (includes lower "transform"),
      (includes lower "multi-turn"), (includes lower "multi turn");
      cbn -[includes]; try destruct (includes lower "single" || includes lower "quick");
      cbn; intuition (try discriminate; try congruence).
Qed.
End RouteFacts.

(** * The sources the chat route appends to an answer *)
Module SourcesFacts.
Import JSString JSON JSONFacts Route.
Local Open Scope list_scope.

(** ** The sources block *)

Definition addAll (seen sources : list string) : list string :=
  fold_left (fun seen x => if bool_decide (x ∈ seen) then seen else seen ++ [x])
            sources seen.

Lemma addAll_spec (sources seen : list string) :
  NoDup seen ->
  NoDup (addAll seen sources)
  /\ (forall x, x ∈ addAll seen sources <-> x ∈ seen \/ x ∈ sources)
  /\ exists added, addAll seen sources = seen ++ added.
Proof.
  revert seen. induction sources as [|y l IH]; intros seen ND.
  - split; [done |]. split; [| exists []; by rewrite app_nil_r].
    intros x. rewrite elem_of_nil. tauto.
  - unfold addAll. cbn [fold_left]. fold (addAll (if bool_decide (y ∈ seen) then seen
                                                  else seen ++ [y]) l).
    destruct (bool_decide_reflect (y ∈ seen)) as [Hin | Hnin].
    + destruct (IH seen ND) as (H1 & H2 & H3). split; [done |]. split; [| done].
      intros x. rewrite H2, elem_of_cons. split; [tauto |].
      intros [H | [-> | H]]; tauto.
    + assert (NoDup (seen ++ [y])) as ND'.
      { apply NoDup_app. split; [done |]. split; [| apply NoDup_singleton].
        intros x Hx ->%list_elem_of_singleton. done. }
      destruct (IH (seen ++ [y]) ND') as (H1 & H2 & (added & H3)).
      split; [done |]. split.
      * intros x. rewrite H2, elem_of_app, list_elem_of_singleton, elem_of_cons. tauto.
      * exists (y :: added). by rewrite H3, <- app_assoc.
Qed.

Lemma wf_strings (l : list string) : wf (Arr (List.map Str l)).
Proof.
  constructor. induction l as [|x l IH]; simpl; constructor; [constructor | done].
Qed.

(** X19. The answer is left as it is when the knowledge base was not used or
    gave no source.  Otherwise it is followed by two line breaks, the
    delimiter line and a text that [JSON.parse] reads as an array of strings:
    the sources without repetition, every source among them, in the order of
    their first occurrence (the first source first), cut after five.  As
    [POST] collects at most five sources, the cut drops none. *)
Theorem withSources_spec (useRag : bool) (sources : list string) (content : string) :
  (useRag = false \/ sources = [] -> withSources useRag sources content = content)
  /\ (useRag = true -> sources <> [] ->
      exists json listed,
        withSources useRag sources content = (content ++ sourcesDelimiter ++ json)%string
        /\ JSON.parse json = Ok (Arr (List.map Str listed))
        /\ listed = take 5 (uniqueOf sources)
        /\ NoDup listed
        /\ head listed = head sources
        /\ (forall x, x ∈ uniqueOf sources <-> x ∈ sources)
        /\ ((length sources <= 5)%nat -> listed = uniqueOf sources))
  /\ (forall documents, (length (sourcesOf documents) <= 5)%nat).
Proof.
  destruct (addAll_spec sources [] (NoDup_nil_2 (A:=string))) as (ND & Hin & (added & Happ)).
  change (addAll [] sources) with (uniqueOf sources) in *.
  split; [| split].
  - unfold withSources. intros [-> | ->]; [done | by rewrite andb_false_r].
  - intros -> Hne. unfold withSources.
    destruct sources as [|x l]; [done |]. cbn [length Nat.ltb Nat.leb andb].
    assert (exists u, uniqueOf (x :: l) = x :: u) as [u Hu].
    { destruct (addAll_spec l [x] (NoDup_singleton _)) as (_ & _ & (a & Ha)).
      exists a. exact Ha. }
    rewrite Hu. cbn [length Nat.ltb Nat.leb].
    eexists _, (take 5 (x :: u)). split; [reflexivity |].
    split; [apply parse_stringify, wf_strings |]. split; [done |].
    split; [rewrite <- Hu; eapply sublist_NoDup; [exact ND | apply sublist_take] |].
    split; [done |].
    split; [intros y; rewrite <- Hu, Hin, elem_of_nil; tauto |].
    intros Hlen. apply take_ge. rewrite <- Hu.
    assert (forall (s seen : list string),
              (length (addAll seen s) <= length seen + length s)%nat) as HL.
    { clear. induction s as [|y s IH]; intros seen; [simpl; lia |].
      unfold addAll. cbn [fold_left].
      fold (addAll (if bool_decide (y ∈ seen) then seen else seen ++ [y]) s).
      destruct (bool_decide (y ∈ seen)).
      - specialize (IH seen). simpl. lia.
      - specialize (IH (seen ++ [y])). rewrite length_app in IH. simpl in *. lia. }
    specialize (HL (x :: l) []). change (addAll [] (x :: l)) with (uniqueOf (x :: l)) in HL.
    simpl in *. lia.
  - intros documents. unfold sourcesOf. rewrite length_imap, length_take. lia.
Qed.

(** ** The label of a source *)

Lemma length_append (a b : string) :
  String.length (a ++ b) = (String.length a + String.length b)%nat.
Proof. induction a as [|c a IH]; [done |]. simpl. by rewrite IH. Qed.

Lemma length_substring_0 (n : nat) (s : string) :
  (n <= String.length s)%nat -> String.length (substring 0 n s) = n.
Proof.
  revert s. induction n as [|n IH]; intros s H.
  - by destruct s.
  - destruct s as [|c s]; simpl in *; [lia |]. rewrite IH; [done | lia].
Qed.

(** A prefix that is long enough starts as the whole string does. *)
Lemma startsWith_substring_0 (k : string) (n : nat) (s rest : string) :
  (String.length k <= n)%nat -> (n <= String.length s)%nat ->
  startsWith (substring 0 n s ++ rest) k = startsWith s k.
Proof.
  revert n s. induction k as [|a k IH]; intros n s Hk Hn.
  - by destruct (substring 0 n s ++ rest)%string, s.
  - destruct n as [|n]; simpl in Hk; [lia |].
    destruct s as [|b s]; simpl in Hn; [lia |]. simpl.
    destruct (decide (a = b)); [| done]. apply IH; lia.
Qed.

Lemma firstMeaningful_spec (lines : list string) (label : string) :
  firstMeaningful lines = Some label ->
  (15 < String.length label <= 53)%nat /\ startsWith label "http" = false.
Proof.
  induction lines as [|line rest IH]; [done |]. cbn [firstMeaningful].
  destruct (15 <? String.length (trim line))%nat eqn:E15; [| exact IH].
  destruct (bool_decide (trim line = "---")); [exact IH |].
  destruct (startsWith (trim line) "http") eqn:EH; [exact IH |]. cbn [negb andb].
  apply Nat.ltb_lt in E15.
  destruct (50 <? String.length (trim line))%nat eqn:E50; intros [= <-].
  - apply Nat.ltb_lt in E50.
    rewrite length_append, length_substring_0 by lia.
    split; [simpl; lia |].
    rewrite startsWith_substring_0; [done | simpl; lia | lia].
  - apply Nat.ltb_ge in E50. split; [lia | done].
Qed.

Lemma truthy_not_empty (o : option string) :
  PracticeMode.truthy o = true -> default "" o <> "".
Proof.
  destruct o as [s|]; [| done]. simpl. intros H%negb_true_iff.
  by apply bool_decide_eq_false in H.
Qed.

(** A line will do as a label: trimmed, it has more than 15 characters and
    does not begin with "http". *)
Definition suitable (line : string) : bool :=
  (15 <? String.length (trim line))%nat && negb (startsWith (trim line) "http").

(** A label is cut after 50 characters, with "..." to show it. *)
Definition shorten (s : string) : string :=
  if (50 <? String.length s)%nat then (substring 0 50 s ++ "...")%string else s.

(** What the loop tests is [suitable]: the separator "---" is too short to
    pass the first test anyway. *)
Lemma firstMeaningful_cons (line : string) (rest : list string) :
  firstMeaningful (line :: rest)
  = if suitable line then Some (shorten (trim line)) else firstMeaningful rest.
Proof.
  cbn [firstMeaningful]. unfold suitable, shorten.
  destruct (15 <? String.length (trim line))%nat eqn:E15; [| reflexivity].
  destruct (bool_decide_reflect (trim line = "---")) as [E | _]; [| reflexivity].
  rewrite E in E15. discriminate.
Qed.

(** Dropping the blank lines first changes nothing: a blank line is not
    suitable. *)
Lemma firstMeaningful_filter (lines : list string) :
  firstMeaningful (List.filter (fun l => (0 <? String.length (trim l))%nat) lines)
  = firstMeaningful lines.
Proof.
  induction lines as [|line rest IH]; [reflexivity |].
  cbn [List.filter]. destruct (0 <? String.length (trim line))%nat eqn:E.
  - by rewrite !firstMeaningful_cons, IH.
  - rewrite firstMeaningful_cons, IH. unfold suitable.
    apply Nat.ltb_ge in E. assert (String.length (trim line) = 0)%nat as -> by lia.
    reflexivity.
Qed.

Lemma firstMeaningful_first (before : list string) (line : string) (after : list string) :
  Forall (fun l => suitable l = false) before -> suitable line = true ->
  firstMeaningful (before ++ line :: after) = Some (shorten (trim line)).
Proof.
  intros HB HL. induction HB as [|l before Hl _ IH]; simpl app.
  - by rewrite firstMeaningful_cons, HL.
  - by rewrite firstMeaningful_cons, Hl.
Qed.

Lemma firstMeaningful_none (lines : list string) :
  Forall (fun l => suitable l = false) lines -> firstMeaningful lines = None.
Proof.
  induction 1 as [|l lines Hl _ IH]; [reflexivity |].
  by rewrite firstMeaningful_cons, Hl.
Qed.

(** X20. The label [POST] shows for a source.  It is never empty.  The
    first of title, source and name in the metadata that is not empty is the
    label, whatever the text holds.  Without any of them the label comes
    from the text, split at its line breaks: it is the first line that,
    trimmed, has more than 15 characters and does not begin with "http",
    trimmed and cut after 50 characters with "..." appended; so it has more
    than 15 and at most 53 characters.  When no line will do, it is
    "Source " followed by the position of the document counted from 1. *)
Theorem sourceOf_spec (doc : Document) (idx : nat) :
  let text := default "" (document doc) in
  let noMetadata :=
    PracticeMode.truthy (metadataTitle doc) = false
    /\ PracticeMode.truthy (metadataSource doc) = false
    /\ PracticeMode.truthy (metadataName doc) = false in
  sourceOf doc idx <> ""
  /\ (forall t, metadataTitle doc = Some t -> t <> "" -> sourceOf doc idx = t)
  /\ (forall t, PracticeMode.truthy (metadataTitle doc) = false ->
        metadataSource doc = Some t -> t <> "" -> sourceOf doc idx = t)
  /\ (forall t, PracticeMode.truthy (metadataTitle doc) = false ->
        PracticeMode.truthy (metadataSource doc) = false ->
        metadataName doc = Some t -> t <> "" -> sourceOf doc idx = t)
  /\ (forall before line after,
        noMetadata -> splitLines text = before ++ line :: after ->
        Forall (fun l => suitable l = false) before -> suitable line = true ->
        sourceOf doc idx = shorten (trim line)
        /\ (15 < String.length (sourceOf doc idx) <= 53)%nat
        /\ startsWith (sourceOf doc idx) "http" = false)
  /\ (noMetadata -> Forall (fun l => suitable l = false) (splitLines text) ->
        sourceOf doc idx = ("Source " ++ Progress.decimal (Z.of_nat idx + 1))%string).
Proof.
  intros text noMetadata. subst noMetadata.
  assert (forall o : option string, PracticeMode.truthy o = false ->
            forall b : option string, orElse o b = b) as HF.
  { intros o H b. unfold orElse. by rewrite H. }
  assert (forall t : string, t <> "" -> PracticeMode.truthy (Some t) = true) as HT.
  { intros t Hne. simpl. by rewrite bool_decide_eq_false_2. }
  assert (forall (t : string) (b : option string), t <> "" -> orElse (Some t) b = Some t)
    as HS.
  { intros t b Hne. unfold orElse. by rewrite HT. }
  unfold sourceOf. fold text. rewrite firstMeaningful_filter.
  split; [| split; [| split; [| split; [| split]]]].
  - destruct (PracticeMode.truthy _) eqn:EM; [by apply truthy_not_empty |].
    destruct (firstMeaningful (splitLines text)) as [label|] eqn:EL; [| done].
    apply firstMeaningful_spec in EL as [[H _] _]. intros ->. simpl in H. lia.
  - intros t Ht Hne. rewrite Ht, !HS by done. by rewrite HT.
  - intros t H1 Ht Hne. rewrite (HF _ H1), Ht, HS by done. by rewrite HT.
  - intros t H1 H2 Ht Hne. rewrite (HF _ H1), (HF _ H2), Ht. by rewrite HT.
  - intros before line after (H1 & H2 & H3) Hsplit HB HL.
    rewrite (HF _ H1), (HF _ H2), H3, Hsplit.
    pose proof (firstMeaningful_first before line after HB HL) as HFM.
    rewrite HFM. split; [reflexivity |]. by apply firstMeaningful_spec in HFM.
  - intros (H1 & H2 & H3) HN. rewrite (HF _ H1), (HF _ H2), H3.
    by rewrite firstMeaningful_none.
Qed.

End SourcesFacts.
